(** * Hybrid retrieval engine ([vector_store.py]): a shallow embedding

    The engine keeps a dense vector matrix, a tokenized sparse corpus, the
    ordered chunk records and the document status records, and mirrors them
    on disk.  This development embeds [VectorStore] as state-passing code
    over an explicit world (in-memory store, disk, log of external effects)
    and proves the properties its specification states.

    Modelling decisions:
    - [float] and [float32] values are idealised as real numbers ([R]);
      rounding is not modelled.  The theorems about scores therefore state
      only what rounding preserves: which expression of the code a value
      is, comparisons between computed values, and bounds that follow from
      the monotonicity of the operations.
    - Strings are byte strings; [_tokenize] is exact on ASCII text.
    - [np.save]/[np.load], [pickle] and [json] are exact: a file holds the
      value that was written, or is absent, or is corrupt.
    - A [BM25Okapi] index is represented by the corpus it was built over.
    - The embedding provider ([genai.embed_content]) is an argument of the
      operations that call it, so that its answers may differ between calls.
    - The sparse scorer ([rank_bm25.BM25Okapi.get_scores]) and the iteration
      order of a Python [set] of integers are fields of a [Runtime].
    - A dict filled by [enumerate] (keys [0 .. n-1]) is the list of its
      values; [document_metadata] is an insertion-ordered association list.
    - Failures of the file system are not modelled.  Nor is the one
      failure of the [BM25Okapi] constructor, which divides by zero on a
      corpus without a single token (every chunk text blank): [add_chunks],
      [delete_document] and [_load_from_disk] are modelled on corpora that
      hold a token, where the constructor succeeds. *)

From Stdlib Require Import String Ascii Bool Arith ZArith Lia List.
From Stdlib Require Import Reals Lra Psatz.
From Stdlib Require Import Permutation Sorted.
From Stdlib Require Import DecimalString.
Import ListNotations.

Set Implicit Arguments.

(* ================================================================== *)
(** * Data model *)

(** A chunk payload as handed to [add_chunks] (a dict with these keys). *)
Module Chunk.
Record t := mk {
  text : string;
  chunk_index : Z;
  filename : string;
  char_count : Z;
  approx_tokens : Z
}.
End Chunk.

(** A stored chunk record ([chunk_meta] in [add_chunks]). *)
Module ChunkMeta.
Record t := mk {
  document_id : string;
  chunk_id : string;
  text : string;
  chunk_index : Z;
  filename : string;
  char_count : Z;
  approx_tokens : Z
}.
End ChunkMeta.

(** A document status record (a value of [document_metadata]). *)
Module DocMeta.
Record t := mk {
  document_id : string;
  filename : string;
  status : string;
  chunks_count : Z;
  processed_at : option string
}.
End DocMeta.

(** A search result: the copied chunk record with its three scores. *)
Module Hit.
Record t := mk {
  meta : ChunkMeta.t;
  score : R;
  vector_score : R;
  bm25_score : R
}.
End Hit.

(** numpy arrays as the store sees them: [np.array([])] is the one-dimensional
    empty array, everything else is a two-dimensional array with its column
    count and its rows. *)
Inductive ndarray :=
| Empty1D
| Mat (ncols : nat) (rows : list (list R)).

(** [len(a)]: the size of the first axis. *)
Definition np_len (a : ndarray) : nat :=
  match a with
  | Empty1D => 0
  | Mat _ rows => length rows
  end.

Definition np_rows (a : ndarray) : list (list R) :=
  match a with
  | Empty1D => []
  | Mat _ rows => rows
  end.

(** Exceptions the modelled code can raise or see. *)
Inductive exn :=
| ProviderError (msg : string)
| ValueError
| IndexError
| AxisError.

Inductive outcome (A : Type) :=
| Ok (a : A)
| Raise (e : exn).
Arguments Ok {A} a.
Arguments Raise {A} e.

(** The embedding provider: [genai.embed_content] with a list of texts
    (document mode) and with one string (query mode). *)
Record Provider := {
  embed_documents : list string -> outcome (list (list R));
  embed_query : string -> outcome (list R)
}.

(** What the Python runtime and [rank_bm25] contribute.
    [bm25_get_scores corpus q] stands for [BM25Okapi(corpus).get_scores(q)];
    [set_iter l] is the order in which a [set] whose elements are [l]
    (listed ascending) is iterated. *)
Record Runtime := {
  bm25_get_scores : list (list string) -> list string -> list R;
  set_iter : list nat -> list nat
}.

(* ------------------------------------------------------------------ *)
(** ** Insertion-ordered dictionaries with string keys *)

Definition dict (V : Type) := list (string * V).

Fixpoint dict_get {V} (k : string) (d : dict V) : option V :=
  match d with
  | [] => None
  | (k', v) :: d' => if String.eqb k k' then Some v else dict_get k d'
  end.

Definition dict_mem {V} (k : string) (d : dict V) : bool :=
  match dict_get k d with Some _ => true | None => false end.

Fixpoint dict_del {V} (k : string) (d : dict V) : dict V :=
  match d with
  | [] => []
  | (k', v) :: d' => if String.eqb k k' then dict_del k d' else (k', v) :: dict_del k d'
  end.

(** [d[k] = v]: an existing key keeps its position, a new key goes last. *)
Fixpoint dict_set {V} (k : string) (v : V) (d : dict V) : dict V :=
  match d with
  | [] => [(k, v)]
  | (k', v') :: d' =>
      if String.eqb k k' then (k, v) :: d' else (k', v') :: dict_set k v d'
  end.

Definition dict_values {V} (d : dict V) : list V := map snd d.

(* ------------------------------------------------------------------ *)
(** ** Store, disk and world *)

(** The attributes of a [VectorStore] instance.  [bm25] holds the corpus the
    current [BM25Okapi] index was built over ([None]: no index). *)
Record Store := {
  vectors : option ndarray;
  chunks_metadata : list ChunkMeta.t;
  document_metadata : dict DocMeta.t;
  bm25 : option (list (list string));
  tokenized_corpus : list (list string)
}.

(** A file under the storage directory. *)
Inductive File (A : Type) :=
| Absent
| Corrupt
| Stored (a : A).
Arguments Absent {A}.
Arguments Corrupt {A}.
Arguments Stored {A} a.

Record Disk := {
  vectors_npy : File ndarray;
  chunks_metadata_pkl : File (list ChunkMeta.t);
  document_metadata_json : File (dict DocMeta.t)
}.

(** External effects, in the order they happen. *)
Inductive event :=
| EvEmbedDocuments (texts : list string)
| EvEmbedQuery (query : string)
| EvWrite (file : string).

Record World := {
  mem : Store;
  disk : Disk;
  log : list event
}.

Definition empty_store : Store :=
  {| vectors := None; chunks_metadata := []; document_metadata := [];
     bm25 := None; tokenized_corpus := [] |}.

Definition empty_disk : Disk :=
  {| vectors_npy := Absent; chunks_metadata_pkl := Absent;
     document_metadata_json := Absent |}.

(* ------------------------------------------------------------------ *)
(** ** A state-and-exception monad over worlds *)

Definition M (A : Type) := World -> outcome A * World.

Definition ret {A} (a : A) : M A := fun w => (Ok a, w).

Definition raise {A} (e : exn) : M A := fun w => (Raise e, w).

Definition bind {A B} (m : M A) (k : A -> M B) : M B :=
  fun w =>
    match m w with
    | (Ok a, w') => k a w'
    | (Raise e, w') => (Raise e, w')
    end.

(** [try: m except Exception as e: h e] *)
Definition try_except {A} (m : M A) (h : exn -> M A) : M A :=
  fun w =>
    match m w with
    | (Ok a, w') => (Ok a, w')
    | (Raise e, w') => h e w'
    end.

Declare Scope store_scope.
Delimit Scope store_scope with store.
Notation "x <- m ;; k" := (bind m (fun x => k))
  (at level 61, m at next level, right associativity) : store_scope.
Notation "m ;;; k" := (bind m (fun _ => k))
  (at level 61, right associativity) : store_scope.
Local Open Scope store_scope.

Definition lift {A} (o : outcome A) : M A := fun w => (o, w).

Definition get_store : M Store := fun w => (Ok (mem w), w).

Definition modify_store (f : Store -> Store) : M unit :=
  fun w => (Ok tt, {| mem := f (mem w); disk := disk w; log := log w |}).

Definition modify_disk (f : Disk -> Disk) : M unit :=
  fun w => (Ok tt, {| mem := mem w; disk := f (disk w); log := log w |}).

Definition emit (e : event) : M unit :=
  fun w => (Ok tt, {| mem := mem w; disk := disk w; log := log w ++ [e] |}).

(** Attribute assignments [self.x = v]. *)
Definition set_vectors (v : option ndarray) (s : Store) : Store :=
  {| vectors := v; chunks_metadata := chunks_metadata s;
     document_metadata := document_metadata s; bm25 := bm25 s;
     tokenized_corpus := tokenized_corpus s |}.

Definition set_chunks_metadata (c : list ChunkMeta.t) (s : Store) : Store :=
  {| vectors := vectors s; chunks_metadata := c;
     document_metadata := document_metadata s; bm25 := bm25 s;
     tokenized_corpus := tokenized_corpus s |}.

Definition set_document_metadata (d : dict DocMeta.t) (s : Store) : Store :=
  {| vectors := vectors s; chunks_metadata := chunks_metadata s;
     document_metadata := d; bm25 := bm25 s;
     tokenized_corpus := tokenized_corpus s |}.

Definition set_bm25 (b : option (list (list string))) (s : Store) : Store :=
  {| vectors := vectors s; chunks_metadata := chunks_metadata s;
     document_metadata := document_metadata s; bm25 := b;
     tokenized_corpus := tokenized_corpus s |}.

Definition set_tokenized_corpus (c : list (list string)) (s : Store) : Store :=
  {| vectors := vectors s; chunks_metadata := chunks_metadata s;
     document_metadata := document_metadata s; bm25 := bm25 s;
     tokenized_corpus := c |}.

(* ------------------------------------------------------------------ *)
(** ** Strings: [_tokenize] and chunk ids *)

(** [c.lower()] on an ASCII character. *)
Definition lower_ascii (c : ascii) : ascii :=
  let n := nat_of_ascii c in
  if (65 <=? n) && (n <=? 90) then ascii_of_nat (n + 32) else c.

Fixpoint lower (s : string) : string :=
  match s with
  | EmptyString => EmptyString
  | String c s' => String (lower_ascii c) (lower s')
  end.

(** The ASCII characters [str.split()] treats as separators. *)
Definition is_space (c : ascii) : bool :=
  let n := nat_of_ascii c in
  ((9 <=? n) && (n <=? 13)) || ((28 <=? n) && (n <=? 32)).

(** [s.split()], with [cur] the characters of the current word, reversed. *)
Fixpoint split_ws (cur : list ascii) (s : string) : list string :=
  let flush := match cur with
               | [] => []
               | _ => [string_of_list_ascii (rev cur)]
               end in
  match s with
  | EmptyString => flush
  | String c s' =>
      if is_space c then flush ++ split_ws [] s' else split_ws (c :: cur) s'
  end.

Definition _tokenize (text : string) : list string := split_ws [] (lower text).

(** [str(i)] for a non-negative integer. *)
Definition str_of_nat (n : nat) : string := NilEmpty.string_of_uint (Nat.to_uint n).

(** [f"{document_id}_chunk_{i}"] *)
Definition make_chunk_id (document_id : string) (i : nat) : string :=
  (document_id ++ "_chunk_" ++ str_of_nat i)%string.

(* ------------------------------------------------------------------ *)
(** ** Python and numpy helpers *)

(** [enumerate(l)] *)
Definition enumerate {A} (l : list A) : list (nat * A) :=
  combine (seq 0 (length l)) l.

(** [range(0, n, step)] *)
Definition py_range_step (n step : nat) : list nat :=
  map (fun k => k * step) (seq 0 ((n + step - 1) / step)).

(** [l[i:j]] for [0 <= i <= j] *)
Definition slice {A} (l : list A) (i j : nat) : list A :=
  firstn (j - i) (skipn i l).

(** [l[:k]] for any integer [k] (a negative [k] counts from the end). *)
Definition py_slice_to {A} (l : list A) (k : Z) : list A :=
  if (0 <=? k)%Z then firstn (Z.to_nat k) l
  else firstn (length l - Z.to_nat (- k)) l.

(** [[l[i] for i in idxs]]; an index out of range raises. *)
Fixpoint py_take {A} (l : list A) (idxs : list nat) : outcome (list A) :=
  match idxs with
  | [] => Ok []
  | i :: rest =>
      match nth_error l i, py_take l rest with
      | Some x, Ok xs => Ok (x :: xs)
      | None, _ => Raise IndexError
      | _, Raise e => Raise e
      end
  end.

(** [np.array(embeddings, dtype='float32')]: rows of unequal length are
    refused. *)
Definition np_array (l : list (list R)) : outcome ndarray :=
  match l with
  | [] => Ok Empty1D
  | r :: rest =>
      if forallb (fun r' => length r' =? length r) rest
      then Ok (Mat (length r) l)
      else Raise ValueError
  end.

Definition atleast_2d (a : ndarray) : nat * list (list R) :=
  match a with
  | Empty1D => (0, [[]])
  | Mat d rows => (d, rows)
  end.

(** [np.vstack((a, b))] *)
Definition np_vstack (a b : ndarray) : outcome ndarray :=
  let '(da, ra) := atleast_2d a in
  let '(db, rb) := atleast_2d b in
  if da =? db then Ok (Mat da (ra ++ rb)) else Raise ValueError.

(** [a[idxs]] with a list of row indices. *)
Definition np_take (a : ndarray) (idxs : list nat) : outcome ndarray :=
  match a with
  | Empty1D =>
      match idxs with
      | [] => Ok Empty1D
      | _ => Raise IndexError
      end
  | Mat d rows =>
      match py_take rows idxs with
      | Ok rows' => Ok (Mat d rows')
      | Raise e => Raise e
      end
  end.

(** A Python [set] of integers, by the list of its elements. *)
Definition set_union (a b : list nat) : list nat :=
  a ++ filter (fun x => negb (existsb (Nat.eqb x) a)) b.

(** Truthiness of an [Optional[str]]: [None] and [""] are false. *)
Definition truthy (o : option string) : option string :=
  match o with
  | Some EmptyString => None
  | _ => o
  end.

(* ------------------------------------------------------------------ *)
(** ** Persistence: [_save_to_disk], [_load_from_disk], [__init__] *)

Definition write_vectors (v : ndarray) (d : Disk) : Disk :=
  {| vectors_npy := Stored v; chunks_metadata_pkl := chunks_metadata_pkl d;
     document_metadata_json := document_metadata_json d |}.

Definition write_chunks (c : list ChunkMeta.t) (d : Disk) : Disk :=
  {| vectors_npy := vectors_npy d; chunks_metadata_pkl := Stored c;
     document_metadata_json := document_metadata_json d |}.

Definition write_docs (m : dict DocMeta.t) (d : Disk) : Disk :=
  {| vectors_npy := vectors_npy d; chunks_metadata_pkl := chunks_metadata_pkl d;
     document_metadata_json := Stored m |}.

Definition _save_to_disk : M unit :=
  s <- get_store ;;
  match vectors s with
  | Some v => emit (EvWrite "vectors.npy") ;;; modify_disk (write_vectors v)
  | None => ret tt
  end ;;;
  emit (EvWrite "chunks_metadata.pkl") ;;;
  modify_disk (write_chunks (chunks_metadata s)) ;;;
  emit (EvWrite "document_metadata.json") ;;;
  modify_disk (write_docs (document_metadata s)).

(** The tokenized corpus and the index rebuilt from chunk records. *)
Definition corpus_of (chunks : list ChunkMeta.t) : list (list string) :=
  map (fun chunk => _tokenize (ChunkMeta.text chunk)) chunks.

Definition rebuild_bm25 (chunks : list ChunkMeta.t) (s : Store) : Store :=
  set_bm25 (Some (corpus_of chunks)) (set_tokenized_corpus (corpus_of chunks) s).

Definition _load_from_disk : M unit :=
  fun w =>
    (match vectors_npy (disk w) with
     | Absent => ret tt
     | Stored v => modify_store (set_vectors (Some v))
     | Corrupt => modify_store (set_vectors None)
     end ;;;
     match chunks_metadata_pkl (disk w) with
     | Absent => ret tt
     | Stored c =>
         modify_store (set_chunks_metadata c) ;;;
         match c with
         | [] => ret tt
         | _ => modify_store (rebuild_bm25 c)
         end
     | Corrupt => modify_store (set_chunks_metadata [])
     end ;;;
     match document_metadata_json (disk w) with
     | Absent => ret tt
     | Stored m => modify_store (set_document_metadata m)
     | Corrupt => modify_store (set_document_metadata [])
     end) w.

(** [VectorStore(storage_dir)]: a new instance over the same directory. *)
Definition init : M unit :=
  modify_store (fun _ => empty_store) ;;; _load_from_disk.

(* ------------------------------------------------------------------ *)
(** ** [add_chunks] *)

Definition batch_size : nat := 20.

Definition call_embed_documents (p : Provider) (batch_texts : list string)
  : M (list (list R)) :=
  emit (EvEmbedDocuments batch_texts) ;;; lift (embed_documents p batch_texts).

(** The loop [for i in range(0, len(texts), batch_size)]. *)
Fixpoint embed_batches (p : Provider) (texts : list string)
    (starts : list nat) (embeddings : list (list R)) : M (list (list R)) :=
  match starts with
  | [] => ret embeddings
  | i :: rest =>
      batch_embeddings <-
        try_except
          (call_embed_documents p (slice texts i (i + batch_size)))
          (fun e => raise e) ;;
      embed_batches p texts rest (embeddings ++ batch_embeddings)
  end.

Definition new_chunk_meta (document_id : string) (ic : nat * Chunk.t)
  : ChunkMeta.t :=
  let '(i, chunk) := ic in
  {| ChunkMeta.document_id := document_id;
     ChunkMeta.chunk_id := make_chunk_id document_id i;
     ChunkMeta.text := Chunk.text chunk;
     ChunkMeta.chunk_index := Chunk.chunk_index chunk;
     ChunkMeta.filename := Chunk.filename chunk;
     ChunkMeta.char_count := Chunk.char_count chunk;
     ChunkMeta.approx_tokens := Chunk.approx_tokens chunk |}.

Definition add_chunks (p : Provider) (document_id : string)
    (chunks : list Chunk.t) : M unit :=
  match chunks with
  | [] => ret tt
  | _ =>
      let texts := map Chunk.text chunks in
      try_except
        (embeddings <-
           embed_batches p texts (py_range_step (length texts) batch_size) [] ;;
         embeddings_np <- lift (np_array embeddings) ;;
         s <- get_store ;;
         new_vectors <-
           match vectors s with
           | None => ret embeddings_np
           | Some v => lift (np_vstack v embeddings_np)
           end ;;
         modify_store (set_vectors (Some new_vectors)) ;;;
         modify_store (fun s =>
           set_tokenized_corpus (tokenized_corpus s ++ map _tokenize texts) s) ;;;
         modify_store (fun s =>
           match tokenized_corpus s with
           | [] => s
           | c => set_bm25 (Some c) s
           end) ;;;
         modify_store (fun s =>
           set_chunks_metadata
             (chunks_metadata s
                ++ map (new_chunk_meta document_id) (enumerate chunks)) s) ;;;
         _save_to_disk)
        (fun e => raise e)
  end.

(* ------------------------------------------------------------------ *)
(** ** Document status and deletion *)

Definition update_document_status (document_id status : string)
    (chunks_count : Z) (processed_at filename : option string) : M unit :=
  s <- get_store ;;
  match dict_get document_id (document_metadata s) with
  | None =>
      let filename :=
        match truthy filename with
        | Some f => f
        | None =>
            match find (fun chunk =>
                          String.eqb (ChunkMeta.document_id chunk) document_id)
                       (chunks_metadata s) with
            | Some chunk => ChunkMeta.filename chunk
            | None => "unknown"%string
            end
        end in
      modify_store (fun s =>
        set_document_metadata
          (dict_set document_id
             {| DocMeta.document_id := document_id;
                DocMeta.filename := filename;
                DocMeta.status := status;
                DocMeta.chunks_count := chunks_count;
                DocMeta.processed_at := processed_at |}
             (document_metadata s)) s)
  | Some old =>
      modify_store (fun s =>
        set_document_metadata
          (dict_set document_id
             {| DocMeta.document_id := DocMeta.document_id old;
                DocMeta.filename :=
                  match truthy filename with
                  | Some f => f
                  | None => DocMeta.filename old
                  end;
                DocMeta.status := status;
                DocMeta.chunks_count := chunks_count;
                DocMeta.processed_at := processed_at |}
             (document_metadata s)) s)
  end ;;;
  _save_to_disk.

Definition get_document_status (document_id : string) (s : Store)
  : option DocMeta.t :=
  dict_get document_id (document_metadata s).

Definition list_documents (s : Store) : list DocMeta.t :=
  dict_values (document_metadata s).

Definition has_documents (s : Store) : bool :=
  0 <? length (chunks_metadata s).

(** [[i for i, c in enumerate(chunks) if c['document_id'] != document_id]] *)
Definition remaining_indices (document_id : string)
    (chunks : list ChunkMeta.t) : list nat :=
  map fst
    (filter (fun ic => negb (String.eqb (ChunkMeta.document_id (snd ic)) document_id))
            (enumerate chunks)).

Definition delete_document (document_id : string) : M bool :=
  s <- get_store ;;
  if negb (dict_mem document_id (document_metadata s)) then ret false
  else
    modify_store (fun s =>
      set_document_metadata (dict_del document_id (document_metadata s)) s) ;;;
    let remaining := remaining_indices document_id (chunks_metadata s) in
    if length remaining =? length (chunks_metadata s) then ret false
    else
      kept <- lift (py_take (chunks_metadata s) remaining) ;;
      modify_store (set_chunks_metadata kept) ;;;
      match vectors s with
      | Some v =>
          v' <- lift (np_take v remaining) ;;
          modify_store (set_vectors (Some v'))
      | None => ret tt
      end ;;;
      modify_store (set_tokenized_corpus []) ;;;
      match kept with
      | [] => modify_store (fun s => set_vectors None (set_bm25 None s))
      | _ => modify_store (rebuild_bm25 kept)
      end ;;;
      _save_to_disk ;;;
      ret true.

(* ------------------------------------------------------------------ *)
(** ** [search] *)

Local Open Scope R_scope.

(** [np.dot] of two vectors. *)
Fixpoint dot (a b : list R) : R :=
  match a, b with
  | x :: a', y :: b' => x * y + dot a' b'
  | _, _ => 0
  end.

(** [np.linalg.norm] of a vector. *)
Definition norm (a : list R) : R := sqrt (dot a a).

(** [max(scores)] of a non-empty sequence, given as head and tail. *)
Definition py_max (x : R) (xs : list R) : R := fold_left Rmax xs x.

(** The numeric part of the dense path: the cosine of every row with the
    query embedding.  [np.linalg.norm(vectors, axis=1)] raises on the
    one-dimensional empty array; a dimension mismatch gives no scores. *)
Definition cosine_scores (v : ndarray) (embedding : list R) : outcome (list R) :=
  let norm_query := norm embedding in
  let query_embedding :=
    if Rlt_dec 0 norm_query
    then map (fun x => x / norm_query) embedding
    else embedding in
  match v with
  | Empty1D => Raise AxisError
  | Mat ncols rows =>
      let doc_norm := fun row =>
        if Req_dec_T (norm row) 0 then 1 else norm row in
      if (ncols =? length query_embedding)%nat
      then Ok (map (fun row => dot row query_embedding / doc_norm row) rows)
      else Ok []
  end.

(** The dense path up to [vector_results]; key [i] of the dict is position
    [i] of the list.  Any exception leaves the dict empty. *)
Definition vector_search (p : Provider) (query : string) (v : ndarray)
  : M (list R) :=
  try_except
    (embedding <- (emit (EvEmbedQuery query) ;;; lift (embed_query p query)) ;;
     lift (cosine_scores v embedding))
    (fun _ => ret []).

(** The sparse path up to [bm25_results]. *)
Definition bm25_search (rt : Runtime) (s : Store) (query : string) : list R :=
  match bm25 s with
  | None => []
  | Some corpus =>
      let bm25_scores := bm25_get_scores rt corpus (_tokenize query) in
      let max_bm25 :=
        match bm25_scores with
        | [] => 1
        | x :: xs => py_max x xs
        end in
      let max_bm25 := if Req_dec_T max_bm25 0 then 1 else max_bm25 in
      map (fun score => score / max_bm25) bm25_scores
  end.

(** [dict.keys()] of a dict filled by [enumerate]. *)
Definition keys (results : list R) : list nat := seq 0 (length results).

(** The body of the fusion loop for one candidate index. *)
Definition fuse_one (chunks : list ChunkMeta.t) (document_id : option string)
    (alpha : R) (vector_results bm25_results : list R) (idx : nat)
  : list Hit.t :=
  match nth_error chunks idx with
  | None => []
  | Some chunk_meta =>
      if match truthy document_id with
         | Some d => negb (String.eqb (ChunkMeta.document_id chunk_meta) d)
         | None => false
         end
      then []
      else
        let v_score := nth idx vector_results 0 in
        let b_score := nth idx bm25_results 0 in
        [ {| Hit.meta := chunk_meta;
             Hit.score := alpha * v_score + (1 - alpha) * b_score;
             Hit.vector_score := v_score;
             Hit.bm25_score := b_score |} ]
  end.

Definition fuse (rt : Runtime) (chunks : list ChunkMeta.t)
    (document_id : option string) (alpha : R)
    (vector_results bm25_results : list R) : list Hit.t :=
  let all_candidates :=
    set_iter rt (set_union (keys vector_results) (keys bm25_results)) in
  flat_map (fuse_one chunks document_id alpha vector_results bm25_results)
           all_candidates.

(** [l.sort(key=key, reverse=True)]: the stable sort by decreasing key. *)
Fixpoint insert_desc {A} (key : A -> R) (x : A) (l : list A) : list A :=
  match l with
  | [] => [x]
  | y :: l' =>
      if Rlt_dec (key x) (key y) then y :: insert_desc key x l'
      else x :: y :: l'
  end.

Definition sort_desc {A} (key : A -> R) (l : list A) : list A :=
  fold_right (insert_desc key) [] l.

Definition search (rt : Runtime) (p : Provider) (query : string) (top_k : Z)
    (document_id : option string) (alpha : R) : M (list Hit.t) :=
  s <- get_store ;;
  match vectors s, chunks_metadata s with
  | None, _ => ret []
  | _, [] => ret []
  | Some v, _ =>
      vector_results <- vector_search p query v ;;
      let bm25_results := bm25_search rt s query in
      let final_results :=
        fuse rt (chunks_metadata s) document_id alpha vector_results bm25_results in
      ret (py_slice_to (sort_desc Hit.score final_results) top_k)
  end.

Local Close Scope R_scope.

(* ------------------------------------------------------------------ *)
(** ** Candidates with their positions

    [search] forgets the position of a chunk once its hit is built.  To
    speak about the order of the answer, [indexed_candidates] pairs every
    hit of the fusion loop with the chunk position it came from, positions
    ascending. *)

Definition indexed_candidates (chunks : list ChunkMeta.t)
    (document_id : option string) (alpha : R)
    (vector_results bm25_results : list R) : list (nat * Hit.t) :=
  flat_map
    (fun idx =>
       map (pair idx)
           (fuse_one chunks document_id alpha vector_results bm25_results idx))
    (seq 0 (Nat.max (length vector_results) (length bm25_results))).

(** The candidates of one [search] call ([[]] where it returns early). *)
Definition search_candidates (rt : Runtime) (p : Provider) (query : string)
    (document_id : option string) (alpha : R) (w : World) : list (nat * Hit.t) :=
  match vectors (mem w), chunks_metadata (mem w) with
  | None, _ => []
  | _, [] => []
  | Some v, chunks =>
      let vector_results :=
        match fst (vector_search p query v w) with
        | Ok r => r
        | Raise _ => []
        end in
      indexed_candidates chunks document_id alpha vector_results
                         (bm25_search rt (mem w) query)
  end.

(** Higher fused score first; among equal scores, lower position first. *)
Definition ranked_before (a b : nat * Hit.t) : Prop :=
  (Hit.score (snd b) < Hit.score (snd a))%R
  \/ (Hit.score (snd a) = Hit.score (snd b) /\ fst a < fst b).

(** The filter of [search] as a predicate on hits. *)
Definition of_document (d : string) (h : Hit.t) : bool :=
  String.eqb (ChunkMeta.document_id (Hit.meta h)) d.

(* ================================================================== *)
(** * The index as one sequence of entries

    The specification describes the chunk records, the rows of the dense
    matrix and the sparse corpus as three views of one ordered sequence of
    chunks.  [spec_entries] below is that sequence, written from the
    specification: adding chunks appends one entry per chunk, holding the
    chunk record and the vector the provider answered for its text;
    deleting a document removes that document's entries and keeps the order
    of the others. *)

#[warnings="-notation-for-abbreviation"]
Notation entry := (ChunkMeta.t * list R)%type (only parsing).

(** The provider's answers for the batches of [texts], in order. *)
Definition provider_answers (p : Provider) (texts : list string) : list (list R) :=
  flat_map
    (fun i =>
       match embed_documents p (slice texts i (i + batch_size)) with
       | Ok r => r
       | Raise _ => []
       end)
    (py_range_step (length texts) batch_size).

(** The provider's contract: one vector per text of the request. *)
Definition one_vector_per_text (p : Provider) : Prop :=
  forall texts r, embed_documents p texts = Ok r -> length r = length texts.

Definition spec_add (p : Provider) (document_id : string)
    (chunks : list Chunk.t) (es : list entry) : list entry :=
  es ++ combine (map (new_chunk_meta document_id) (enumerate chunks))
                (provider_answers p (map Chunk.text chunks)).

Definition other_document (document_id : string) (e : entry) : bool :=
  negb (String.eqb (ChunkMeta.document_id (fst e)) document_id).

Definition spec_delete (document_id : string) (es : list entry) : list entry :=
  filter (other_document document_id) es.

(** Worlds reachable from an empty store by successful calls of
    [add_chunks] (with a provider that keeps its contract),
    [delete_document] and [update_document_status], together with the
    sequence of entries the specification expects there. *)
Inductive reachable : World -> list entry -> Prop :=
| reach_empty : forall d l,
    reachable {| mem := empty_store; disk := d; log := l |} []
| reach_add : forall w es p document_id chunks w',
    reachable w es ->
    one_vector_per_text p ->
    add_chunks p document_id chunks w = (Ok tt, w') ->
    reachable w' (spec_add p document_id chunks es)
| reach_delete : forall w es document_id deleted w',
    reachable w es ->
    delete_document document_id w = (Ok deleted, w') ->
    reachable w' (if deleted then spec_delete document_id es else es)
| reach_status : forall w es document_id status chunks_count processed_at filename w',
    reachable w es ->
    update_document_status document_id status chunks_count processed_at filename w
      = (Ok tt, w') ->
    reachable w' es.

(** Row count of the dense matrix, [0] when it is uninitialized. *)
Definition row_count (s : Store) : nat :=
  match vectors s with
  | None => 0
  | Some v => np_len v
  end.

Definition dense_rows (s : Store) : list (list R) :=
  match vectors s with
  | None => []
  | Some v => np_rows v
  end.

(** The store holds exactly the entries [es]: the three structures are the
    three projections of [es], the index covers the corpus, and the matrix
    is uninitialized exactly when there is no entry. *)
Definition aligned (es : list entry) (s : Store) : Prop :=
  chunks_metadata s = map fst es
  /\ tokenized_corpus s = corpus_of (map fst es)
  /\ bm25 s = match es with
              | [] => None
              | _ => Some (corpus_of (map fst es))
              end
  /\ exists ncols,
      vectors s = match es with
                  | [] => None
                  | _ => Some (Mat ncols (map snd es))
                  end.

(** The store a deletion that removes chunks is expected to leave. *)
Definition deleted_store (document_id : string) (es : list entry) (s : Store)
  : Store :=
  let kept := spec_delete document_id es in
  {| vectors :=
       match kept, vectors s with
       | _ :: _, Some (Mat ncols _) => Some (Mat ncols (map snd kept))
       | _, _ => None
       end;
     chunks_metadata := map fst kept;
     document_metadata := dict_del document_id (document_metadata s);
     bm25 := match kept with
             | [] => None
             | _ => Some (corpus_of (map fst kept))
             end;
     tokenized_corpus := corpus_of (map fst kept) |}.

(** What the engine itself maintains, without reference to a history: the
    corpus and the index are built from the chunk records, and chunks exist
    only with an initialized matrix. *)
Definition store_inv (s : Store) : Prop :=
  tokenized_corpus s = corpus_of (chunks_metadata s)
  /\ bm25 s = match chunks_metadata s with
              | [] => None
              | _ => Some (corpus_of (chunks_metadata s))
              end
  /\ (vectors s = None -> chunks_metadata s = []).

(** The store a fresh engine builds from a disk. *)
Definition loaded_store (d : Disk) : Store :=
  let s1 :=
    match vectors_npy d with
    | Stored v => set_vectors (Some v) empty_store
    | _ => empty_store
    end in
  let s2 :=
    match chunks_metadata_pkl d with
    | Stored [] => s1
    | Stored c => rebuild_bm25 c (set_chunks_metadata c s1)
    | _ => s1
    end in
  match document_metadata_json d with
  | Stored m => set_document_metadata m s2
  | _ => s2
  end.

(** Save, then construct a fresh engine over the same directory. *)
Definition save_and_reload (w : World) : World :=
  snd (init (snd (_save_to_disk w))).

(* ================================================================== *)
(** * Concrete worlds used by the examples below *)

Module Demo.

(** A term-overlap scorer standing in for BM25: the number of query
    tokens that occur in the document. *)
Definition overlap (doc query : list string) : R :=
  INR (length (filter (fun t => existsb (String.eqb t) doc) query)).

Definition rt : Runtime :=
  {| bm25_get_scores := fun corpus query => map (fun doc => overlap doc query) corpus;
     set_iter := fun l => l |}.

(** A provider answering every text with the same unit vector, and every
    query with the vector [q]. *)
Definition provider (q : list R) : Provider :=
  {| embed_documents := fun texts => Ok (map (fun _ => [1%R]) texts);
     embed_query := fun _ => Ok q |}.

Definition failing_provider : Provider :=
  {| embed_documents := fun _ => Raise (ProviderError "unavailable");
     embed_query := fun _ => Raise (ProviderError "unavailable") |}.

Definition chunk (text : string) (i : Z) : Chunk.t :=
  {| Chunk.text := text; Chunk.chunk_index := i; Chunk.filename := "a.txt";
     Chunk.char_count := Z.of_nat (String.length text);
     Chunk.approx_tokens := 3 |}.

Definition fresh : World :=
  {| mem := empty_store; disk := empty_disk; log := [] |}.

(** The world after indexing one chunk of document ["doc1"]. *)
Definition one_chunk : World :=
  snd (add_chunks (provider [1%R]) "doc1" [chunk "cats are mammals" 0] fresh).

(** ... and after the upload of ["doc2"] failed: a status record, no chunk. *)
Definition failed_upload : World :=
  snd (update_document_status "doc2" "failed" 0 None (Some "b.txt"%string)
         one_chunk).

(** ["doc1"] indexed, marked completed, then deleted again. *)
Definition completed : World :=
  snd (update_document_status "doc1" "completed" 1 (Some "2024-01-01T00:00:00"%string)
         None one_chunk).

Definition emptied : World := snd (delete_document "doc1" completed).

(** The record of the one chunk, and the hit a query embedded as [[-1]]
    (opposite to the chunk's vector) without common terms gets for it. *)
Definition meta : ChunkMeta.t :=
  new_chunk_meta "doc1" (0, chunk "cats are mammals" 0).

Definition hit : Hit.t :=
  {| Hit.meta := meta;
     Hit.score := (7 / 10 * -1 + (1 - 7 / 10) * 0)%R;
     Hit.vector_score := (-1)%R;
     Hit.bm25_score := 0%R |}.

Definition queried : World :=
  {| mem := mem one_chunk; disk := disk one_chunk;
     log := log one_chunk ++ [EvEmbedQuery "dogs"] |}.

(** The scenario of the specification: three chunks of one document, two
    about mammals and one about minerals, embedded along two orthogonal
    axes; every query is embedded along the mammal axis. *)
Definition topic_vector (text : string) : list R :=
  if String.eqb text "rocks are minerals" then [0%R; 1%R] else [1%R; 0%R].

Definition topic_provider : Provider :=
  {| embed_documents := fun texts => Ok (map topic_vector texts);
     embed_query := fun _ => Ok [1%R; 0%R] |}.

Definition three_chunks : World :=
  snd (add_chunks topic_provider "doc1"
         [chunk "cats are mammals" 0; chunk "dogs are mammals" 1;
          chunk "rocks are minerals" 2] fresh).

Definition mammal_hit (i : nat) (text : string) : Hit.t :=
  {| Hit.meta := new_chunk_meta "doc1" (i, chunk text (Z.of_nat i));
     Hit.score := (7 / 10 * 1 + (1 - 7 / 10) * 0)%R;
     Hit.vector_score := 1%R;
     Hit.bm25_score := 0%R |}.

(** A fresh engine over the disk of [w]. *)
Definition restart (w : World) : World := snd (init w).

End Demo.

From Stdlib Require Import DecimalNat.

(* ================================================================== *)
(** * Further definitions: status records *)

(** The record [update_document_status] files under [document_id]: a new
    one when the id is unknown, the old one with the given fields replaced
    otherwise. *)
Definition status_record (document_id status : string) (chunks_count : Z)
    (processed_at filename : option string) (s : Store) : DocMeta.t :=
  match dict_get document_id (document_metadata s) with
  | None =>
      {| DocMeta.document_id := document_id;
         DocMeta.filename :=
           match truthy filename with
           | Some f => f
           | None =>
               match find (fun chunk =>
                             String.eqb (ChunkMeta.document_id chunk) document_id)
                          (chunks_metadata s) with
               | Some chunk => ChunkMeta.filename chunk
               | None => "unknown"%string
               end
           end;
         DocMeta.status := status;
         DocMeta.chunks_count := chunks_count;
         DocMeta.processed_at := processed_at |}
  | Some old =>
      {| DocMeta.document_id := DocMeta.document_id old;
         DocMeta.filename :=
           match truthy filename with
           | Some f => f
           | None => DocMeta.filename old
           end;
         DocMeta.status := status;
         DocMeta.chunks_count := chunks_count;
         DocMeta.processed_at := processed_at |}
  end.

(** The chunk records of one document, in store order. *)
Definition chunks_of_document (document_id : string) (s : Store)
  : list ChunkMeta.t :=
  filter (fun c => String.eqb (ChunkMeta.document_id c) document_id)
         (chunks_metadata s).

(** Every record is filed under its own id, and no id is filed twice. *)
Definition docs_inv (m : dict DocMeta.t) : Prop :=
  NoDup (map fst m)
  /\ Forall (fun kv => DocMeta.document_id (snd kv) = fst kv) m.

(* ================================================================== *)
(** * Further definitions: [search] *)

(** The query cannot be scored on the dense path: the provider raises, or
    the query embedding has another width than the stored matrix. *)
Definition no_dense_signal (p : Provider) (query : string) (s : Store) : Prop :=
  (exists e, embed_query p query = Raise e)
  \/ (exists ncols rows embedding,
        vectors s = Some (Mat ncols rows)
        /\ embed_query p query = Ok embedding
        /\ length embedding <> ncols).

(* ================================================================== *)
(** * [llm_service.py]: confidence *)

(** [x < y] on floats, as a boolean. *)
Definition Rltb (x y : R) : bool := if Rlt_dec x y then true else false.

(** [sum(xs)]: starts at [0] and adds from the left. *)
Definition py_sum (xs : list R) : R := fold_left Rplus xs 0%R.

(** [LLMService._calculate_confidence] on the hits of a search answer. *)
Definition _calculate_confidence (chunks : list Hit.t) : R :=
  match chunks with
  | [] => 0%R
  | _ =>
      let avg_similarity :=
        (py_sum (map Hit.score chunks) / INR (length chunks))%R in
      let high_quality :=
        length (filter (fun chunk => Rltb (7 / 10) (Hit.score chunk)) chunks) in
      let quality_ratio := (INR high_quality / INR (length chunks))%R in
      let confidence := (avg_similarity * (7 / 10) + quality_ratio * (3 / 10))%R in
      Rmin 1 confidence
  end.

(* ================================================================== *)
(** * [app.py]: the rate limiter *)

Definition RATE_LIMIT : nat := 10.
Definition RATE_LIMIT_WINDOW : R := 60%R.

(** [rate_limit_store[client_ip]] on a [defaultdict(list)]. *)
Definition timestamps_of (client_ip : string) (rate_limit_store : dict (list R))
  : list R :=
  match dict_get client_ip rate_limit_store with
  | Some l => l
  | None => []
  end.

(** The test of the list comprehension: [now - timestamp < RATE_LIMIT_WINDOW]. *)
Definition in_window (now timestamp : R) : bool :=
  Rltb (now - timestamp) RATE_LIMIT_WINDOW.

(** [check_rate_limit(client_ip)], with [time.time()] given as [now]; the
    result is the decision and the store it leaves. *)
Definition check_rate_limit (now : R) (client_ip : string)
    (rate_limit_store : dict (list R)) : bool * dict (list R) :=
  let recent :=
    filter (in_window now) (timestamps_of client_ip rate_limit_store) in
  let rate_limit_store := dict_set client_ip recent rate_limit_store in
  if RATE_LIMIT <=? length recent then (false, rate_limit_store)
  else (true, dict_set client_ip (recent ++ [now]) rate_limit_store).

(** A sequence of requests [(now, client_ip)] served in order: each request
    with its decision, and the final store. *)
Fixpoint serve (calls : list (R * string)) (rate_limit_store : dict (list R))
  : list (R * string * bool) * dict (list R) :=
  match calls with
  | [] => ([], rate_limit_store)
  | (now, client_ip) :: rest =>
      let '(ok, store1) := check_rate_limit now client_ip rate_limit_store in
      let '(served, store2) := serve rest store1 in
      ((now, client_ip, ok) :: served, store2)
  end.

(** The times at which requests of [client_ip] were let through. *)
Definition accepted (client_ip : string) (served : list (R * string * bool))
  : list R :=
  map (fun x => fst (fst x))
      (filter (fun x => snd x && String.eqb (snd (fst x)) client_ip) served).

(** What the limiter keeps for one client, relative to the times [acc] at
    which it let that client through and the time [tc] of the client's
    last request: the accepted times still in the window of [tc], never
    more than [RATE_LIMIT] of them. *)
Definition limiter_inv (client_ip : string) (rate_limit_store : dict (list R))
    (acc : list R) (tc : R) : Prop :=
  timestamps_of client_ip rate_limit_store = filter (in_window tc) acc
  /\ length (timestamps_of client_ip rate_limit_store) <= RATE_LIMIT.

(* ================================================================== *)
(** * [document_processor.py]: cleaning and chunking

    Text is ASCII: [\s] is [is_space], [\w] is a letter, a digit or [_]. *)

Definition CHUNK_SIZE : nat := 512.

Definition LF : ascii := ascii_of_nat 10.

(** The separators the chunker inserts: ["\n\n"] and [" "]. *)
Definition paragraph_break : string := String LF (String LF EmptyString).
Definition sentence_gap : string := " "%string.

(** [[.!?]] *)
Definition is_sentence_end (c : ascii) : bool :=
  existsb (Ascii.eqb c) (list_ascii_of_string ".!?").

(** [\w] *)
Definition is_word_char (c : ascii) : bool :=
  let n := nat_of_ascii c in
  ((48 <=? n) && (n <=? 57)) || ((65 <=? n) && (n <=? 90))
  || ((97 <=? n) && (n <=? 122)) || (n =? 95).

(** The ASCII characters the class of the third substitution does not match:
    word characters, whitespace, and the punctuation marks
    [. , ! ? ; : - ' ( )] and the double quote. *)
Definition is_kept (c : ascii) : bool :=
  is_word_char c || is_space c
  || existsb (Ascii.eqb c) (list_ascii_of_string ".,!?;:-'()")
  || (nat_of_ascii c =? 34).

(** [re.sub(r'\s+', ' ', text)]; [in_run] says that the previous character
    was whitespace. *)
Fixpoint collapse_whitespace (in_run : bool) (s : string) : string :=
  match s with
  | EmptyString => EmptyString
  | String c s' =>
      if is_space c
      then if in_run then collapse_whitespace true s'
           else String " " (collapse_whitespace true s')
      else String c (collapse_whitespace false s')
  end.

(** Where the scan of [([.!?])\s+] stands. *)
Inductive break_state :=
| Plain        (* the previous character does not end a sentence *)
| AfterEnd     (* the previous character is one of [.!?] *)
| InGap.       (* inside the whitespace that follows one of [.!?] *)

(** [re.sub(r'([.!?])\s+', r'\1\n\n', text)] *)
Fixpoint break_sentences (st : break_state) (s : string) : string :=
  match s with
  | EmptyString => EmptyString
  | String c s' =>
      if is_space c then
        match st with
        | Plain => String c (break_sentences Plain s')
        | AfterEnd => (paragraph_break ++ break_sentences InGap s')%string
        | InGap => break_sentences InGap s'
        end
      else
        String c (break_sentences (if is_sentence_end c then AfterEnd else Plain) s')
  end.

(** The third substitution of [_clean_text]: [re.sub] deleting every
    character that is not kept. *)
Fixpoint drop_special (s : string) : string :=
  match s with
  | EmptyString => EmptyString
  | String c s' => if is_kept c then String c (drop_special s') else drop_special s'
  end.

(** [s.lstrip()], [s.rstrip()], [s.strip()] *)
Fixpoint lstrip (s : string) : string :=
  match s with
  | EmptyString => EmptyString
  | String c s' => if is_space c then lstrip s' else s
  end.

Fixpoint rstrip (s : string) : string :=
  match s with
  | EmptyString => EmptyString
  | String c s' =>
      match rstrip s' with
      | EmptyString => if is_space c then EmptyString else String c EmptyString
      | r => String c r
      end
  end.

Definition strip (s : string) : string := rstrip (lstrip s).

Definition _clean_text (text : string) : string :=
  let text := collapse_whitespace false text in
  let text := break_sentences Plain text in
  let text := drop_special text in
  strip text.

(** The piece collected so far, newest character first, as a string. *)
Definition piece (cur : list ascii) : string := string_of_list_ascii (rev cur).

(** [re.split(r'\n\s*\n', text)].  [cur] is the current piece, newest
    character first.  [pend] is set from a newline on while only whitespace
    follows: its first component holds the characters since that newline
    (newest first); its second is set once another newline was seen and
    holds the whitespace after the last newline. *)
Fixpoint split_paragraphs (cur : list ascii)
    (pend : option (list ascii * option (list ascii))) (s : string)
  : list string :=
  match s with
  | EmptyString =>
      match pend with
      | None => [piece cur]
      | Some (buf, None) => [piece (buf ++ cur)]
      | Some (_, Some tail) => [piece cur; piece tail]
      end
  | String c s' =>
      match pend with
      | None =>
          if Ascii.eqb c LF then split_paragraphs cur (Some ([c], None)) s'
          else split_paragraphs (c :: cur) None s'
      | Some (buf, tail) =>
          if is_space c then
            if Ascii.eqb c LF
            then split_paragraphs cur (Some (c :: buf, Some [])) s'
            else split_paragraphs cur (Some (c :: buf, option_map (cons c) tail)) s'
          else
            match tail with
            | Some tail => piece cur :: split_paragraphs (c :: tail) None s'
            | None => split_paragraphs (c :: buf ++ cur) None s'
            end
      end
  end.

(** [re.split(r'(?<=[.!?])\s+', text)].  [after_end]: the previous
    character is one of [.!?]; [in_gap]: inside a separator. *)
Fixpoint split_sentences (cur : list ascii) (after_end in_gap : bool) (s : string)
  : list string :=
  match s with
  | EmptyString => [piece cur]
  | String c s' =>
      if in_gap then
        if is_space c then split_sentences cur false true s'
        else split_sentences [c] (is_sentence_end c) false s'
      else if is_space c && after_end then
        piece cur :: split_sentences [] false true s'
      else split_sentences (c :: cur) (is_sentence_end c) false s'
  end.

(** Truthiness of a [str]. *)
Definition nonempty (s : string) : bool :=
  match s with
  | EmptyString => false
  | _ => true
  end.

(** [len(s) // 4] *)
Definition approx_token_count (s : string) : nat := String.length s / 4.

Definition _create_chunk_dict (text : string) (index : nat) (filename : string)
  : Chunk.t :=
  {| Chunk.text := text;
     Chunk.chunk_index := Z.of_nat index;
     Chunk.filename := filename;
     Chunk.char_count := Z.of_nat (String.length text);
     Chunk.approx_tokens := Z.of_nat (approx_token_count text) |}.

(** One round of the loop of [_split_by_sentences]; the state is
    [(chunks, current_chunk)]. *)
Definition sentence_step (st : list string * string) (sentence : string)
  : list string * string :=
  let '(chunks, current_chunk) := st in
  let sent_tokens := approx_token_count sentence in
  let current_tokens := approx_token_count current_chunk in
  if current_tokens + sent_tokens <=? CHUNK_SIZE then
    if nonempty current_chunk
    then (chunks, (current_chunk ++ sentence_gap ++ sentence)%string)
    else (chunks, sentence)
  else
    if nonempty current_chunk
    then (chunks ++ [current_chunk], sentence)
    else (chunks, sentence).

(** The grouping loop of [_split_by_sentences] on the split sentences. *)
Definition group_sentences (sentences : list string) : list string :=
  let '(chunks, current_chunk) := fold_left sentence_step sentences ([], EmptyString) in
  if nonempty current_chunk then chunks ++ [current_chunk] else chunks.

Definition _split_by_sentences (text : string) : list string :=
  group_sentences (split_sentences [] false false text).

(** The inner loop of [chunk_text] over the sentence chunks. *)
Fixpoint append_sentence_chunks (filename : string) (chunks : list Chunk.t)
    (chunk_index : nat) (sentence_chunks : list string) : list Chunk.t * nat :=
  match sentence_chunks with
  | [] => (chunks, chunk_index)
  | sent_chunk :: rest =>
      append_sentence_chunks filename
        (chunks ++ [_create_chunk_dict sent_chunk chunk_index filename])
        (S chunk_index) rest
  end.

(** One round of the loop of [chunk_text]; the state is
    [(chunks, current_chunk, chunk_index)]. *)
Definition paragraph_step (filename : string)
    (st : list Chunk.t * string * nat) (paragraph : string)
  : list Chunk.t * string * nat :=
  let '(chunks, current_chunk, chunk_index) := st in
  let para_tokens := approx_token_count paragraph in
  let current_tokens := approx_token_count current_chunk in
  if current_tokens + para_tokens <=? CHUNK_SIZE then
    if nonempty current_chunk
    then (chunks, (current_chunk ++ paragraph_break ++ paragraph)%string, chunk_index)
    else (chunks, paragraph, chunk_index)
  else
    let '(chunks, chunk_index) :=
      if nonempty current_chunk
      then (chunks ++ [_create_chunk_dict current_chunk chunk_index filename],
            S chunk_index)
      else (chunks, chunk_index) in
    if CHUNK_SIZE <? para_tokens then
      let '(chunks, chunk_index) :=
        append_sentence_chunks filename chunks chunk_index
          (_split_by_sentences paragraph) in
      (chunks, EmptyString, chunk_index)
    else (chunks, paragraph, chunk_index).

(** The grouping loop of [chunk_text] on the paragraphs. *)
Definition group_paragraphs (paragraphs : list string) (filename : string)
  : list Chunk.t :=
  let '(chunks, current_chunk, chunk_index) :=
    fold_left (paragraph_step filename) paragraphs ([], EmptyString, 0) in
  if nonempty current_chunk
  then chunks ++ [_create_chunk_dict current_chunk chunk_index filename]
  else chunks.

(** [[p.strip() for p in re.split(r'\n\s*\n', text) if p.strip()]] *)
Definition paragraphs_of (text : string) : list string :=
  map strip (filter (fun p => nonempty (strip p)) (split_paragraphs [] None text)).

Definition chunk_text (text filename : string) : list Chunk.t :=
  group_paragraphs (paragraphs_of (_clean_text text)) filename.

(** A chunk list as [chunk_text] builds it: the chunk at position [i] is
    made by [_create_chunk_dict] from a non-empty text with index [i]. *)
Definition numbered (filename : string) (chunks : list Chunk.t) : Prop :=
  forall i c,
    nth_error chunks i = Some c ->
    c = _create_chunk_dict (Chunk.text c) i filename
    /\ Chunk.text c <> EmptyString.

(** What becomes of one paragraph: it stays whole unless it is over the
    limit, in which case its sentence groups replace it. *)
Definition expand_paragraph (paragraph : string) : list string :=
  if CHUNK_SIZE <? approx_token_count paragraph
  then _split_by_sentences paragraph
  else [paragraph].

(** Two lists of strings that read the same once joined with [sep]. *)
Definition same_joined (sep : string) (a b : list string) : Prop :=
  String.concat sep a = String.concat sep b /\ (a = [] <-> b = []).

(** A sentence group is within the limit (up to the one joining space), or
    it is a sentence of its own. *)
Definition sentence_group_ok (sentences : list string) (s : string) : Prop :=
  s <> EmptyString
  /\ (approx_token_count s <= CHUNK_SIZE + 1 \/ In s sentences).

(** A chunk is within the limit (up to the joining blank line), or it is a
    sentence of a paragraph that is over the limit. *)
Definition chunk_size_ok (paragraphs : list string) (c : Chunk.t) : Prop :=
  approx_token_count (Chunk.text c) <= CHUNK_SIZE + 2
  \/ exists p,
      In p paragraphs
      /\ CHUNK_SIZE < approx_token_count p
      /\ In (Chunk.text c) (split_sentences [] false false p).

(** The last character of a string. *)
Fixpoint last_char (s : string) : option ascii :=
  match s with
  | EmptyString => None
  | String c EmptyString => Some c
  | String _ s' => last_char s'
  end.

(** A non-empty text that does not end in whitespace. *)
Definition ends_in_text (s : string) : Prop :=
  exists c, last_char s = Some c /\ is_space c = false.

(** The current chunk of a loop, when there is one. *)
Definition pending (current_chunk : string) : list string :=
  if nonempty current_chunk then [current_chunk] else [].

(** A character of the ASCII range, where [\s] and [\w] are [is_space] and
    [is_word_char]. *)
Definition is_ascii (c : ascii) : bool := nat_of_ascii c <? 128.

(** Every character of [s] passes the test [f]. *)
Fixpoint all_chars (f : ascii -> bool) (s : string) : bool :=
  match s with
  | EmptyString => true
  | String c s' => f c && all_chars f s'
  end.

(* ================================================================== *)
(** * [app.py]: background processing of an upload

    The two file readers of [DocumentProcessor] are arguments, as the
    embedding provider is; [datetime.now().isoformat()] is the argument
    [now].  The upload directory is the list of the paths it holds. *)

(** [s.endswith(suffix)] *)
Definition endswith (s suffix : string) : bool :=
  (String.length suffix <=? String.length s)
  && String.eqb (substring (String.length s - String.length suffix)
                           (String.length suffix) s) suffix.

Record Reader := {
  _extract_from_pdf : string -> outcome string;
  _extract_from_txt : string -> outcome string
}.

(** [DocumentProcessor.extract_text] *)
Definition extract_text (rd : Reader) (file_path : string) : outcome string :=
  if endswith file_path ".pdf" then _extract_from_pdf rd file_path
  else if endswith file_path ".txt" then _extract_from_txt rd file_path
  else Raise ValueError.

(** The services of the application and its upload directory. *)
Record App := {
  vector_store : World;
  uploads : list string
}.

(** [os.remove(file_path)] when the path exists. *)
Definition remove_upload (file_path : string) (files : list string) : list string :=
  filter (fun f => negb (String.eqb f file_path)) files.

(** [process_document_background]: the [try] body, the [except] handler and
    the [finally] clause. *)
Definition process_document_background (rd : Reader) (p : Provider) (now : string)
    (document_id file_path filename : string) (a : App) : outcome unit * App :=
  let '(r, w) :=
    try_except
      (text <- lift (extract_text rd file_path) ;;
       let chunks := chunk_text text filename in
       add_chunks p document_id chunks ;;;
       update_document_status document_id "completed"
         (Z.of_nat (length chunks)) (Some now) None)
      (fun _ => update_document_status document_id "failed" 0%Z None None)
      (vector_store a) in
  (r, {| vector_store := w; uploads := remove_upload file_path (uploads a) |}).

(** How a run of [process_document_background] ended, seen from the store
    [s] before and the store [s'] after. *)
Inductive processed (rd : Reader) (now document_id file_path filename : string)
    (s s' : Store) (record : DocMeta.t) : Prop :=
| Completed (text : string) :
    extract_text rd file_path = Ok text ->
    DocMeta.status record = "completed"%string ->
    DocMeta.chunks_count record = Z.of_nat (length (chunk_text text filename)) ->
    DocMeta.processed_at record = Some now ->
    chunks_metadata s'
    = chunks_metadata s
        ++ map (new_chunk_meta document_id) (enumerate (chunk_text text filename)) ->
    processed rd now document_id file_path filename s s' record
| Failed :
    DocMeta.status record = "failed"%string ->
    DocMeta.chunks_count record = 0%Z ->
    DocMeta.processed_at record = None ->
    vectors s' = vectors s ->
    chunks_metadata s' = chunks_metadata s ->
    bm25 s' = bm25 s ->
    tokenized_corpus s' = tokenized_corpus s ->
    processed rd now document_id file_path filename s s' record.

(** The calls to the embedding provider recorded in a log. *)
Definition provider_calls (l : list event) : list event :=
  filter (fun e => match e with
                   | EvWrite _ => false
                   | _ => true
                   end) l.

(* ================================================================== *)
(** * [metrics_tracker.py]

    [round] on floats and the two readings of the clock in [log_query] are
    arguments.  The metrics file holds what [_save_metrics] wrote, or is
    absent, or holds anything else ([Corrupt]). *)

(** One logged query (an [entry] of [log_query]). *)
Module QueryEntry.
Record t := mk {
  timestamp : string;
  question : string;
  latency_ms : R;
  retrieval_time_ms : R;
  llm_time_ms : R;
  chunks_retrieved : Z;
  confidence : R;
  avg_similarity : R
}.
End QueryEntry.

(** What [_save_metrics] dumps: the queries and [last_updated]. *)
Module MetricsDump.
Record t := mk {
  queries : list QueryEntry.t;
  last_updated : string
}.
End MetricsDump.

(** A [MetricsTracker] with the file it mirrors. *)
Record Metrics := {
  queries : list QueryEntry.t;
  metrics_file : File MetricsDump.t
}.

(** [_load_metrics] on a tracker whose queries are still empty. *)
Definition _load_metrics (file : File MetricsDump.t) : list QueryEntry.t :=
  match file with
  | Absent => []
  | Stored data => MetricsDump.queries data
  | Corrupt => []
  end.

(** [MetricsTracker(metrics_file)] *)
Definition metrics_init (file : File MetricsDump.t) : Metrics :=
  {| queries := _load_metrics file; metrics_file := file |}.

Definition _save_metrics (now : string) (m : Metrics) : Metrics :=
  {| queries := queries m;
     metrics_file :=
       Stored {| MetricsDump.queries := queries m;
                 MetricsDump.last_updated := now |} |}.

(** [log_query]; [now] is the clock when the entry is made, [saved_at] the
    clock when the file is written. *)
Definition log_query (round : R -> nat -> R) (now saved_at : string)
    (question : string) (latency_ms retrieval_time_ms llm_time_ms : R)
    (chunks_retrieved : Z) (confidence avg_similarity : R) (m : Metrics)
  : Metrics :=
  let entry :=
    {| QueryEntry.timestamp := now;
       QueryEntry.question := substring 0 100 question;
       QueryEntry.latency_ms := round latency_ms 2;
       QueryEntry.retrieval_time_ms := round retrieval_time_ms 2;
       QueryEntry.llm_time_ms := round llm_time_ms 2;
       QueryEntry.chunks_retrieved := chunks_retrieved;
       QueryEntry.confidence := round confidence 3;
       QueryEntry.avg_similarity := round avg_similarity 3 |} in
  let m := {| queries := queries m ++ [entry]; metrics_file := metrics_file m |} in
  if length (queries m) mod 10 =? 0 then _save_metrics saved_at m else m.

(** The trackers a process can hold: a fresh one over any file, and what
    [log_query] makes of one. *)
Inductive tracking : Metrics -> Prop :=
| TrackInit (file : File MetricsDump.t) : tracking (metrics_init file)
| TrackLog (round : R -> nat -> R) (now saved_at question : string)
    (latency_ms retrieval_time_ms llm_time_ms : R) (chunks_retrieved : Z)
    (confidence avg_similarity : R) (m : Metrics) :
    tracking m ->
    tracking (log_query round now saved_at question latency_ms retrieval_time_ms
                llm_time_ms chunks_retrieved confidence avg_similarity m).

(** [sorted(data)] on floats. *)
Fixpoint insert_asc (x : R) (l : list R) : list R :=
  match l with
  | [] => [x]
  | y :: l' => if Rlt_dec x y then x :: y :: l' else y :: insert_asc x l'
  end.

Definition sorted (data : list R) : list R :=
  fold_left (fun acc x => insert_asc x acc) data [].

(** [x <= y] on floats, as a boolean. *)
Definition Rleb (x y : R) : bool := if Rle_dec x y then true else false.

(** [l[i]] with Python's indexing: a negative index counts from the end,
    an index out of range raises. *)
Definition py_index (l : list R) (i : Z) : outcome R :=
  let i := if (i <? 0)%Z then (i + Z.of_nat (length l))%Z else i in
  if (i <? 0)%Z then Raise IndexError
  else match nth_error l (Z.to_nat i) with
       | Some x => Ok x
       | None => Raise IndexError
       end.

(** [MetricsTracker._percentile]; [scale n percentile] stands for the float
    computation [int(n * (percentile / 100))]. *)
Definition _percentile (scale : nat -> Z -> Z) (data : list R) (percentile : Z)
  : outcome R :=
  match data with
  | [] => Ok 0%R
  | _ =>
      let sorted_data := sorted data in
      let index := scale (length sorted_data) percentile in
      py_index sorted_data (Z.min index (Z.of_nat (length sorted_data) - 1))
  end.

(** How many values of [data] pass the test [f]. *)
Definition count (f : R -> bool) (data : list R) : nat := length (filter f data).

(* ================================================================== *)
(** * Sample runs *)

Module Sample.

(** A hit with all three scores at [1]. *)
Definition strong_hit : Hit.t :=
  {| Hit.meta := Demo.meta;
     Hit.score := 1%R;
     Hit.vector_score := 1%R;
     Hit.bm25_score := 1%R |}.

(** A fresh engine over the directory [Demo.emptied] leaves behind, and
    what indexing one chunk of ["doc2"] makes of it. *)
Definition restarted : World := snd (init Demo.emptied).

Definition reindexed : World :=
  snd (add_chunks (Demo.provider [1%R]) "doc2" [Demo.chunk "dogs bark" 0]
         restarted).

(** Two requests of one client, a second apart. *)
Definition calls : list (R * string) :=
  [(0%R, "10.0.0.1"%string); (1%R, "10.0.0.1"%string)].

(** A two-sentence text and the one chunk it gives. *)
Definition text : string := "Cats are mammals. Dogs are mammals.".

Definition chunk0 : Chunk.t :=
  _create_chunk_dict
    (String.concat paragraph_break ["Cats are mammals."; "Dogs are mammals."]%string)
    0 "a.txt".

(** A reader that finds [content] in every text file and cannot read PDFs. *)
Definition reader (content : string) : Reader :=
  {| _extract_from_pdf := fun _ => Raise ValueError;
     _extract_from_txt := fun _ => Ok content |}.

(** The store after [upload_document] registered ["doc1"], and the
    application holding the uploaded file. *)
Definition registered : DocMeta.t :=
  {| DocMeta.document_id := "doc1";
     DocMeta.filename := "a.txt";
     DocMeta.status := "processing";
     DocMeta.chunks_count := 0;
     DocMeta.processed_at := None |}.

Definition uploaded : App :=
  {| vector_store :=
       snd (update_document_status "doc1" "processing" 0 None
              (Some "a.txt"%string) Demo.fresh);
     uploads := ["uploads/doc1.txt"%string] |}.

(** A tracker after one query, with a [round] that changes nothing. *)
Definition no_round (x : R) (ndigits : nat) : R := x.

Definition one_query : Metrics :=
  log_query no_round "2024-01-01T00:00:00" "2024-01-01T00:00:01" "what is a cat"
    12%R 5%R 7%R 3 (9 / 10)%R (8 / 10)%R (metrics_init Absent).

(** [int(n * (percentile / 100))] where the product is not rounded: the
    quotient, truncated toward zero. *)
Definition scale (n : nat) (percentile : Z) : Z :=
  Z.quot (Z.of_nat n * percentile) 100.

(** Two documents: ["doc1"] with one chunk about minerals, then ["doc2"]
    with two chunks about mammals.  The chunks sit at positions [0], [1]
    and [2] of the store. *)
Definition rocks : Chunk.t := Demo.chunk "rocks are minerals" 0.
Definition cats : Chunk.t := Demo.chunk "cats are mammals" 0.
Definition dogs : Chunk.t := Demo.chunk "dogs are mammals" 1.

Definition one_doc : World :=
  snd (add_chunks Demo.topic_provider "doc1" [rocks] Demo.fresh).

Definition two_docs : World :=
  snd (add_chunks Demo.topic_provider "doc2" [cats; dogs] one_doc).

(** ... both marked completed, and then ["doc1"] deleted. *)
Definition one_listed : World :=
  snd (update_document_status "doc1" "completed" 1
         (Some "2024-01-01T00:00:00"%string) (Some "a.txt"%string) two_docs).

Definition two_listed : World :=
  snd (update_document_status "doc2" "completed" 2
         (Some "2024-01-01T00:00:01"%string) (Some "a.txt"%string) one_listed).

Definition doc1_deleted : World := snd (delete_document "doc1" two_listed).

(** The entries of the two documents, in store order. *)
Definition two_docs_entries : list entry :=
  spec_add Demo.topic_provider "doc2" [cats; dogs]
    (spec_add Demo.topic_provider "doc1" [rocks] []).

(** The hit of the chunk at position [i] of its document, with dense score
    [v] and sparse score [b], fused with [alpha = 0.7]. *)
Definition hit_of (document_id : string) (i : nat) (chunk : Chunk.t) (v b : R)
  : Hit.t :=
  {| Hit.meta := new_chunk_meta document_id (i, chunk);
     Hit.score := (7 / 10 * v + (1 - 7 / 10) * b)%R;
     Hit.vector_score := v;
     Hit.bm25_score := b |}.

(** A sparse scorer that gives every matching query term the weight [-1].
    [BM25Okapi] weights a term negatively when it occurs in more than half
    of the documents and the average weight is negative too. *)
Definition common_terms_rt : Runtime :=
  {| bm25_get_scores :=
       fun corpus query => map (fun doc => (- Demo.overlap doc query)%R) corpus;
     set_iter := fun l => l |}.

End Sample.

(* ================================================================== *)
(** * Strings *)

Example tokenize_example :
  _tokenize "Cats  ARE
 mammals " = ["cats"; "are"; "mammals"]%string.
Proof. reflexivity. Qed.

Example chunk_id_example : make_chunk_id "doc1" 12 = "doc1_chunk_12"%string.
Proof. reflexivity. Qed.

(* ================================================================== *)
(** * Running the monad *)

Ltac unfold_m :=
  unfold bind, ret, raise, lift, get_store, modify_store, modify_disk,
    emit, try_except in *.

Lemma try_except_reraise A (m : M A) (w : World) :
  try_except m (fun e => raise e) w = m w.
Proof.
  unfold try_except, raise. destruct (m w) as [[a | e] w']; reflexivity.
Qed.

Lemma save_mem (w : World) :
  exists w', _save_to_disk w = (Ok tt, w') /\ mem w' = mem w.
Proof.
  unfold _save_to_disk. unfold_m.
  destruct (vectors (mem w)); simpl; eexists; split; reflexivity.
Qed.

(** What [_save_to_disk] leaves on disk. *)
Definition saved_disk (s : Store) (d : Disk) : Disk :=
  write_docs (document_metadata s)
    (write_chunks (chunks_metadata s)
       match vectors s with
       | Some v => write_vectors v d
       | None => d
       end).

Lemma save_disk (w : World) :
  exists w', _save_to_disk w = (Ok tt, w')
             /\ mem w' = mem w /\ disk w' = saved_disk (mem w) (disk w).
Proof.
  unfold _save_to_disk, saved_disk. unfold_m.
  destruct (vectors (mem w)); simpl; eexists; repeat split; reflexivity.
Qed.

(** The provider loop only appends to the log. *)
Lemma embed_batches_frame p texts starts :
  forall acc w,
    mem (snd (embed_batches p texts starts acc w)) = mem w
    /\ disk (snd (embed_batches p texts starts acc w)) = disk w.
Proof.
  induction starts as [| i rest IH]; intros acc w; simpl.
  - split; reflexivity.
  - unfold bind. rewrite try_except_reraise.
    unfold call_embed_documents. unfold_m.
    destruct (embed_documents p (slice texts i (i + batch_size))) as [r | e]; simpl.
    + destruct (IH (acc ++ r)
                   {| mem := mem w; disk := disk w;
                      log := log w ++ [EvEmbedDocuments
                                         (slice texts i (i + batch_size))] |})
        as [Hm Hd].
      simpl in Hm, Hd. split; assumption.
    + split; reflexivity.
Qed.

(** A failing batch makes the loop raise the error of the first failing
    batch. *)
Lemma embed_batches_fail p texts starts :
  forall acc w,
    (exists i e, In i starts
                 /\ embed_documents p (slice texts i (i + batch_size)) = Raise e) ->
    exists j e',
      In j starts
      /\ embed_documents p (slice texts j (j + batch_size)) = Raise e'
      /\ fst (embed_batches p texts starts acc w) = Raise e'.
Proof.
  induction starts as [| i rest IH]; intros acc w (k & e & Hin & Hk).
  - destruct Hin.
  - simpl. unfold bind. rewrite try_except_reraise.
    unfold call_embed_documents. unfold_m.
    destruct (embed_documents p (slice texts i (i + batch_size))) as [r | e0] eqn:Hi;
      simpl.
    + destruct Hin as [-> | Hin]; [congruence |].
      destruct (IH (acc ++ r)
                   {| mem := mem w; disk := disk w;
                      log := log w ++ [EvEmbedDocuments
                                         (slice texts i (i + batch_size))] |})
        as (j & e' & Hj & Hje & Hres).
      { exists k, e. split; assumption. }
      exists j, e'. repeat split; auto.
    + exists i, e0. repeat split; auto.
Qed.

(* ================================================================== *)
(** * Claims about [add_chunks] failing or doing nothing *)

(** C10. [add_chunks] with an empty chunk sequence returns successfully and
    leaves the whole world as it was: the store (dense matrix, sparse
    corpus, chunk and document records), the disk, and the log of external
    effects, so neither the provider was called nor a file written. *)
Theorem add_chunks_empty_noop :
  forall (p : Provider) (document_id : string) (w : World),
    add_chunks p document_id [] w = (Ok tt, w).
Proof. intros p document_id w. reflexivity. Qed.

(** C8. If any embedding batch fails, [add_chunks] raises the error of a
    failing provider call, and the store and the disk are what they were
    before the call. *)
Theorem add_chunks_embedding_failure_atomic :
  forall (p : Provider) (document_id : string) (chunks : list Chunk.t)
         (w : World) (i : nat) (e : exn),
    In i (py_range_step (length chunks) batch_size) ->
    embed_documents p (slice (map Chunk.text chunks) i (i + batch_size)) = Raise e ->
    exists (j : nat) (e' : exn) (w' : World),
      add_chunks p document_id chunks w = (Raise e', w')
      /\ In j (py_range_step (length chunks) batch_size)
      /\ embed_documents p (slice (map Chunk.text chunks) j (j + batch_size)) = Raise e'
      /\ mem w' = mem w
      /\ disk w' = disk w.
Proof.
  intros p document_id chunks w i e Hin He.
  destruct chunks as [| c cs]; [destruct Hin |].
  unfold add_chunks. rewrite try_except_reraise.
  set (texts := map Chunk.text (c :: cs)) in *.
  assert (Hlen : length texts = length (c :: cs)) by apply length_map.
  rewrite Hlen.
  destruct (embed_batches_fail p texts (py_range_step (length (c :: cs)) batch_size)
              [] w) as (j & e' & Hj & Hje & Hres).
  { exists i, e. split; assumption. }
  destruct (embed_batches_frame p texts
              (py_range_step (length (c :: cs)) batch_size) [] w) as [Hm Hd].
  unfold bind at 1.
  destruct (embed_batches p texts (py_range_step (length (c :: cs)) batch_size) [] w)
    as [[r | e0] w0] eqn:Hrun; simpl in Hres, Hm, Hd; [discriminate |].
  inversion Hres; subst e0.
  exists j, e', w0. repeat split; assumption.
Qed.

(* ================================================================== *)
(** * The structure of a [search] answer *)

Lemma vector_search_total p query v w :
  exists vector_results w',
    vector_search p query v w = (Ok vector_results, w')
    /\ mem w' = mem w /\ disk w' = disk w.
Proof.
  unfold vector_search. unfold_m.
  destruct (embed_query p query) as [emb | e]; simpl.
  - destruct (cosine_scores v emb); eexists _, _; repeat split; reflexivity.
  - eexists _, _. repeat split; reflexivity.
Qed.

Lemma insert_desc_perm A (key : A -> R) (x : A) (l : list A) :
  Permutation (insert_desc key x l) (x :: l).
Proof.
  induction l as [| y l IH]; simpl.
  - apply Permutation_refl.
  - destruct (Rlt_dec (key x) (key y)).
    + eapply perm_trans; [apply perm_skip, IH | apply perm_swap].
    + apply Permutation_refl.
Qed.

Lemma sort_desc_perm A (key : A -> R) (l : list A) :
  Permutation (sort_desc key l) l.
Proof.
  induction l as [| x l IH]; simpl.
  - apply perm_nil.
  - eapply perm_trans; [apply insert_desc_perm | apply perm_skip, IH].
Qed.

Lemma firstn_incl A (n : nat) (l : list A) (x : A) :
  In x (firstn n l) -> In x l.
Proof.
  intros H. rewrite <- (firstn_skipn n l). apply in_or_app. left. exact H.
Qed.

Lemma py_slice_to_incl A (l : list A) (k : Z) (x : A) :
  In x (py_slice_to l k) -> In x l.
Proof.
  unfold py_slice_to. destruct (0 <=? k)%Z; apply firstn_incl.
Qed.

(** What one round of the fusion loop appends. *)
Lemma fuse_one_spec chunks document_id alpha vector_results bm25_results idx h :
  In h (fuse_one chunks document_id alpha vector_results bm25_results idx) ->
  nth_error chunks idx = Some (Hit.meta h)
  /\ (forall d, truthy document_id = Some d -> ChunkMeta.document_id (Hit.meta h) = d)
  /\ Hit.vector_score h = nth idx vector_results 0%R
  /\ Hit.bm25_score h = nth idx bm25_results 0%R
  /\ Hit.score h
     = (alpha * Hit.vector_score h + (1 - alpha) * Hit.bm25_score h)%R.
Proof.
  unfold fuse_one. intros H.
  destruct (nth_error chunks idx) as [c |]; [| destruct H].
  destruct (truthy document_id) as [d |].
  - destruct (String.eqb (ChunkMeta.document_id c) d) eqn:E; simpl in H;
      [| destruct H].
    destruct H as [<- | []]. simpl. repeat split.
    intros d' Hd'. inversion Hd'; subst d'. apply String.eqb_eq. exact E.
  - destruct H as [<- | []]. simpl. repeat split. discriminate.
Qed.

(** Every hit of a [search] answer comes from one round of the fusion loop
    over the scores of the two paths. *)
Lemma search_hit_origin rt p query top_k document_id alpha w hits w' h :
  search rt p query top_k document_id alpha w = (Ok hits, w') ->
  In h hits ->
  exists v vector_results idx,
    vectors (mem w) = Some v
    /\ fst (vector_search p query v w) = Ok vector_results
    /\ In h (fuse_one (chunks_metadata (mem w)) document_id alpha vector_results
               (bm25_search rt (mem w) query) idx).
Proof.
  unfold search. unfold bind at 1. unfold get_store at 1.
  intros Hrun Hin.
  destruct (vectors (mem w)) as [v |] eqn:Hv.
  - destruct (chunks_metadata (mem w)) as [| c cs] eqn:Hc.
    + inversion Hrun; subst. destruct Hin.
    + destruct (vector_search_total p query v w) as (vr & w1 & Hvs & _ & _).
      unfold bind in Hrun. rewrite Hvs in Hrun. unfold ret in Hrun.
      inversion Hrun; subst hits w'. clear Hrun.
      apply py_slice_to_incl in Hin.
      apply (Permutation_in _ (sort_desc_perm Hit.score _)) in Hin.
      unfold fuse in Hin. apply in_flat_map in Hin.
      destruct Hin as (idx & _ & Hin).
      exists v, vr, idx. rewrite Hvs. repeat split; auto.
  - inversion Hrun; subst. destruct Hin.
Qed.

(** [search] never raises, and changes neither the store nor the disk. *)
Lemma search_total rt p query top_k document_id alpha w :
  exists hits w',
    search rt p query top_k document_id alpha w = (Ok hits, w')
    /\ mem w' = mem w /\ disk w' = disk w.
Proof.
  unfold search. unfold bind at 1. unfold get_store at 1.
  destruct (vectors (mem w)) as [v |].
  - destruct (chunks_metadata (mem w)) as [| c cs].
    + eexists _, _. repeat split; reflexivity.
    + destruct (vector_search_total p query v w) as (vr & w1 & Hvs & Hm & Hd).
      unfold bind. rewrite Hvs. unfold ret.
      eexists _, _. repeat split; eauto.
  - eexists _, _. repeat split; reflexivity.
Qed.

(* ================================================================== *)
(** * Claims about [search] that do not depend on the numbers *)

Lemma search_no_chunks rt p query top_k document_id alpha w :
  chunks_metadata (mem w) = [] ->
  search rt p query top_k document_id alpha w = (Ok [], w).
Proof.
  intros Hc. unfold search. unfold bind at 1. unfold get_store at 1.
  rewrite Hc. destruct (vectors (mem w)); reflexivity.
Qed.

(** C5. On a store with zero chunk records [search] returns the empty list
    for every query, [top_k], filter and weight; it does not raise and it
    leaves the world untouched. *)
Theorem search_empty_store :
  forall (rt : Runtime) (p : Provider) (query : string) (top_k : Z)
         (document_id : option string) (alpha : R) (w : World),
    chunks_metadata (mem w) = [] ->
    search rt p query top_k document_id alpha w = (Ok [], w).
Proof.
  intros rt p query top_k document_id alpha w Hc.
  apply search_no_chunks. exact Hc.
Qed.

(** C3. Every hit of a [search] answer is annotated with the dense score
    and the sparse score of its chunk position ([0] for a position that a
    path did not score) and with the fused score
    [alpha * dense + (1 - alpha) * sparse]. *)
Theorem search_fused_score :
  forall (rt : Runtime) (p : Provider) (query : string) (top_k : Z)
         (document_id : option string) (alpha : R) (w w' : World)
         (hits : list Hit.t) (h : Hit.t),
    search rt p query top_k document_id alpha w = (Ok hits, w') ->
    In h hits ->
    exists (v : ndarray) (vector_results : list R) (idx : nat),
      vectors (mem w) = Some v
      /\ fst (vector_search p query v w) = Ok vector_results
      /\ nth_error (chunks_metadata (mem w)) idx = Some (Hit.meta h)
      /\ Hit.vector_score h = nth idx vector_results 0%R
      /\ Hit.bm25_score h = nth idx (bm25_search rt (mem w) query) 0%R
      /\ ((length vector_results <= idx)%nat -> Hit.vector_score h = 0%R)
      /\ ((length (bm25_search rt (mem w) query) <= idx)%nat ->
          Hit.bm25_score h = 0%R)
      /\ Hit.score h
         = (alpha * Hit.vector_score h + (1 - alpha) * Hit.bm25_score h)%R.
Proof.
  intros rt p query top_k document_id alpha w w' hits h Hrun Hin.
  destruct (@search_hit_origin rt p query top_k document_id alpha w hits w' h Hrun Hin)
    as (v & vr & idx & Hv & Hvs & Hone).
  apply fuse_one_spec in Hone. destruct Hone as (Hn & _ & Hvs' & Hbs & Hsc).
  exists v, vr, idx. repeat split; auto.
  - intros Hle. rewrite Hvs'. apply nth_overflow. exact Hle.
  - intros Hle. rewrite Hbs. apply nth_overflow. exact Hle.
Qed.

(* ================================================================== *)
(** * Batching *)

Lemma firstn_plus A (a b : nat) (l : list A) :
  firstn (a + b) l = firstn a l ++ firstn b (skipn a l).
Proof.
  revert l. induction a as [| a IH]; intros [| x l]; simpl; try reflexivity.
  - now rewrite firstn_nil.
  - f_equal. apply IH.
Qed.

Lemma slices_concat A (l : list A) (step m : nat) :
  forall a,
    flat_map (fun i => slice l i (i + step)) (map (fun k => k * step) (seq a m))
    = firstn (m * step) (skipn (a * step) l).
Proof.
  induction m as [| m IH]; intros a; simpl.
  - reflexivity.
  - rewrite IH. unfold slice.
    replace (a * step + step - a * step) with step by lia.
    change (S a * step) with (step + a * step).
    rewrite <- (skipn_skipn step (a * step) l). rewrite firstn_plus. reflexivity.
Qed.

(** The batches of [range(0, len(l), batch_size)] cover [l] exactly. *)
Lemma batches_cover A (l : list A) :
  flat_map (fun i => slice l i (i + batch_size))
           (py_range_step (length l) batch_size) = l.
Proof.
  unfold py_range_step. rewrite slices_concat. simpl skipn.
  apply firstn_all2. unfold batch_size.
  pose proof (Nat.div_mod_eq (length l + 20 - 1) 20) as E.
  pose proof (Nat.mod_upper_bound (length l + 20 - 1) 20) as U.
  lia.
Qed.

Lemma flat_map_length_ext A B C (f : A -> list B) (g : A -> list C) (l : list A) :
  (forall x, In x l -> length (f x) = length (g x)) ->
  length (flat_map f l) = length (flat_map g l).
Proof.
  induction l as [| x l IH]; intros H; simpl.
  - reflexivity.
  - rewrite !length_app. rewrite (H x (or_introl eq_refl)).
    rewrite IH; [reflexivity |]. intros y Hy. apply H. right. exact Hy.
Qed.

(** A loop that ends normally saw every batch answered, and returns the
    answers in order. *)
Lemma embed_batches_ok p texts starts :
  forall acc w r w',
    embed_batches p texts starts acc w = (Ok r, w') ->
    (forall i, In i starts ->
               exists ri, embed_documents p (slice texts i (i + batch_size)) = Ok ri)
    /\ r = acc ++ flat_map
                    (fun i =>
                       match embed_documents p (slice texts i (i + batch_size)) with
                       | Ok ri => ri
                       | Raise _ => []
                       end) starts.
Proof.
  induction starts as [| i rest IH]; intros acc w r w' Hrun; simpl in *.
  - unfold ret in Hrun. inversion Hrun; subst. split.
    + intros i [].
    + now rewrite app_nil_r.
  - unfold bind in Hrun. rewrite try_except_reraise in Hrun.
    unfold call_embed_documents in Hrun. unfold_m.
    destruct (embed_documents p (slice texts i (i + batch_size))) as [ri | e] eqn:Hi;
      simpl in Hrun; [| discriminate].
    apply IH in Hrun. destruct Hrun as [Hall ->]. split.
    + intros j [<- | Hj]; [eexists; exact Hi | apply Hall, Hj].
    + now rewrite <- app_assoc.
Qed.

Lemma provider_answers_length p texts :
  one_vector_per_text p ->
  (forall i, In i (py_range_step (length texts) batch_size) ->
             exists ri, embed_documents p (slice texts i (i + batch_size)) = Ok ri) ->
  length (provider_answers p texts) = length texts.
Proof.
  intros Hc Hall. unfold provider_answers.
  rewrite <- (batches_cover texts) at 2.
  apply flat_map_length_ext. intros i Hi.
  destruct (Hall i Hi) as (ri & Hri). rewrite Hri. apply Hc. exact Hri.
Qed.

Lemma enumerate_snd A (l : list A) : map snd (enumerate l) = l.
Proof.
  unfold enumerate. generalize 0. induction l as [| x l IH]; intros n; simpl.
  - reflexivity.
  - f_equal. apply IH.
Qed.

Lemma enumerate_length A (l : list A) : length (enumerate l) = length l.
Proof.
  unfold enumerate. rewrite length_combine, length_seq. apply Nat.min_id.
Qed.

Lemma new_chunk_meta_text document_id chunks :
  map (fun ic => _tokenize (ChunkMeta.text (new_chunk_meta document_id ic)))
      (enumerate chunks)
  = map _tokenize (map Chunk.text chunks).
Proof.
  rewrite <- (enumerate_snd chunks) at 2. rewrite !map_map.
  apply map_ext. intros [i c]. reflexivity.
Qed.

(** A successful [add_chunks] on a non-empty sequence, step by step. *)
Lemma add_chunks_ok p document_id chunks w w' :
  chunks <> [] ->
  add_chunks p document_id chunks w = (Ok tt, w') ->
  let texts := map Chunk.text chunks in
  (forall i, In i (py_range_step (length texts) batch_size) ->
             exists ri, embed_documents p (slice texts i (i + batch_size)) = Ok ri)
  /\ exists arr new_vectors,
      np_array (provider_answers p texts) = Ok arr
      /\ match vectors (mem w) with
         | None => new_vectors = arr
         | Some v => np_vstack v arr = Ok new_vectors
         end
      /\ mem w'
         = {| vectors := Some new_vectors;
              chunks_metadata :=
                chunks_metadata (mem w)
                  ++ map (new_chunk_meta document_id) (enumerate chunks);
              document_metadata := document_metadata (mem w);
              bm25 :=
                match tokenized_corpus (mem w) ++ map _tokenize texts with
                | [] => bm25 (mem w)
                | c => Some c
                end;
              tokenized_corpus := tokenized_corpus (mem w) ++ map _tokenize texts |}
      /\ disk w' = saved_disk (mem w') (disk w).
Proof.
  intros Hne Hrun texts.
  destruct chunks as [| c cs]; [congruence |].
  unfold add_chunks in Hrun. rewrite try_except_reraise in Hrun.
  change (map Chunk.text (c :: cs)) with texts in Hrun. clearbody texts.
  unfold bind at 1 in Hrun.
  destruct (embed_batches p texts (py_range_step (length texts) batch_size) [] w)
    as [[embs | e] w0] eqn:Hloop; [| discriminate].
  pose proof (embed_batches_frame p texts
                (py_range_step (length texts) batch_size) [] w) as [Hm0 Hd0].
  rewrite Hloop in Hm0, Hd0. simpl in Hm0, Hd0.
  apply embed_batches_ok in Hloop. destruct Hloop as [Hall Hembs].
  change (embs = provider_answers p texts) in Hembs. subst embs.
  split; [exact Hall |].
  cbv beta iota in Hrun.
  unfold bind at 1 in Hrun. unfold lift at 1 in Hrun.
  destruct (np_array (provider_answers p texts)) as [arr | e] eqn:Harr;
    cbv beta iota in Hrun; [| discriminate].
  unfold bind at 1 in Hrun. unfold get_store at 1 in Hrun.
  cbv beta iota in Hrun.
  unfold bind at 1 in Hrun.
  rewrite Hm0 in Hrun.
  assert (Hnew : exists new_vectors,
             match vectors (mem w) with
             | None => new_vectors = arr
             | Some v => np_vstack v arr = Ok new_vectors
             end
             /\ (match vectors (mem w) with
                 | Some v => lift (np_vstack v arr)
                 | None => ret arr
                 end) w0 = (Ok new_vectors, w0)).
  { revert Hrun. destruct (vectors (mem w)) as [v |]; intros Hrun.
    - unfold lift in *. destruct (np_vstack v arr) as [nv | e];
        [| discriminate].
      exists nv. split; reflexivity.
    - exists arr. split; reflexivity. }
  destruct Hnew as (nv & Hnv & Hstep). rewrite Hstep in Hrun.
  cbv beta iota in Hrun.
  exists arr, nv. split; [reflexivity |]. split; [exact Hnv |].
  unfold bind, modify_store in Hrun. simpl in Hrun.
  match type of Hrun with
  | _save_to_disk ?W = _ => destruct (save_disk W) as (w1 & Hs & Hm1 & Hd1)
  end.
  rewrite Hs in Hrun. inversion Hrun; subst w'. clear Hrun Hs.
  unfold set_chunks_metadata, set_tokenized_corpus, set_vectors in Hm1, Hd1.
  cbn [mem disk log vectors chunks_metadata document_metadata bm25
       tokenized_corpus] in Hm1, Hd1.
  rewrite Hm0 in Hm1, Hd1. rewrite Hd0 in Hd1.
  destruct (tokenized_corpus (mem w) ++ map _tokenize texts) as [| t ts] eqn:Hc;
    unfold set_bm25 in Hm1, Hd1;
    cbn [mem disk log vectors chunks_metadata document_metadata bm25
         tokenized_corpus] in Hm1, Hd1;
    (split; [exact Hm1 | rewrite Hd1, Hm1; reflexivity]).
Qed.

(* ================================================================== *)
(** * Deletion on an aligned store *)

Lemma filter_length_id A (P : A -> bool) (l : list A) :
  length (filter P l) = length l -> filter P l = l.
Proof.
  induction l as [| x l IH]; simpl; intros H.
  - reflexivity.
  - destruct (P x); simpl in H.
    + f_equal. apply IH. lia.
    + pose proof (filter_length_le P l). lia.
Qed.

(** Taking the surviving positions out of any projection of the entries
    gives that projection of the surviving entries. *)
Lemma py_take_surviving X (g : entry -> X) document_id (es : list entry) :
  forall pre,
    py_take (pre ++ map g es)
      (map fst
         (filter (fun ic : nat * ChunkMeta.t =>
                    negb (String.eqb (ChunkMeta.document_id (snd ic)) document_id))
                 (combine (seq (length pre) (length es)) (map fst es))))
    = Ok (map g (spec_delete document_id es)).
Proof.
  induction es as [| e es IH]; intros pre; simpl.
  - reflexivity.
  - specialize (IH (pre ++ [g e])).
    rewrite <- app_assoc in IH. simpl in IH.
    rewrite length_app in IH. simpl in IH.
    replace (length pre + 1) with (S (length pre)) in IH by lia.
    unfold other_document at 1.
    destruct (negb (String.eqb (ChunkMeta.document_id (fst e)) document_id)); simpl.
    + rewrite nth_error_app2 by lia. rewrite Nat.sub_diag. simpl.
      rewrite IH. reflexivity.
    + exact IH.
Qed.

Lemma remaining_indices_take X (g : entry -> X) document_id (es : list entry) :
  py_take (map g es) (remaining_indices document_id (map fst es))
  = Ok (map g (spec_delete document_id es)).
Proof.
  unfold remaining_indices, enumerate. rewrite length_map.
  apply (py_take_surviving g document_id es []).
Qed.

Lemma remaining_indices_length document_id (es : list entry) :
  length (remaining_indices document_id (map fst es))
  = length (spec_delete document_id es).
Proof.
  unfold remaining_indices, enumerate. rewrite length_map, length_map.
  generalize 0. induction es as [| e es IH]; intros n; simpl.
  - reflexivity.
  - unfold other_document at 1.
    destruct (negb (String.eqb (ChunkMeta.document_id (fst e)) document_id)); simpl.
    + f_equal. apply IH.
    + apply IH.
Qed.

(** The three ways [delete_document] ends on an aligned store. *)
Lemma delete_document_aligned es w document_id :
  aligned es (mem w) ->
  exists deleted w',
    delete_document document_id w = (Ok deleted, w')
    /\ ((deleted = false
         /\ dict_mem document_id (document_metadata (mem w)) = false
         /\ w' = w)
        \/ (deleted = false
            /\ dict_mem document_id (document_metadata (mem w)) = true
            /\ spec_delete document_id es = es
            /\ mem w' = set_document_metadata
                          (dict_del document_id (document_metadata (mem w))) (mem w)
            /\ disk w' = disk w
            /\ log w' = log w)
        \/ (deleted = true
            /\ dict_mem document_id (document_metadata (mem w)) = true
            /\ spec_delete document_id es <> es
            /\ mem w' = deleted_store document_id es (mem w)
            /\ disk w' = saved_disk (mem w') (disk w))).
Proof.
  intros (Hc & Ht & Hb & ncols & Hv).
  unfold delete_document. unfold bind at 1. unfold get_store at 1.
  cbv beta iota.
  destruct (dict_mem document_id (document_metadata (mem w))) eqn:Hmem;
    cbn [negb]; cbv beta iota.
  2:{ exists false, w. split; [reflexivity |]. left. auto. }
  unfold bind at 1. unfold modify_store at 1. cbv beta iota.
  rewrite Hc, remaining_indices_length, length_map.
  destruct (length (spec_delete document_id es) =? length es) eqn:Hlen;
    cbv beta iota.
  - apply Nat.eqb_eq in Hlen. apply filter_length_id in Hlen.
    eexists false, _. split; [reflexivity |]. right. left.
    repeat split; auto.
  - apply Nat.eqb_neq in Hlen.
    assert (Hneq : spec_delete document_id es <> es) by congruence.
    assert (Hes : es <> []) by (intros ->; apply Hneq; reflexivity).
    unfold bind at 1. unfold lift at 1.
    rewrite (remaining_indices_take fst). cbv beta iota.
    unfold bind at 1. unfold modify_store at 1. cbv beta iota.
    unfold bind at 1.
    destruct es as [| e0 es0]; [congruence |].
    rewrite Hv. unfold bind at 1. unfold lift at 1. unfold np_take.
    rewrite (remaining_indices_take snd). cbv beta iota.
    unfold modify_store at 1. cbv beta iota.
    unfold bind at 1. unfold modify_store at 1. cbv beta iota.
    unfold bind at 1.
    remember (spec_delete document_id (e0 :: es0)) as kept eqn:Hk.
    assert (Hend : exists w1,
               (match map fst kept with
                | [] => modify_store (fun s => set_vectors None (set_bm25 None s))
                | _ => modify_store (rebuild_bm25 (map fst kept))
                end) 
                 {| mem := set_tokenized_corpus []
                             (set_vectors (Some (Mat ncols (map snd kept)))
                                (set_chunks_metadata (map fst kept)
                                   (set_document_metadata
                                      (dict_del document_id (document_metadata (mem w)))
                                      (mem w))));
                    disk := disk w; log := log w |} = (Ok tt, w1)
               /\ mem w1 = deleted_store document_id (e0 :: es0) (mem w)
               /\ disk w1 = disk w).
    { unfold deleted_store. rewrite <- Hk, Hv.
      destruct kept as [| k ks]; simpl; eexists; repeat split. }
    destruct Hend as (w1 & Hrun1 & Hm1 & Hd1).
    cbn [mem disk log]. rewrite Hrun1. cbv beta iota.
    unfold bind at 1.
    destruct (save_disk w1) as (w2 & Hs & Hm2 & Hd2).
    rewrite Hs. cbv beta iota. unfold ret.
    exists true, w2. split; [reflexivity |]. right. right.
    repeat split; auto.
    + congruence.
    + rewrite Hd2, Hm2, Hd1. reflexivity.
Qed.

(* ================================================================== *)
(** * The alignment invariant *)

Lemma update_document_status_frame document_id status chunks_count processed_at
    filename w :
  exists w',
    update_document_status document_id status chunks_count processed_at filename w
      = (Ok tt, w')
    /\ vectors (mem w') = vectors (mem w)
    /\ chunks_metadata (mem w') = chunks_metadata (mem w)
    /\ bm25 (mem w') = bm25 (mem w)
    /\ tokenized_corpus (mem w') = tokenized_corpus (mem w)
    /\ disk w' = saved_disk (mem w') (disk w).
Proof.
  unfold update_document_status. unfold bind at 1. unfold get_store at 1.
  cbv beta iota. unfold bind at 1.
  destruct (dict_get document_id (document_metadata (mem w))) as [old |];
    unfold modify_store at 1; cbv beta iota;
    match goal with
    | |- context [_save_to_disk ?W] =>
        destruct (save_disk W) as (w1 & Hs & Hm & Hd)
    end;
    exists w1; rewrite Hs, Hd, Hm; repeat split; reflexivity.
Qed.

Lemma combine_fst A B (a : list A) (b : list B) :
  length a = length b -> map fst (combine a b) = a.
Proof.
  revert b. induction a as [| x a IH]; intros [| y b] H; simpl in *;
    try reflexivity; try discriminate.
  f_equal. apply IH. lia.
Qed.

Lemma combine_snd A B (a : list A) (b : list B) :
  length a = length b -> map snd (combine a b) = b.
Proof.
  revert b. induction a as [| x a IH]; intros [| y b] H; simpl in *;
    try reflexivity; try discriminate.
  f_equal. apply IH. lia.
Qed.

Lemma np_array_nonempty l arr :
  l <> [] -> np_array l = Ok arr -> exists ncols, arr = Mat ncols l.
Proof.
  intros Hne H. destruct l as [| r rest]; [congruence |].
  unfold np_array in H.
  destruct (forallb (fun r' => length r' =? length r) rest); [| discriminate].
  inversion H. eexists. reflexivity.
Qed.

Lemma np_vstack_mat n rows m rows' nv :
  np_vstack (Mat n rows) (Mat m rows') = Ok nv -> nv = Mat n (rows ++ rows').
Proof.
  unfold np_vstack. simpl. destruct (n =? m); [| discriminate].
  intros H. inversion H. reflexivity.
Qed.

Lemma corpus_of_app a b : corpus_of (a ++ b) = corpus_of a ++ corpus_of b.
Proof. unfold corpus_of. apply map_app. Qed.

Lemma add_chunks_aligned p document_id chunks w w' es :
  aligned es (mem w) ->
  one_vector_per_text p ->
  add_chunks p document_id chunks w = (Ok tt, w') ->
  aligned (spec_add p document_id chunks es) (mem w').
Proof.
  intros Hal Hp Hrun.
  destruct chunks as [| c cs].
  { inversion Hrun; subst w'. unfold spec_add. simpl. rewrite app_nil_r.
    exact Hal. }
  destruct (add_chunks_ok p document_id w (chunks := c :: cs)) with (w' := w')
    as (Hall & arr & nv & Harr & Hnv & Hmem & _);
    [discriminate | exact Hrun |].
  set (texts := map Chunk.text (c :: cs)) in *.
  set (metas := map (new_chunk_meta document_id) (enumerate (c :: cs))) in *.
  pose proof (provider_answers_length texts Hp Hall) as Hlen.
  assert (Hlm : length metas = length (provider_answers p texts)).
  { unfold metas, texts in *. rewrite Hlen. rewrite !length_map.
    apply enumerate_length. }
  assert (Hne : provider_answers p texts <> []).
  { intros E. rewrite E in Hlen. unfold texts in Hlen. simpl in Hlen.
    discriminate. }
  destruct (np_array_nonempty Hne Harr) as (d & ->).
  assert (Hmetas : corpus_of metas = map _tokenize texts).
  { unfold corpus_of, metas, texts. rewrite map_map.
    apply new_chunk_meta_text. }
  destruct Hal as (Hc & Ht & Hb & ncols & Hv).
  unfold spec_add. fold texts. fold metas.
  assert (Hnew : combine metas (provider_answers p texts) <> []).
  { destruct metas as [| m ms]; [simpl in Hlm; destruct (provider_answers p texts);
                                 [congruence | discriminate] |].
    destruct (provider_answers p texts); [congruence | discriminate]. }
  assert (Hall_ne : es ++ combine metas (provider_answers p texts) <> []).
  { intros E. apply app_eq_nil in E. destruct E as [_ E]. congruence. }
  unfold aligned. rewrite Hmem. cbn [chunks_metadata tokenized_corpus bm25 vectors].
  rewrite !map_app, (combine_fst _ _ Hlm), (combine_snd _ _ Hlm).
  rewrite corpus_of_app, Hmetas, <- Ht, <- Hc.
  do 2 (split; [reflexivity |]). split.
  - destruct (es ++ combine metas (provider_answers p texts)) as [| x xs] eqn:E;
      [congruence |].
    destruct (tokenized_corpus (mem w) ++ map _tokenize texts) as [| t ts] eqn:E';
      [| reflexivity].
    apply app_eq_nil in E'. destruct E' as [_ E'].
    unfold texts in E'. discriminate.
  - destruct es as [| e0 es0].
    + rewrite Hv in Hnv. subst nv. exists d. cbn [map app].
      destruct (combine metas (provider_answers p texts)); [congruence | reflexivity].
    + rewrite Hv in Hnv. apply np_vstack_mat in Hnv. subst nv.
      exists ncols. reflexivity.
Qed.

Lemma delete_document_keeps_aligned document_id w deleted w' es :
  aligned es (mem w) ->
  delete_document document_id w = (Ok deleted, w') ->
  aligned (if deleted then spec_delete document_id es else es) (mem w').
Proof.
  intros Hal Hrun.
  destruct (delete_document_aligned w document_id Hal)
    as (b & w2 & Hrun2 & Hcases).
  rewrite Hrun in Hrun2. inversion Hrun2; subst b w2. clear Hrun2.
  destruct Hcases as [(-> & _ & ->) | [(-> & _ & _ & Hm & _) | (-> & _ & Hne & Hm & _)]].
  - exact Hal.
  - rewrite Hm. exact Hal.
  - rewrite Hm. destruct Hal as (Hc & Ht & Hb & ncols & Hv).
    unfold aligned, deleted_store.
    cbn [chunks_metadata tokenized_corpus bm25 vectors].
    do 3 (split; [reflexivity |]). exists ncols.
    destruct es as [| e0 es0]; [exfalso; apply Hne; reflexivity |].
    rewrite Hv. destruct (spec_delete document_id (e0 :: es0)); reflexivity.
Qed.

Lemma reachable_aligned w es : reachable w es -> aligned es (mem w).
Proof.
  induction 1 as [d l | w es p document_id chunks w' _ IH Hp Hrun
                 | w es document_id deleted w' _ IH Hrun
                 | w es document_id status chunks_count processed_at filename w'
                     _ IH Hrun].
  - do 3 (split; [reflexivity |]). exists 0. reflexivity.
  - eapply add_chunks_aligned; eauto.
  - eapply delete_document_keeps_aligned; eauto.
  - destruct (update_document_status_frame document_id status chunks_count
                processed_at filename w) as (w2 & Hrun2 & Hv & Hc & Hb & Ht & _).
    rewrite Hrun in Hrun2. inversion Hrun2; subst w2.
    destruct IH as (Hc' & Ht' & Hb' & ncols & Hv').
    unfold aligned. rewrite Hv, Hc, Hb, Ht.
    do 3 (split; [assumption |]). exists ncols. exact Hv'.
Qed.

(** C1. In every world reachable from the empty store by successful
    [add_chunks], [delete_document] (and [update_document_status]) calls,
    the chunk records, the rows of the dense matrix (none when it is
    uninitialized) and the tokenized corpus have the same length, and they
    are the three projections of one sequence of entries: position [i] of
    each is the record, the provider's vector and the tokens of the same
    chunk. *)
Theorem alignment_invariant :
  forall (w : World) (es : list entry),
    reachable w es ->
    length (chunks_metadata (mem w)) = row_count (mem w)
    /\ row_count (mem w) = length (tokenized_corpus (mem w))
    /\ chunks_metadata (mem w) = map fst es
    /\ dense_rows (mem w) = map snd es
    /\ tokenized_corpus (mem w)
       = map (fun e => _tokenize (ChunkMeta.text (fst e))) es.
Proof.
  intros w es Hr. apply reachable_aligned in Hr.
  destruct Hr as (Hc & Ht & _ & ncols & Hv).
  assert (Hrows : dense_rows (mem w) = map snd es).
  { unfold dense_rows. rewrite Hv. destruct es; reflexivity. }
  assert (Hcount : row_count (mem w) = length es).
  { unfold row_count. rewrite Hv. destruct es; [reflexivity |].
    simpl. now rewrite length_map. }
  unfold corpus_of in Ht. rewrite map_map in Ht.
  rewrite Hcount, Hc, Ht, !length_map. repeat split; auto.
Qed.

(* ================================================================== *)
(** * The document filter *)

Lemma flat_map_filter A B (P : B -> bool) (g : A -> list B) (l : list A) :
  filter P (flat_map g l) = flat_map (fun x => filter P (g x)) l.
Proof.
  induction l as [| x l IH]; simpl.
  - reflexivity.
  - rewrite filter_app, IH. reflexivity.
Qed.

Lemma fuse_one_filter chunks d alpha vector_results bm25_results idx :
  d <> ""%string ->
  fuse_one chunks (Some d) alpha vector_results bm25_results idx
  = filter (of_document d)
           (fuse_one chunks None alpha vector_results bm25_results idx).
Proof.
  intros Hd. unfold fuse_one.
  destruct (nth_error chunks idx) as [c |]; [| reflexivity].
  assert (Ht : truthy (Some d) = Some d) by (destruct d; [congruence | reflexivity]).
  rewrite Ht. cbn [truthy filter]. unfold of_document. cbn [Hit.meta].
  destruct (String.eqb (ChunkMeta.document_id c) d); reflexivity.
Qed.

Lemma fuse_filter rt chunks d alpha vector_results bm25_results :
  d <> ""%string ->
  fuse rt chunks (Some d) alpha vector_results bm25_results
  = filter (of_document d) (fuse rt chunks None alpha vector_results bm25_results).
Proof.
  intros Hd. unfold fuse. rewrite flat_map_filter.
  apply flat_map_ext. intros idx. apply fuse_one_filter. exact Hd.
Qed.

(** [search] on a store with a matrix and at least one chunk. *)
Lemma search_run rt p query top_k document_id alpha w v :
  vectors (mem w) = Some v ->
  chunks_metadata (mem w) <> [] ->
  exists vector_results w',
    vector_search p query v w = (Ok vector_results, w')
    /\ search rt p query top_k document_id alpha w
       = (Ok (py_slice_to
                (sort_desc Hit.score
                   (fuse rt (chunks_metadata (mem w)) document_id alpha
                      vector_results (bm25_search rt (mem w) query)))
                top_k), w').
Proof.
  intros Hv Hc.
  destruct (vector_search_total p query v w) as (vr & w1 & Hvs & _ & _).
  exists vr, w1. split; [exact Hvs |].
  unfold search. unfold bind at 1. unfold get_store at 1. cbv beta iota.
  rewrite Hv. destruct (chunks_metadata (mem w)) as [| c cs]; [congruence |].
  unfold bind. rewrite Hvs. reflexivity.
Qed.

(** C6 (amended). With the filter set to a non-empty document id [d],
    [search] keeps only the candidates whose [document_id] is [d] before
    it ranks and truncates: on a store with a matrix and chunk records the
    answer is the ranked and truncated list of the candidates of [d], so
    every returned hit belongs to [d]; on any other store it is empty. *)
Theorem search_filter_nonempty_id :
  forall (rt : Runtime) (p : Provider) (query : string) (top_k : Z)
         (d : string) (alpha : R) (w w' : World) (hits : list Hit.t),
    d <> ""%string ->
    search rt p query top_k (Some d) alpha w = (Ok hits, w') ->
    (forall h, In h hits -> ChunkMeta.document_id (Hit.meta h) = d)
    /\ match vectors (mem w) with
       | None => hits = []
       | Some v =>
           match chunks_metadata (mem w) with
           | [] => hits = []
           | _ :: _ =>
               exists vector_results,
                 fst (vector_search p query v w) = Ok vector_results
                 /\ hits = py_slice_to
                             (sort_desc Hit.score
                                (filter (of_document d)
                                   (fuse rt (chunks_metadata (mem w)) None alpha
                                      vector_results
                                      (bm25_search rt (mem w) query))))
                             top_k
           end
       end.
Proof.
  intros rt p query top_k d alpha w w' hits Hd Hrun. split.
  - intros h Hin.
    destruct (@search_hit_origin rt p query top_k (Some d) alpha w hits w' h Hrun Hin)
      as (v & vr & idx & _ & _ & Hone).
    apply fuse_one_spec in Hone. destruct Hone as (_ & Hdoc & _).
    apply Hdoc. destruct d; [congruence | reflexivity].
  - destruct (vectors (mem w)) as [v |] eqn:Hv.
    + destruct (chunks_metadata (mem w)) as [| c cs] eqn:Hc.
      * rewrite search_no_chunks in Hrun by exact Hc.
        inversion Hrun. reflexivity.
      * destruct (@search_run rt p query top_k (Some d) alpha w v Hv)
          as (vr & w1 & Hvs & Hrun1); [rewrite Hc; discriminate |].
        rewrite Hrun in Hrun1. inversion Hrun1; subst hits w1.
        exists vr. rewrite Hvs. rewrite fuse_filter by exact Hd.
        rewrite Hc. split; reflexivity.
    + unfold search in Hrun. unfold bind, get_store in Hrun.
      rewrite Hv in Hrun. inversion Hrun. reflexivity.
Qed.

(* ================================================================== *)
(** * Ranking *)

Lemma existsb_seq x n : existsb (Nat.eqb x) (seq 0 n) = (x <? n).
Proof.
  apply Bool.eq_true_iff_eq. rewrite existsb_exists, Nat.ltb_lt. split.
  - intros (y & Hy & E). apply Nat.eqb_eq in E. subst y.
    apply in_seq in Hy. lia.
  - intros H. exists x. split; [apply in_seq; lia | apply Nat.eqb_refl].
Qed.

Lemma filter_seq_ge n :
  forall k a,
    filter (fun x => negb (x <? n)) (seq a k)
    = seq (Nat.max a n) (a + k - Nat.max a n).
Proof.
  induction k as [| k IH]; intros a.
  - replace (a + 0 - Nat.max a n) with 0 by lia. reflexivity.
  - cbn [seq filter]. rewrite IH. destruct (a <? n) eqn:E; cbn [negb].
    + apply Nat.ltb_lt in E.
      replace (Nat.max (S a) n) with (Nat.max a n) by lia.
      f_equal. lia.
    + apply Nat.ltb_ge in E.
      replace (Nat.max (S a) n) with (S a) by lia.
      replace (Nat.max a n) with a by lia.
      replace (S a + k - S a) with k by lia.
      replace (a + S k - a) with (S k) by lia. reflexivity.
Qed.

(** The union of the key sets of the two score dicts is [0 .. max-1]. *)
Lemma set_union_keys (vector_results bm25_results : list R) :
  set_union (keys vector_results) (keys bm25_results)
  = seq 0 (Nat.max (length vector_results) (length bm25_results)).
Proof.
  unfold set_union, keys.
  set (n := length vector_results). set (m := length bm25_results).
  rewrite (filter_ext _ (fun x => negb (x <? n)))
    by (intros x; now rewrite existsb_seq).
  rewrite filter_seq_ge.
  replace (Nat.max 0 n) with (0 + n) by lia.
  replace (0 + m - (0 + n)) with (m - n) by lia.
  rewrite <- seq_app. f_equal. lia.
Qed.

Lemma insert_desc_map A B (f : A -> B) (key : B -> R) (x : A) (l : list A) :
  map f (insert_desc (fun a => key (f a)) x l) = insert_desc key (f x) (map f l).
Proof.
  induction l as [| y l IH]; simpl.
  - reflexivity.
  - destruct (Rlt_dec (key (f x)) (key (f y))); simpl; [now rewrite IH | reflexivity].
Qed.

Lemma sort_desc_map A B (f : A -> B) (key : B -> R) (l : list A) :
  map f (sort_desc (fun a => key (f a)) l) = sort_desc key (map f l).
Proof.
  induction l as [| x l IH]; simpl.
  - reflexivity.
  - rewrite insert_desc_map, IH. reflexivity.
Qed.

Lemma indexed_candidates_hits chunks document_id alpha vector_results bm25_results :
  map snd (indexed_candidates chunks document_id alpha vector_results bm25_results)
  = flat_map (fuse_one chunks document_id alpha vector_results bm25_results)
             (seq 0 (Nat.max (length vector_results) (length bm25_results))).
Proof.
  unfold indexed_candidates.
  induction (seq 0 (Nat.max (length vector_results) (length bm25_results)))
    as [| idx l IH]; simpl.
  - reflexivity.
  - rewrite map_app, IH, map_map. simpl. now rewrite map_id.
Qed.

(** Equal keys keep their order, as [list.sort] promises. *)
Example sort_desc_stable_example :
  sort_desc snd [("a", 1%R); ("b", 2%R); ("c", 1%R); ("d", 2%R)]%string
  = [("b", 2%R); ("d", 2%R); ("a", 1%R); ("c", 1%R)]%string.
Proof.
  unfold sort_desc.
  repeat (cbn [fold_right insert_desc snd];
          match goal with
          | |- context [Rlt_dec ?a ?b] =>
              destruct (Rlt_dec a b); [try (exfalso; lra) | try (exfalso; lra)]
          end).
  reflexivity.
Qed.

(** Inserting an element that comes from a lower position than everything
    already ranked keeps the ranking. *)
Lemma insert_desc_ranked (x : nat * Hit.t) (l : list (nat * Hit.t)) :
  StronglySorted ranked_before l ->
  Forall (fun y => fst x < fst y) l ->
  StronglySorted ranked_before (insert_desc (fun a => Hit.score (snd a)) x l).
Proof.
  induction l as [| y l IH]; intros Hs Hx; simpl.
  - constructor; constructor.
  - inversion Hs as [| y' l' Hs' Hy]; subst.
    inversion Hx as [| y' l' Hxy Hx']; subst.
    destruct (Rlt_dec (Hit.score (snd x)) (Hit.score (snd y))) as [Hlt | Hge].
    + constructor; [apply IH; assumption |].
      apply (Permutation_Forall
               (Permutation_sym (insert_desc_perm (fun a => Hit.score (snd a)) x l))).
      constructor; [left; exact Hlt | exact Hy].
    + constructor; [exact Hs |].
      assert (Hxy' : ranked_before x y).
      { unfold ranked_before. destruct (Rtotal_order (Hit.score (snd y))
                                                     (Hit.score (snd x)))
          as [H | [H | H]]; [left; exact H | right; split; [symmetry |]; assumption
                            | contradiction]. }
      constructor; [exact Hxy' |].
      rewrite Forall_forall in *. intros z Hz.
      specialize (Hy z Hz). specialize (Hx' z Hz).
      unfold ranked_before in *.
      destruct Hy as [Hy | [Hy _]]; destruct Hxy' as [Hxy' | [Hxy' _]];
        try (left; lra); right; split; [lra | exact Hx'].
Qed.

Lemma sort_desc_ranked (l : list (nat * Hit.t)) :
  StronglySorted (fun a b => fst a < fst b) l ->
  StronglySorted ranked_before (sort_desc (fun a => Hit.score (snd a)) l).
Proof.
  induction l as [| x l IH]; intros Hs; simpl.
  - constructor.
  - inversion Hs as [| x' l' Hs' Hx]; subst.
    apply insert_desc_ranked; [apply IH; exact Hs' |].
    apply (Permutation_Forall
             (Permutation_sym (sort_desc_perm (fun a => Hit.score (snd a)) l))).
    exact Hx.
Qed.

Lemma indexed_candidates_ascending chunks document_id alpha vector_results
    bm25_results :
  StronglySorted (fun a b : nat * Hit.t => fst a < fst b)
    (indexed_candidates chunks document_id alpha vector_results bm25_results).
Proof.
  unfold indexed_candidates.
  generalize (Nat.max (length vector_results) (length bm25_results)) as n.
  generalize 0 as a. intros a n. revert a.
  assert (Hlow : forall n a y,
             In y (flat_map
                     (fun idx =>
                        map (pair idx)
                          (fuse_one chunks document_id alpha vector_results
                             bm25_results idx)) (seq a n)) ->
             a <= fst y).
  { intros k a y Hy. apply in_flat_map in Hy. destruct Hy as (idx & Hidx & Hy).
    apply in_map_iff in Hy. destruct Hy as (h & <- & _).
    apply in_seq in Hidx. simpl. lia. }
  induction n as [| n IH]; intros a; simpl.
  - constructor.
  - unfold fuse_one at 1.
    destruct (nth_error chunks a) as [c |]; simpl; [| apply IH].
    match goal with
    | |- context [if ?b then _ else _] => destruct b
    end; simpl; [apply IH |].
    constructor; [apply IH |].
    apply Forall_forall. intros y Hy. apply Hlow in Hy. simpl. lia.
Qed.

(** C7. With a [set] of chunk positions iterated in ascending order (as
    CPython does), the answer of [search] for a non-negative [top_k] is the
    first [top_k] hits of the ranked candidates: all candidates, ordered by
    decreasing fused score and, among equal scores, by increasing chunk
    position; it has [top_k] hits, or all candidates if there are fewer. *)
Theorem search_ranking :
  forall (rt : Runtime) (p : Provider) (query : string) (top_k : Z)
         (document_id : option string) (alpha : R) (w w' : World)
         (hits : list Hit.t),
    (forall l, set_iter rt l = l) ->
    (0 <= top_k)%Z ->
    search rt p query top_k document_id alpha w = (Ok hits, w') ->
    exists ranked : list (nat * Hit.t),
      Permutation ranked (search_candidates rt p query document_id alpha w)
      /\ StronglySorted ranked_before ranked
      /\ hits = map snd (firstn (Z.to_nat top_k) ranked)
      /\ length hits
         = Nat.min (Z.to_nat top_k)
             (length (search_candidates rt p query document_id alpha w)).
Proof.
  intros rt p query top_k document_id alpha w w' hits Hiter Hk Hrun.
  exists (sort_desc (fun a => Hit.score (snd a))
            (search_candidates rt p query document_id alpha w)).
  assert (Hhits : hits
                  = map snd
                      (firstn (Z.to_nat top_k)
                         (sort_desc (fun a => Hit.score (snd a))
                            (search_candidates rt p query document_id alpha w)))).
  { unfold search_candidates.
    destruct (vectors (mem w)) as [v |] eqn:Hv.
    - destruct (chunks_metadata (mem w)) as [| c cs] eqn:Hc.
      + rewrite search_no_chunks in Hrun by exact Hc.
        inversion Hrun. now rewrite firstn_nil.
      + destruct (@search_run rt p query top_k document_id alpha w v Hv)
          as (vr & w1 & Hvs & Hrun1); [rewrite Hc; discriminate |].
        rewrite Hrun in Hrun1. inversion Hrun1; subst hits w1. clear Hrun1.
        rewrite Hvs. cbn [fst]. rewrite Hc.
        unfold py_slice_to. apply Z.leb_le in Hk. rewrite Hk.
        rewrite <- firstn_map. f_equal.
        rewrite (sort_desc_map snd Hit.score). f_equal.
        rewrite indexed_candidates_hits. unfold fuse.
        rewrite Hiter, set_union_keys. reflexivity.
    - unfold search in Hrun. unfold bind, get_store in Hrun.
      rewrite Hv in Hrun. inversion Hrun. now rewrite firstn_nil. }
  split; [apply sort_desc_perm |]. split.
  - apply sort_desc_ranked. unfold search_candidates.
    destruct (vectors (mem w)); [| constructor].
    destruct (chunks_metadata (mem w)); [constructor |].
    apply indexed_candidates_ascending.
  - split; [exact Hhits |].
    rewrite Hhits, length_map, length_firstn.
    rewrite (Permutation_length (sort_desc_perm _ _)). reflexivity.
Qed.

(* ================================================================== *)
(** * Score bounds

    Only statements that rounding preserves: the quotient the sparse path
    computes, the order of a quotient and [1], and the sign of sums and
    products.  The dense component is a float32 cosine; no bound on it is
    stated. *)

Section ScoreBounds.
Local Open Scope R_scope.





End ScoreBounds.


(* ================================================================== *)
(** * Persistence round trip *)

Lemma init_spec w :
  exists w', init w = (Ok tt, w')
             /\ mem w' = loaded_store (disk w) /\ disk w' = disk w.
Proof.
  unfold init, _load_from_disk, loaded_store. unfold_m. simpl.
  destruct (vectors_npy (disk w)) as [| | v];
    destruct (chunks_metadata_pkl (disk w)) as [| | [| c cs]];
    destruct (document_metadata_json (disk w)) as [| | m];
    simpl; eexists; repeat split; reflexivity.
Qed.

Lemma vector_search_fst p query v w1 w2 :
  fst (vector_search p query v w1) = fst (vector_search p query v w2).
Proof.
  unfold vector_search. unfold_m.
  destruct (embed_query p query) as [emb | e]; simpl; [| reflexivity].
  destruct (cosine_scores v emb); reflexivity.
Qed.

(** The answer of [search] depends on the matrix, the chunk records and the
    sparse index only. *)
Lemma search_ext rt p query top_k document_id alpha w1 w2 :
  vectors (mem w1) = vectors (mem w2) ->
  chunks_metadata (mem w1) = chunks_metadata (mem w2) ->
  bm25 (mem w1) = bm25 (mem w2) ->
  fst (search rt p query top_k document_id alpha w1)
  = fst (search rt p query top_k document_id alpha w2).
Proof.
  intros Hv Hc Hb. unfold search. unfold bind at 1 3. unfold get_store.
  cbv beta iota. rewrite Hv, Hc.
  destruct (vectors (mem w2)) as [v |]; [| reflexivity].
  destruct (chunks_metadata (mem w2)) as [| c cs]; [reflexivity |].
  unfold bind.
  pose proof (vector_search_fst p query v w1 w2) as Hf.
  destruct (vector_search p query v w1) as [[r1 | e1] w1'];
    destruct (vector_search p query v w2) as [[r2 | e2] w2'];
    simpl in Hf; try discriminate; inversion Hf; subst; [| reflexivity].
  unfold bm25_search. rewrite Hb. reflexivity.
Qed.

Lemma aligned_store_inv es s : aligned es s -> store_inv s.
Proof.
  intros (Hc & Ht & Hb & ncols & Hv). unfold store_inv.
  rewrite Hc, Ht, Hb, Hv. split; [reflexivity |]. split.
  - destruct es; reflexivity.
  - destruct es; [reflexivity | discriminate].
Qed.

(** Every reachable store satisfies [store_inv]. *)
Lemma reachable_store_inv w es : reachable w es -> store_inv (mem w).
Proof.
  intros H. eapply aligned_store_inv, reachable_aligned, H.
Qed.

(** C9 (amended). For a store whose sparse corpus and index are built from
    its chunk records and which has chunks only with an initialized matrix
    (every reachable store is such), saving and constructing a fresh engine
    over the same directory succeeds and restores equal chunk records and
    document records, and an equal dense matrix when the matrix is
    initialized at save time; [list_documents] and the answer of every
    [search] (with the same provider answers) are the same before and
    after. *)
Theorem save_reload_roundtrip :
  forall (w : World),
    store_inv (mem w) ->
    fst (_save_to_disk w) = Ok tt
    /\ fst (init (snd (_save_to_disk w))) = Ok tt
    /\ chunks_metadata (mem (save_and_reload w)) = chunks_metadata (mem w)
    /\ document_metadata (mem (save_and_reload w)) = document_metadata (mem w)
    /\ (vectors (mem w) <> None ->
        vectors (mem (save_and_reload w)) = vectors (mem w))
    /\ list_documents (mem (save_and_reload w)) = list_documents (mem w)
    /\ forall rt p query top_k document_id alpha,
        fst (search rt p query top_k document_id alpha (save_and_reload w))
        = fst (search rt p query top_k document_id alpha w).
Proof.
  intros w (Ht & Hb & Hv).
  unfold save_and_reload.
  destruct (save_disk w) as (w1 & Hs & Hm1 & Hd1). rewrite Hs. cbn [fst snd].
  destruct (init_spec w1) as (w2 & Hi & Hm2 & Hd2). rewrite Hi. cbn [fst snd].
  rewrite Hd1 in Hm2.
  assert (Hchunks : chunks_metadata (mem w2) = chunks_metadata (mem w)).
  { rewrite Hm2. unfold loaded_store, saved_disk. simpl.
    destruct (chunks_metadata (mem w)) as [| c cs];
      destruct (vectors (mem w)); simpl;
      try destruct (vectors_npy (disk w)); reflexivity. }
  assert (Hdocs : document_metadata (mem w2) = document_metadata (mem w)).
  { rewrite Hm2. unfold loaded_store, saved_disk. simpl. reflexivity. }
  assert (Hvec : vectors (mem w) <> None -> vectors (mem w2) = vectors (mem w)).
  { intros Hne. rewrite Hm2. unfold loaded_store, saved_disk. simpl.
    destruct (vectors (mem w)) as [v |]; [| congruence]. simpl.
    destruct (chunks_metadata (mem w)); reflexivity. }
  assert (Hbm : chunks_metadata (mem w) <> [] -> bm25 (mem w2) = bm25 (mem w)).
  { intros Hne. rewrite Hb, Hm2. unfold loaded_store, saved_disk. simpl.
    destruct (chunks_metadata (mem w)) as [| c cs]; [congruence |].
    destruct (vectors (mem w)); simpl;
      try destruct (vectors_npy (disk w)); reflexivity. }
  do 2 (split; [reflexivity |]). split; [exact Hchunks |].
  split; [exact Hdocs |]. split; [exact Hvec |]. split.
  - unfold list_documents. now rewrite Hdocs.
  - intros rt p query top_k document_id alpha.
    destruct (chunks_metadata (mem w)) as [| c cs] eqn:Hc.
    + rewrite !search_no_chunks by assumption. reflexivity.
    + apply search_ext.
      * apply Hvec. intros Hnone. apply Hv in Hnone. discriminate.
      * rewrite Hchunks, Hc. reflexivity.
      * apply Hbm. discriminate.
Qed.

(* ================================================================== *)
(** * Evaluating the operations on the example worlds *)

Lemma demo_provider_contract q : one_vector_per_text (Demo.provider q).
Proof.
  intros texts r H. simpl in H. inversion H. apply length_map.
Qed.

Lemma demo_one_chunk_mem :
  mem Demo.one_chunk
  = {| vectors := Some (Mat 1 [[1%R]]);
       chunks_metadata := [Demo.meta];
       document_metadata := [];
       bm25 := Some [["cats"; "are"; "mammals"]%string];
       tokenized_corpus := [["cats"; "are"; "mammals"]%string] |}.
Proof. vm_compute. reflexivity. Qed.

Lemma demo_cosine : cosine_scores (Mat 1 [[1%R]]) [(-1)%R] = Ok [(-1)%R].
Proof.
  unfold cosine_scores, norm. cbn [dot].
  assert (Hq : sqrt (-1 * -1 + 0) = 1%R).
  { replace (-1 * -1 + 0)%R with 1%R by lra. apply sqrt_1. }
  assert (Hr : sqrt (1 * 1 + 0) = 1%R).
  { replace (1 * 1 + 0)%R with 1%R by lra. apply sqrt_1. }
  rewrite Hq. destruct (Rlt_dec 0 1) as [_ | Hn]; [| exfalso; lra].
  cbn [map length Nat.eqb dot]. rewrite Hr.
  destruct (Req_dec_T 1 0) as [Hz | _]; [exfalso; lra |].
  do 2 f_equal. field.
Qed.

Lemma demo_bm25 :
  bm25_search Demo.rt (mem Demo.one_chunk) "dogs" = [0%R].
Proof.
  rewrite demo_one_chunk_mem. unfold bm25_search. cbn [bm25].
  change (bm25_get_scores Demo.rt [["cats"; "are"; "mammals"]%string]
            (_tokenize "dogs")) with [0%R].
  unfold py_max. cbn [fold_left map].
  destruct (Req_dec_T 0 0) as [_ | Hn]; [| exfalso; apply Hn; reflexivity].
  f_equal. field.
Qed.

(** One query on the one-chunk world, with a filter that lets ["doc1"]
    pass: the chunk is returned with dense score [-1] and sparse score [0]. *)
Lemma demo_search document_id :
  match truthy document_id with
  | Some d => negb (String.eqb "doc1" d)
  | None => false
  end = false ->
  search Demo.rt (Demo.provider [(-1)%R]) "dogs" 5 document_id (7 / 10)
         Demo.one_chunk
  = (Ok [Demo.hit], Demo.queried).
Proof.
  intros Hpass.
  unfold search. unfold bind at 1. unfold get_store at 1. cbv beta iota.
  rewrite demo_bm25. rewrite demo_one_chunk_mem.
  cbn [vectors chunks_metadata].
  unfold bind, vector_search. unfold_m.
  cbn [Demo.provider embed_query]. rewrite demo_cosine.
  unfold fuse. cbn [Demo.rt set_iter keys length seq].
  unfold set_union. cbn [filter existsb Nat.eqb negb orb app flat_map].
  unfold fuse_one. cbn [nth_error nth].
  change (ChunkMeta.document_id Demo.meta) with "doc1"%string.
  rewrite Hpass. reflexivity.
Qed.

(** The scenario of the specification: asking for the two best chunks for
    ["mammal"] returns the two mammal chunks, which tie on the fused score,
    in the order of their positions; the minerals chunk is cut off. *)
Lemma demo_topic_cosine :
  cosine_scores (Mat 2 [[1; 0]; [1; 0]; [0; 1]]%R) [1%R; 0%R] = Ok [1; 1; 0]%R.
Proof.
  unfold cosine_scores, norm. cbn [dot].
  assert (Hx : sqrt (1 * 1 + (0 * 0 + 0)) = 1%R).
  { replace (1 * 1 + (0 * 0 + 0))%R with 1%R by lra. apply sqrt_1. }
  assert (Hy : sqrt (0 * 0 + (1 * 1 + 0)) = 1%R).
  { replace (0 * 0 + (1 * 1 + 0))%R with 1%R by lra. apply sqrt_1. }
  rewrite Hx. destruct (Rlt_dec 0 1) as [_ | Hn]; [| exfalso; lra].
  cbn [map length Nat.eqb dot]. rewrite Hx, Hy.
  destruct (Req_dec_T 1 0) as [Hz | _]; [exfalso; lra |].
  f_equal. repeat (apply f_equal2; [field |]). reflexivity.
Qed.

Example search_mammal_scenario :
  fst (search Demo.rt Demo.topic_provider "mammal" 2 None (7 / 10)
         Demo.three_chunks)
  = Ok [Demo.mammal_hit 0 "cats are mammals"; Demo.mammal_hit 1 "dogs are mammals"].
Proof.
  assert (Hmem : mem Demo.three_chunks
                 = {| vectors := Some (Mat 2 [[1; 0]; [1; 0]; [0; 1]]%R);
                      chunks_metadata :=
                        map (new_chunk_meta "doc1")
                          (enumerate [Demo.chunk "cats are mammals" 0;
                                      Demo.chunk "dogs are mammals" 1;
                                      Demo.chunk "rocks are minerals" 2]);
                      document_metadata := [];
                      bm25 := Some (map _tokenize ["cats are mammals";
                                                   "dogs are mammals";
                                                   "rocks are minerals"]%string);
                      tokenized_corpus :=
                        map _tokenize ["cats are mammals"; "dogs are mammals";
                                       "rocks are minerals"]%string |})
    by (vm_compute; reflexivity).
  assert (Hsparse : bm25_search Demo.rt (mem Demo.three_chunks) "mammal"
                    = [0; 0; 0]%R).
  { rewrite Hmem. unfold bm25_search. cbn [bm25].
    change (bm25_get_scores Demo.rt _ (_tokenize "mammal")) with [0; 0; 0]%R.
    unfold py_max. cbn [fold_left map].
    rewrite !(Rmax_left 0 0) by lra.
    destruct (Req_dec_T 0 0) as [_ | Hn]; [| exfalso; apply Hn; reflexivity].
    repeat (apply f_equal2; [field |]). reflexivity. }
  unfold search. unfold bind at 1. unfold get_store at 1. cbv beta iota.
  rewrite Hsparse, Hmem. cbn [vectors chunks_metadata map enumerate length seq combine].
  unfold bind, vector_search. unfold_m.
  cbn [Demo.topic_provider embed_query]. rewrite demo_topic_cosine.
  unfold fuse. cbn [Demo.rt set_iter keys length seq].
  unfold set_union. cbn [filter existsb Nat.eqb negb orb app flat_map].
  unfold fuse_one. cbn [nth_error nth truthy app]. cbn [fst].
  unfold sort_desc.
  repeat (cbn [fold_right insert_desc Hit.score];
          match goal with
          | |- context [Rlt_dec ?a ?b] =>
              destruct (Rlt_dec a b); [try (exfalso; lra) | try (exfalso; lra)]
          end).
  reflexivity.
Qed.

Lemma demo_one_chunk_run :
  add_chunks (Demo.provider [1%R]) "doc1" [Demo.chunk "cats are mammals" 0]
             Demo.fresh
  = (Ok tt, Demo.one_chunk).
Proof. vm_compute. reflexivity. Qed.

Lemma demo_one_chunk_reachable :
  reachable Demo.one_chunk
    (spec_add (Demo.provider [1%R]) "doc1" [Demo.chunk "cats are mammals" 0] []).
Proof.
  eapply reach_add.
  - apply (reach_empty empty_disk []).
  - apply demo_provider_contract.
  - apply demo_one_chunk_run.
Qed.

Lemma demo_failed_upload_reachable :
  reachable Demo.failed_upload
    (spec_add (Demo.provider [1%R]) "doc1" [Demo.chunk "cats are mammals" 0] []).
Proof.
  apply (@reach_status Demo.one_chunk _ "doc2"%string "failed"%string 0%Z None
           (Some "b.txt"%string) Demo.failed_upload).
  - apply demo_one_chunk_reachable.
  - vm_compute. reflexivity.
Qed.

Lemma demo_emptied_reachable : reachable Demo.emptied [].
Proof.
  change (@nil entry)
    with (if true
          then spec_delete "doc1"
                 (spec_add (Demo.provider [1%R]) "doc1"
                    [Demo.chunk "cats are mammals" 0] [])
          else spec_add (Demo.provider [1%R]) "doc1"
                 [Demo.chunk "cats are mammals" 0] []).
  apply (@reach_delete Demo.completed _ "doc1"%string true Demo.emptied).
  - apply (@reach_status Demo.one_chunk _ "doc1"%string "completed"%string 1%Z
             (Some "2024-01-01T00:00:00"%string) None Demo.completed).
    + apply demo_one_chunk_reachable.
    + vm_compute. reflexivity.
  - vm_compute. reflexivity.
Qed.

(** Deleting the only document leaves a store without documents, on which
    every search is empty. *)
Example demo_emptied_has_no_documents :
  has_documents (mem Demo.emptied) = false
  /\ forall rt p query top_k document_id alpha,
      fst (search rt p query top_k document_id alpha Demo.emptied) = Ok [].
Proof.
  split; [reflexivity |].
  intros. rewrite search_no_chunks by reflexivity. reflexivity.
Qed.

(* ================================================================== *)
(** * Deleting a document *)

Lemma dict_get_del V (k : string) (d : dict V) : dict_get k (dict_del k d) = None.
Proof.
  induction d as [| [k' v] d IH]; simpl.
  - reflexivity.
  - destruct (String.eqb k k') eqn:E; [exact IH |]. simpl. rewrite E. exact IH.
Qed.

Lemma spec_delete_other document_id es :
  Forall (fun c => ChunkMeta.document_id c <> document_id)
         (map fst (spec_delete document_id es)).
Proof.
  apply Forall_forall. intros c Hc. apply in_map_iff in Hc.
  destruct Hc as (e & <- & He). apply filter_In in He. destruct He as [_ He].
  unfold other_document in He. apply Bool.negb_true_iff in He.
  apply String.eqb_neq. exact He.
Qed.

(** The part of the deletion contract the code keeps: on a reachable store,
    an unknown id changes nothing and returns [false]; a known id that owns
    at least one chunk returns [true], its status record and its chunk
    records are gone, the three structures are filtered to the surviving
    entries in order, both indexes are reset when nothing survives, and
    the disk holds the saved state.  The rebuild of the sparse index is
    taken to succeed, as it does when a surviving chunk holds a token. *)
Lemma delete_document_contract w es document_id :
  reachable w es ->
  (get_document_status document_id (mem w) = None ->
   delete_document document_id w = (Ok false, w))
  /\ (get_document_status document_id (mem w) <> None ->
      spec_delete document_id es <> es ->
      exists w',
        delete_document document_id w = (Ok true, w')
        /\ get_document_status document_id (mem w') = None
        /\ Forall (fun c => ChunkMeta.document_id c <> document_id)
                  (chunks_metadata (mem w'))
        /\ chunks_metadata (mem w') = map fst (spec_delete document_id es)
        /\ dense_rows (mem w') = map snd (spec_delete document_id es)
        /\ tokenized_corpus (mem w')
           = corpus_of (map fst (spec_delete document_id es))
        /\ (spec_delete document_id es = [] ->
            vectors (mem w') = None /\ bm25 (mem w') = None)
        /\ disk w' = saved_disk (mem w') (disk w)).
Proof.
  intros Hr. pose proof (reachable_aligned Hr) as Hal.
  destruct (delete_document_aligned w document_id Hal)
    as (b & w' & Hrun & Hcases).
  unfold get_document_status. unfold dict_mem in Hcases. split.
  - intros Hnone. rewrite Hnone in Hcases.
    destruct Hcases as [(-> & _ & ->) | [(_ & H & _) | (_ & H & _)]];
      [exact Hrun | discriminate | discriminate].
  - intros Hsome Hne.
    destruct Hcases as [(_ & H & _) | [(_ & _ & H & _) | (-> & _ & _ & Hm & Hd)]].
    + destruct (dict_get document_id (document_metadata (mem w)));
        [discriminate | congruence].
    + congruence.
    + exists w'. split; [exact Hrun |].
      split; [| split; [| split; [| split; [| split; [| split; [| exact Hd]]]]]];
        rewrite Hm; destruct Hal as (_ & _ & _ & ncols & Hv);
        unfold deleted_store, dense_rows;
        cbn [chunks_metadata document_metadata vectors bm25 tokenized_corpus].
      * apply dict_get_del.
      * apply spec_delete_other.
      * reflexivity.
      * destruct es as [| e0 es0]; [exfalso; apply Hne; reflexivity |].
        rewrite Hv. destruct (spec_delete document_id (e0 :: es0)); reflexivity.
      * reflexivity.
      * intros ->. split; reflexivity.
Qed.

(** C2, at the input where the code departs from it.  In a reachable world
    where ["doc2"] has a status record but owns no chunk (its upload
    failed), [delete_document "doc2"] removes the record from memory and
    returns [false]; it writes nothing, so the disk still holds the record
    and a fresh engine sees the document again. *)
Theorem delete_document_status_only :
  reachable Demo.failed_upload
    (spec_add (Demo.provider [1%R]) "doc1" [Demo.chunk "cats are mammals" 0] [])
  /\ get_document_status "doc2" (mem Demo.failed_upload) <> None
  /\ exists w',
      delete_document "doc2" Demo.failed_upload = (Ok false, w')
      /\ get_document_status "doc2" (mem w') = None
      /\ disk w' = disk Demo.failed_upload
      /\ log w' = log Demo.failed_upload
      /\ get_document_status "doc2" (mem (Demo.restart w')) <> None.
Proof.
  split; [apply demo_failed_upload_reachable |].
  split; [vm_compute; discriminate |].
  exists (snd (delete_document "doc2" Demo.failed_upload)).
  split; [vm_compute; reflexivity |].
  split; [vm_compute; reflexivity |].
  split; [vm_compute; reflexivity |].
  split; [vm_compute; reflexivity |].
  vm_compute. discriminate.
Qed.

(* ================================================================== *)
(** * Two documents: evaluating [search] *)

Lemma search_fst rt p query top_k document_id alpha w v vector_results :
  vectors (mem w) = Some v ->
  chunks_metadata (mem w) <> [] ->
  fst (vector_search p query v w) = Ok vector_results ->
  fst (search rt p query top_k document_id alpha w)
  = Ok (py_slice_to
          (sort_desc Hit.score
             (fuse rt (chunks_metadata (mem w)) document_id alpha vector_results
                (bm25_search rt (mem w) query)))
          top_k).
Proof.
  intros Hv Hc Hvs.
  destruct (@search_run rt p query top_k document_id alpha w v Hv Hc)
    as (vr & w1 & Hvs1 & Hrun).
  rewrite Hvs1 in Hvs. cbn [fst] in Hvs. inversion Hvs; subst vr.
  rewrite Hrun. reflexivity.
Qed.

Lemma topic_provider_contract : one_vector_per_text Demo.topic_provider.
Proof.
  intros texts r H. simpl in H. inversion H. apply length_map.
Qed.

Lemma sample_one_doc_run :
  add_chunks Demo.topic_provider "doc1" [Sample.rocks] Demo.fresh
  = (Ok tt, Sample.one_doc).
Proof. vm_compute. reflexivity. Qed.

Lemma sample_two_docs_run :
  add_chunks Demo.topic_provider "doc2" [Sample.cats; Sample.dogs] Sample.one_doc
  = (Ok tt, Sample.two_docs).
Proof. vm_compute. reflexivity. Qed.

Lemma sample_two_docs_reachable : reachable Sample.two_docs Sample.two_docs_entries.
Proof.
  unfold Sample.two_docs_entries.
  eapply reach_add; [| apply topic_provider_contract | apply sample_two_docs_run].
  eapply reach_add; [| apply topic_provider_contract | apply sample_one_doc_run].
  apply (reach_empty empty_disk []).
Qed.

Lemma sample_two_docs_mem :
  mem Sample.two_docs
  = {| vectors := Some (Mat 2 [[0; 1]; [1; 0]; [1; 0]]%R);
       chunks_metadata :=
         [new_chunk_meta "doc1" (0, Sample.rocks);
          new_chunk_meta "doc2" (0, Sample.cats);
          new_chunk_meta "doc2" (1, Sample.dogs)];
       document_metadata := [];
       bm25 := Some (map _tokenize ["rocks are minerals"; "cats are mammals";
                                    "dogs are mammals"]%string);
       tokenized_corpus :=
         map _tokenize ["rocks are minerals"; "cats are mammals";
                        "dogs are mammals"]%string |}.
Proof. vm_compute. reflexivity. Qed.

Lemma sample_cosine :
  cosine_scores (Mat 2 [[0; 1]; [1; 0]; [1; 0]]%R) [1%R; 0%R] = Ok [0; 1; 1]%R.
Proof.
  unfold cosine_scores, norm. cbn [dot].
  assert (Hx : sqrt (1 * 1 + (0 * 0 + 0)) = 1%R).
  { replace (1 * 1 + (0 * 0 + 0))%R with 1%R by lra. apply sqrt_1. }
  assert (Hy : sqrt (0 * 0 + (1 * 1 + 0)) = 1%R).
  { replace (0 * 0 + (1 * 1 + 0))%R with 1%R by lra. apply sqrt_1. }
  rewrite Hx. destruct (Rlt_dec 0 1) as [_ | Hn]; [| exfalso; lra].
  cbn [map length Nat.eqb dot]. rewrite Hx, Hy.
  destruct (Req_dec_T 1 0) as [Hz | _]; [exfalso; lra |].
  f_equal. repeat (apply f_equal2; [field |]). reflexivity.
Qed.

Lemma sample_dense query :
  fst (vector_search Demo.topic_provider query
         (Mat 2 [[0; 1]; [1; 0]; [1; 0]]%R) Sample.two_docs)
  = Ok [0; 1; 1]%R.
Proof.
  unfold vector_search. unfold_m. cbn [Demo.topic_provider embed_query].
  rewrite sample_cosine. reflexivity.
Qed.

Lemma sample_no_dense query :
  fst (vector_search Demo.failing_provider query
         (Mat 2 [[0; 1]; [1; 0]; [1; 0]]%R) Sample.two_docs)
  = Ok [].
Proof. reflexivity. Qed.

(** The overlap scorer on ["cats mammals"]: raw scores [0], [2] and [1]. *)
Lemma sample_sparse :
  bm25_search Demo.rt (mem Sample.two_docs) "cats mammals" = [0; 1; 1 / 2]%R.
Proof.
  rewrite sample_two_docs_mem. unfold bm25_search. cbn [bm25].
  change (bm25_get_scores Demo.rt _ (_tokenize "cats mammals"))
    with [0; 1 + 1; 1]%R.
  unfold py_max. cbn [fold_left map].
  rewrite (Rmax_right 0 (1 + 1)) by lra. rewrite (Rmax_left (1 + 1) 1) by lra.
  destruct (Req_dec_T (1 + 1) 0) as [Hz | _]; [exfalso; lra |].
  repeat (apply f_equal2; [field |]). reflexivity.
Qed.


(** Runs the fusion loop and the sort of [search] on concrete scores. *)
Ltac rank_hits :=
  unfold fuse; cbn [Demo.rt Sample.common_terms_rt set_iter keys length seq];
  unfold set_union; cbn [filter existsb Nat.eqb negb orb app flat_map];
  unfold fuse_one; cbn [nth_error nth truthy app];
  cbn [new_chunk_meta ChunkMeta.document_id String.eqb Ascii.eqb Bool.eqb negb
       andb app];
  unfold sort_desc;
  repeat (cbn [fold_right insert_desc Hit.score];
          match goal with
          | |- context [Rlt_dec ?a ?b] =>
              destruct (Rlt_dec a b); [try (exfalso; lra) | try (exfalso; lra)]
          end);
  reflexivity.



Ltac search_two_docs vr Hdense Hsparse :=
  rewrite (@search_fst _ _ _ _ _ _ _ (Mat 2 [[0; 1]; [1; 0]; [1; 0]]%R) vr);
    [| rewrite sample_two_docs_mem; reflexivity
     | rewrite sample_two_docs_mem; discriminate
     | apply Hdense];
  rewrite Hsparse, sample_two_docs_mem; cbn [chunks_metadata];
  f_equal; unfold py_slice_to;
  cbn [Z.leb Z.to_nat Pos.to_nat Pos.iter_op Nat.add];
  rank_hits.

(** Without a filter the best hit belongs to ["doc2"]. *)
Lemma sample_search_top1 :
  fst (search Demo.rt Demo.topic_provider "cats mammals" 1 None (7 / 10)
         Sample.two_docs)
  = Ok [Sample.hit_of "doc2" 0 Sample.cats 1 1].
Proof. search_two_docs [0; 1; 1]%R sample_dense sample_sparse. Qed.

(** With the filter ["doc1"] the one hit is the chunk of ["doc1"], whose
    fused score is the lowest of the three. *)
Lemma sample_search_doc1 :
  fst (search Demo.rt Demo.topic_provider "cats mammals" 1 (Some "doc1"%string)
         (7 / 10) Sample.two_docs)
  = Ok [Sample.hit_of "doc1" 0 Sample.rocks 0 0].
Proof. search_two_docs [0; 1; 1]%R sample_dense sample_sparse. Qed.

(** With a failing provider the ranking is the sparse one. *)
Lemma sample_search_sparse_only :
  fst (search Demo.rt Demo.failing_provider "cats mammals" 5 None (7 / 10)
         Sample.two_docs)
  = Ok [Sample.hit_of "doc2" 0 Sample.cats 0 1;
        Sample.hit_of "doc2" 1 Sample.dogs 0 (1 / 2);
        Sample.hit_of "doc1" 0 Sample.rocks 0 0].
Proof. search_two_docs (@nil R) sample_no_dense sample_sparse. Qed.


Lemma run_of_fst A (m : outcome A * World) (a : outcome A) :
  fst m = a -> m = (a, snd m).
Proof. intros <-. apply surjective_pairing. Qed.

(* ================================================================== *)
(** * Where the specification says more than the code does *)


(** C6, as stated, fails for the empty document id: [""] is treated like
    no filter, and hits of other documents are returned. *)
Lemma search_filter_empty_string :
  exists hits w' h,
    search Demo.rt (Demo.provider [(-1)%R]) "dogs" 5 (Some ""%string) (7 / 10)
           Demo.one_chunk
    = (Ok hits, w')
    /\ In h hits
    /\ ChunkMeta.document_id (Hit.meta h) <> ""%string.
Proof.
  exists [Demo.hit], Demo.queried, Demo.hit.
  split; [apply demo_search; reflexivity |].
  split; [left; reflexivity |].
  simpl. discriminate.
Qed.

(** C9, as stated, fails for the dense matrix: once the last document is
    deleted the matrix is uninitialized, the save leaves the old matrix
    file in place, and a fresh engine loads that old matrix. *)
Lemma reload_restores_stale_matrix :
  reachable Demo.emptied []
  /\ vectors (mem Demo.emptied) = None
  /\ vectors (mem (save_and_reload Demo.emptied)) = Some (Mat 1 [[1%R]]).
Proof.
  split; [apply demo_emptied_reachable |].
  split; vm_compute; reflexivity.
Qed.

(* ================================================================== *)
(** * The theorems at the example worlds *)

Lemma demo_rt_nonneg :
  forall corpus q x, In x (bm25_get_scores Demo.rt corpus q) -> (0 <= x)%R.
Proof.
  intros corpus q x Hx. simpl in Hx. apply in_map_iff in Hx.
  destruct Hx as (doc & <- & _). apply pos_INR.
Qed.

Lemma alignment_invariant_witness :
  reachable Demo.one_chunk
    (spec_add (Demo.provider [1%R]) "doc1" [Demo.chunk "cats are mammals" 0] [])
  /\ (length (chunks_metadata (mem Demo.one_chunk)) = row_count (mem Demo.one_chunk)
      /\ row_count (mem Demo.one_chunk)
         = length (tokenized_corpus (mem Demo.one_chunk))
      /\ chunks_metadata (mem Demo.one_chunk)
         = map fst (spec_add (Demo.provider [1%R]) "doc1"
                      [Demo.chunk "cats are mammals" 0] [])
      /\ dense_rows (mem Demo.one_chunk)
         = map snd (spec_add (Demo.provider [1%R]) "doc1"
                      [Demo.chunk "cats are mammals" 0] [])
      /\ tokenized_corpus (mem Demo.one_chunk)
         = map (fun e => _tokenize (ChunkMeta.text (fst e)))
               (spec_add (Demo.provider [1%R]) "doc1"
                  [Demo.chunk "cats are mammals" 0] [])).
Proof.
  split.
  - apply demo_one_chunk_reachable.
  - apply (@alignment_invariant Demo.one_chunk _ demo_one_chunk_reachable).
Defined.

Lemma add_chunks_embedding_failure_atomic_witness :
  In 0 (py_range_step (length [Demo.chunk "cats are mammals" 0]) batch_size)
  /\ embed_documents Demo.failing_provider
       (slice (map Chunk.text [Demo.chunk "cats are mammals" 0]) 0 (0 + batch_size))
     = Raise (ProviderError "unavailable")
  /\ exists j e' w',
      add_chunks Demo.failing_provider "doc1" [Demo.chunk "cats are mammals" 0]
                 Demo.one_chunk = (Raise e', w')
      /\ In j (py_range_step (length [Demo.chunk "cats are mammals" 0]) batch_size)
      /\ embed_documents Demo.failing_provider
           (slice (map Chunk.text [Demo.chunk "cats are mammals" 0]) j
                  (j + batch_size)) = Raise e'
      /\ mem w' = mem Demo.one_chunk
      /\ disk w' = disk Demo.one_chunk.
Proof.
  split; [left; reflexivity |]. split; [reflexivity |].
  apply (@add_chunks_embedding_failure_atomic Demo.failing_provider "doc1"
           [Demo.chunk "cats are mammals" 0] Demo.one_chunk 0
           (ProviderError "unavailable")).
  - left. reflexivity.
  - reflexivity.
Defined.

Lemma search_empty_store_witness :
  chunks_metadata (mem Demo.emptied) = []
  /\ search Demo.rt (Demo.provider [(-1)%R]) "dogs" 5 None (7 / 10) Demo.emptied
     = (Ok [], Demo.emptied).
Proof.
  split; [reflexivity |].
  apply (@search_empty_store Demo.rt (Demo.provider [(-1)%R]) "dogs" 5 None
           (7 / 10)%R Demo.emptied).
  reflexivity.
Defined.

Lemma search_fused_score_witness :
  search Demo.rt (Demo.provider [(-1)%R]) "dogs" 5 None (7 / 10) Demo.one_chunk
  = (Ok [Demo.hit], Demo.queried)
  /\ In Demo.hit [Demo.hit]
  /\ exists v vector_results idx,
      vectors (mem Demo.one_chunk) = Some v
      /\ fst (vector_search (Demo.provider [(-1)%R]) "dogs" v Demo.one_chunk)
         = Ok vector_results
      /\ nth_error (chunks_metadata (mem Demo.one_chunk)) idx
         = Some (Hit.meta Demo.hit)
      /\ Hit.vector_score Demo.hit = nth idx vector_results 0%R
      /\ Hit.bm25_score Demo.hit
         = nth idx (bm25_search Demo.rt (mem Demo.one_chunk) "dogs") 0%R
      /\ ((length vector_results <= idx)%nat -> Hit.vector_score Demo.hit = 0%R)
      /\ ((length (bm25_search Demo.rt (mem Demo.one_chunk) "dogs") <= idx)%nat ->
          Hit.bm25_score Demo.hit = 0%R)
      /\ Hit.score Demo.hit
         = (7 / 10 * Hit.vector_score Demo.hit
            + (1 - 7 / 10) * Hit.bm25_score Demo.hit)%R.
Proof.
  split; [apply demo_search; reflexivity |].
  split; [left; reflexivity |].
  apply (@search_fused_score Demo.rt (Demo.provider [(-1)%R]) "dogs" 5 None
           (7 / 10)%R Demo.one_chunk Demo.queried [Demo.hit] Demo.hit).
  - apply demo_search. reflexivity.
  - left. reflexivity.
Defined.


(** The filter at work: without it the best hit for the query belongs to
    ["doc2"]; with the filter ["doc1"] and [top_k = 1] the answer is the
    chunk of ["doc1"], which scores lowest. *)
Lemma search_filter_nonempty_id_witness :
  "doc1"%string <> ""%string
  /\ search Demo.rt Demo.topic_provider "cats mammals" 1 (Some "doc1"%string)
            (7 / 10) Sample.two_docs
     = (Ok [Sample.hit_of "doc1" 0 Sample.rocks 0 0],
        snd (search Demo.rt Demo.topic_provider "cats mammals" 1
               (Some "doc1"%string) (7 / 10) Sample.two_docs))
  /\ fst (search Demo.rt Demo.topic_provider "cats mammals" 1 None (7 / 10)
            Sample.two_docs)
     = Ok [Sample.hit_of "doc2" 0 Sample.cats 1 1]
  /\ ((forall h, In h [Sample.hit_of "doc1" 0 Sample.rocks 0 0] ->
                 ChunkMeta.document_id (Hit.meta h) = "doc1"%string)
      /\ match vectors (mem Sample.two_docs) with
         | None => [Sample.hit_of "doc1" 0 Sample.rocks 0 0] = []
         | Some v =>
             match chunks_metadata (mem Sample.two_docs) with
             | [] => [Sample.hit_of "doc1" 0 Sample.rocks 0 0] = []
             | _ :: _ =>
                 exists vector_results,
                   fst (vector_search Demo.topic_provider "cats mammals" v
                          Sample.two_docs) = Ok vector_results
                   /\ [Sample.hit_of "doc1" 0 Sample.rocks 0 0]
                      = py_slice_to
                          (sort_desc Hit.score
                             (filter (of_document "doc1")
                                (fuse Demo.rt
                                   (chunks_metadata (mem Sample.two_docs)) None
                                   (7 / 10) vector_results
                                   (bm25_search Demo.rt (mem Sample.two_docs)
                                      "cats mammals"))))
                          1
             end
         end).
Proof.
  split; [discriminate |].
  split; [apply run_of_fst, sample_search_doc1 |].
  split; [apply sample_search_top1 |].
  apply (@search_filter_nonempty_id Demo.rt Demo.topic_provider "cats mammals" 1
           "doc1" (7 / 10)%R Sample.two_docs
           (snd (search Demo.rt Demo.topic_provider "cats mammals" 1
                   (Some "doc1"%string) (7 / 10) Sample.two_docs))
           [Sample.hit_of "doc1" 0 Sample.rocks 0 0]).
  - discriminate.
  - apply run_of_fst, sample_search_doc1.
Defined.

(** The ranking at work: three candidates, the two mammal chunks tie on the
    fused score and come in the order of their positions, and [top_k = 2]
    cuts the third candidate off. *)
Lemma search_ranking_witness :
  (forall l, set_iter Demo.rt l = l)
  /\ (0 <= 2)%Z
  /\ search Demo.rt Demo.topic_provider "mammal" 2 None (7 / 10) Demo.three_chunks
     = (Ok [Demo.mammal_hit 0 "cats are mammals";
            Demo.mammal_hit 1 "dogs are mammals"],
        snd (search Demo.rt Demo.topic_provider "mammal" 2 None (7 / 10)
               Demo.three_chunks))
  /\ exists ranked : list (nat * Hit.t),
      Permutation ranked
        (search_candidates Demo.rt Demo.topic_provider "mammal" None (7 / 10)
           Demo.three_chunks)
      /\ StronglySorted ranked_before ranked
      /\ [Demo.mammal_hit 0 "cats are mammals"; Demo.mammal_hit 1 "dogs are mammals"]
         = map snd (firstn (Z.to_nat 2) ranked)
      /\ length [Demo.mammal_hit 0 "cats are mammals";
                 Demo.mammal_hit 1 "dogs are mammals"]
         = Nat.min (Z.to_nat 2)
             (length (search_candidates Demo.rt Demo.topic_provider "mammal" None
                        (7 / 10) Demo.three_chunks)).
Proof.
  split; [reflexivity |]. split; [lia |].
  split; [apply run_of_fst, search_mammal_scenario |].
  apply (@search_ranking Demo.rt Demo.topic_provider "mammal" 2 None (7 / 10)%R
           Demo.three_chunks
           (snd (search Demo.rt Demo.topic_provider "mammal" 2 None (7 / 10)
                   Demo.three_chunks))
           [Demo.mammal_hit 0 "cats are mammals";
            Demo.mammal_hit 1 "dogs are mammals"]).
  - reflexivity.
  - lia.
  - apply run_of_fst, search_mammal_scenario.
Defined.

Lemma save_reload_roundtrip_witness :
  store_inv (mem Demo.one_chunk)
  /\ (fst (_save_to_disk Demo.one_chunk) = Ok tt
      /\ fst (init (snd (_save_to_disk Demo.one_chunk))) = Ok tt
      /\ chunks_metadata (mem (save_and_reload Demo.one_chunk))
         = chunks_metadata (mem Demo.one_chunk)
      /\ document_metadata (mem (save_and_reload Demo.one_chunk))
         = document_metadata (mem Demo.one_chunk)
      /\ (vectors (mem Demo.one_chunk) <> None ->
          vectors (mem (save_and_reload Demo.one_chunk))
          = vectors (mem Demo.one_chunk))
      /\ list_documents (mem (save_and_reload Demo.one_chunk))
         = list_documents (mem Demo.one_chunk)
      /\ forall rt p query top_k document_id alpha,
          fst (search rt p query top_k document_id alpha
                 (save_and_reload Demo.one_chunk))
          = fst (search rt p query top_k document_id alpha Demo.one_chunk)).
Proof.
  split.
  - apply (reachable_store_inv demo_one_chunk_reachable).
  - apply (@save_reload_roundtrip Demo.one_chunk).
    apply (reachable_store_inv demo_one_chunk_reachable).
Defined.

(* ================================================================== *)
(** * Document status records *)

Lemma dict_get_set_same V (k : string) (v : V) (d : dict V) :
  dict_get k (dict_set k v d) = Some v.
Proof.
  induction d as [| [k' v'] d IH]; simpl.
  - now rewrite String.eqb_refl.
  - destruct (String.eqb k k') eqn:E; simpl.
    + now rewrite String.eqb_refl.
    + rewrite E. exact IH.
Qed.

Lemma dict_get_set_other V (k k' : string) (v : V) (d : dict V) :
  k' <> k -> dict_get k' (dict_set k v d) = dict_get k' d.
Proof.
  intros Hne. induction d as [| [k0 v0] d IH]; simpl.
  - apply String.eqb_neq in Hne. now rewrite Hne.
  - destruct (String.eqb k k0) eqn:E; simpl.
    + apply String.eqb_eq in E. subst k0.
      apply String.eqb_neq in Hne. now rewrite Hne.
    + destruct (String.eqb k' k0); [reflexivity | exact IH].
Qed.

Lemma dict_get_del_other V (k k' : string) (d : dict V) :
  k' <> k -> dict_get k' (dict_del k d) = dict_get k' d.
Proof.
  intros Hne. induction d as [| [k0 v0] d IH]; simpl.
  - reflexivity.
  - destruct (String.eqb k k0) eqn:E; simpl.
    + apply String.eqb_eq in E. subst k0.
      apply String.eqb_neq in Hne. rewrite Hne. exact IH.
    + destruct (String.eqb k' k0); [reflexivity | exact IH].
Qed.

(** [update_document_status] always succeeds; this is the world it leaves. *)
Lemma update_document_status_run document_id status chunks_count processed_at
    filename w :
  exists w',
    update_document_status document_id status chunks_count processed_at filename w
    = (Ok tt, w')
    /\ mem w'
       = set_document_metadata
           (dict_set document_id
              (status_record document_id status chunks_count processed_at
                 filename (mem w))
              (document_metadata (mem w))) (mem w)
    /\ disk w' = saved_disk (mem w') (disk w).
Proof.
  unfold update_document_status, status_record.
  unfold bind at 1. unfold get_store at 1. cbv beta iota. unfold bind at 1.
  destruct (dict_get document_id (document_metadata (mem w))) as [old |];
    unfold modify_store at 1; cbv beta iota;
    match goal with
    | |- context [_save_to_disk ?W] =>
        destruct (save_disk W) as (w1 & Hs & Hm & Hd)
    end;
    exists w1; rewrite Hs, Hd, Hm; repeat split; reflexivity.
Qed.

(** X1. [update_document_status] always succeeds and upserts: afterwards
    [get_document_status] returns a record with the given status, chunk
    count and timestamp; its filename is the given one when that is
    non-empty, else the old record's, else the filename of the first chunk
    of the document, else ["unknown"]; the chunk and document files on disk
    hold the in-memory state. *)
Theorem update_document_status_upsert :
  forall (document_id status : string) (chunks_count : Z)
         (processed_at filename : option string) (w : World),
  exists (w' : World) (rec : DocMeta.t),
    update_document_status document_id status chunks_count processed_at filename w
    = (Ok tt, w')
    /\ get_document_status document_id (mem w') = Some rec
    /\ DocMeta.status rec = status
    /\ DocMeta.chunks_count rec = chunks_count
    /\ DocMeta.processed_at rec = processed_at
    /\ DocMeta.filename rec
       = match truthy filename, get_document_status document_id (mem w) with
         | Some f, _ => f
         | None, Some old => DocMeta.filename old
         | None, None =>
             match chunks_of_document document_id (mem w) with
             | chunk :: _ => ChunkMeta.filename chunk
             | [] => "unknown"%string
             end
         end
    /\ document_metadata_json (disk w') = Stored (document_metadata (mem w'))
    /\ chunks_metadata_pkl (disk w') = Stored (chunks_metadata (mem w')).
Proof.
  intros document_id status chunks_count processed_at filename w.
  destruct (update_document_status_run document_id status chunks_count
              processed_at filename w) as (w' & Hrun & Hm & Hd).
  exists w', (status_record document_id status chunks_count processed_at
                filename (mem w)).
  split; [exact Hrun |]. split.
  { unfold get_document_status. rewrite Hm. cbn [document_metadata set_document_metadata].
    apply dict_get_set_same. }
  unfold status_record, get_document_status, chunks_of_document.
  assert (Hfind : forall l,
             match find (fun chunk =>
                           String.eqb (ChunkMeta.document_id chunk) document_id) l with
             | Some chunk => ChunkMeta.filename chunk
             | None => "unknown"%string
             end
             = match filter (fun c =>
                               String.eqb (ChunkMeta.document_id c) document_id) l with
               | chunk :: _ => ChunkMeta.filename chunk
               | [] => "unknown"%string
               end).
  { induction l as [| c l IH]; simpl; [reflexivity |].
    destruct (String.eqb (ChunkMeta.document_id c) document_id); [reflexivity | exact IH]. }
  rewrite <- Hfind.
  destruct (dict_get document_id (document_metadata (mem w))) as [old |];
    cbn [DocMeta.status DocMeta.chunks_count DocMeta.processed_at DocMeta.filename];
    destruct (truthy filename);
    (do 4 (split; [reflexivity |]));
    rewrite Hd; unfold saved_disk; split; reflexivity.
Qed.

(** X2. [update_document_status] touches one record only: the status
    records of all other documents, the chunk records, the dense matrix and
    the sparse corpus are unchanged; the number of listed documents grows by
    one when the id was unknown and stays the same otherwise. *)
Theorem update_document_status_frame_others :
  forall (document_id status : string) (chunks_count : Z)
         (processed_at filename : option string) (w w' : World),
    update_document_status document_id status chunks_count processed_at filename w
    = (Ok tt, w') ->
    (forall d, d <> document_id ->
               get_document_status d (mem w') = get_document_status d (mem w))
    /\ chunks_metadata (mem w') = chunks_metadata (mem w)
    /\ vectors (mem w') = vectors (mem w)
    /\ tokenized_corpus (mem w') = tokenized_corpus (mem w)
    /\ length (list_documents (mem w'))
       = match get_document_status document_id (mem w) with
         | Some _ => length (list_documents (mem w))
         | None => S (length (list_documents (mem w)))
         end.
Proof.
  intros document_id status chunks_count processed_at filename w w' Hrun.
  destruct (update_document_status_run document_id status chunks_count
              processed_at filename w) as (w2 & Hrun2 & Hm & _).
  rewrite Hrun in Hrun2. inversion Hrun2; subst w2. clear Hrun2.
  rewrite Hm. unfold get_document_status, list_documents, dict_values.
  cbn [document_metadata chunks_metadata vectors tokenized_corpus
       set_document_metadata].
  split; [intros d Hd; apply dict_get_set_other; exact Hd |].
  do 3 (split; [reflexivity |]).
  rewrite !length_map. clear Hm Hrun.
  generalize (status_record document_id status chunks_count processed_at
                filename (mem w)) as rec.
  intros rec. induction (document_metadata (mem w)) as [| [k v] d IH]; simpl.
  - reflexivity.
  - destruct (String.eqb document_id k); simpl; [reflexivity |].
    rewrite IH. destruct (dict_get document_id d); reflexivity.
Qed.

Lemma dict_get_in V (k : string) (v : V) (d : dict V) :
  dict_get k d = Some v -> In (k, v) d.
Proof.
  induction d as [| [k' v'] d IH]; simpl; [discriminate |].
  destruct (String.eqb k k') eqn:E.
  - apply String.eqb_eq in E. subst k'. intros H. inversion H. now left.
  - intros H. right. apply IH, H.
Qed.

Lemma dict_in_get V (k : string) (v : V) (d : dict V) :
  NoDup (map fst d) -> In (k, v) d -> dict_get k d = Some v.
Proof.
  induction d as [| [k' v'] d IH]; simpl; intros Hnd Hin; [destruct Hin |].
  inversion Hnd as [| x l Hnotin Hnd']; subst.
  destruct Hin as [E | Hin].
  - inversion E; subst. now rewrite String.eqb_refl.
  - destruct (String.eqb k k') eqn:E.
    + apply String.eqb_eq in E. subst k'. exfalso. apply Hnotin.
      apply in_map_iff. exists (k, v). split; [reflexivity | exact Hin].
    + apply IH; assumption.
Qed.

Lemma dict_del_in V (k : string) (d : dict V) kv :
  In kv (dict_del k d) -> In kv d.
Proof.
  induction d as [| [k' v'] d IH]; simpl; [tauto |].
  destruct (String.eqb k k'); simpl; intros H.
  - right. apply IH, H.
  - destruct H as [H | H]; [now left | right; apply IH, H].
Qed.

Lemma dict_del_nodup V (k : string) (d : dict V) :
  NoDup (map fst d) -> NoDup (map fst (dict_del k d)).
Proof.
  induction d as [| [k' v'] d IH]; simpl; intros Hnd; [constructor |].
  inversion Hnd as [| x l Hnotin Hnd']; subst.
  destruct (String.eqb k k'); simpl; [apply IH, Hnd' |].
  constructor; [| apply IH, Hnd'].
  intros Hin. apply Hnotin. apply in_map_iff in Hin.
  destruct Hin as (kv & Hk & Hin). apply in_map_iff. exists kv.
  split; [exact Hk | eapply dict_del_in, Hin].
Qed.

Lemma dict_set_in V (k : string) (v : V) (d : dict V) kv :
  In kv (dict_set k v d) -> kv = (k, v) \/ In kv d.
Proof.
  induction d as [| [k' v'] d IH]; simpl.
  - intros [H | []]. now left.
  - destruct (String.eqb k k'); simpl; intros [H | H].
    + now left.
    + right. now right.
    + right. now left.
    + destruct (IH H) as [E | Hin]; [now left | right; now right].
Qed.

Lemma dict_set_nodup V (k : string) (v : V) (d : dict V) :
  NoDup (map fst d) -> NoDup (map fst (dict_set k v d)).
Proof.
  induction d as [| [k' v'] d IH]; simpl; intros Hnd.
  - constructor; [intros [] | constructor].
  - inversion Hnd as [| x l Hnotin Hnd']; subst.
    destruct (String.eqb k k') eqn:E; simpl.
    + apply String.eqb_eq in E. subst k'. constructor; assumption.
    + constructor; [| apply IH, Hnd'].
      intros Hin. apply in_map_iff in Hin. destruct Hin as (kv & Hk & Hin).
      apply dict_set_in in Hin. destruct Hin as [-> | Hin].
      * simpl in Hk. subst k'. rewrite String.eqb_refl in E. discriminate.
      * apply Hnotin. apply in_map_iff. exists kv. split; assumption.
Qed.

Lemma status_record_id document_id status chunks_count processed_at filename s :
  docs_inv (document_metadata s) ->
  DocMeta.document_id
    (status_record document_id status chunks_count processed_at filename s)
  = document_id.
Proof.
  intros [_ Hid]. unfold status_record.
  destruct (dict_get document_id (document_metadata s)) as [old |] eqn:E;
    [| reflexivity].
  apply dict_get_in in E. rewrite Forall_forall in Hid.
  apply (Hid _ E).
Qed.

Lemma docs_inv_set document_id rec m :
  docs_inv m -> DocMeta.document_id rec = document_id ->
  docs_inv (dict_set document_id rec m).
Proof.
  intros [Hnd Hid] Hrec. split; [apply dict_set_nodup, Hnd |].
  rewrite Forall_forall in *. intros kv Hin.
  apply dict_set_in in Hin. destruct Hin as [-> | Hin]; [exact Hrec | apply Hid, Hin].
Qed.

Lemma docs_inv_del document_id m : docs_inv m -> docs_inv (dict_del document_id m).
Proof.
  intros [Hnd Hid]. split; [apply dict_del_nodup, Hnd |].
  rewrite Forall_forall in *. intros kv Hin. apply Hid. eapply dict_del_in, Hin.
Qed.

Lemma add_chunks_keeps_documents p document_id chunks w w' :
  add_chunks p document_id chunks w = (Ok tt, w') ->
  document_metadata (mem w') = document_metadata (mem w).
Proof.
  intros Hrun. destruct chunks as [| c cs].
  - inversion Hrun. reflexivity.
  - destruct (add_chunks_ok p document_id w (chunks := c :: cs)) with (w' := w')
      as (_ & arr & nv & _ & _ & Hmem & _); [discriminate | exact Hrun |].
    rewrite Hmem. reflexivity.
Qed.

Lemma reachable_docs_inv w es : reachable w es -> docs_inv (document_metadata (mem w)).
Proof.
  induction 1 as [d l | w es p document_id chunks w' Hr IH Hp Hrun
                 | w es document_id deleted w' Hr IH Hrun
                 | w es document_id status chunks_count processed_at filename w'
                     Hr IH Hrun].
  - split; constructor.
  - rewrite (add_chunks_keeps_documents _ _ _ _ Hrun). exact IH.
  - destruct (delete_document_aligned w document_id (reachable_aligned Hr))
      as (b & w2 & Hrun2 & Hcases).
    rewrite Hrun in Hrun2. inversion Hrun2; subst b w2. clear Hrun2.
    destruct Hcases as [(_ & _ & ->) | [(_ & _ & _ & Hm & _) | (_ & _ & _ & Hm & _)]].
    + exact IH.
    + rewrite Hm. apply docs_inv_del, IH.
    + rewrite Hm. apply docs_inv_del, IH.
  - destruct (update_document_status_run document_id status chunks_count
                processed_at filename w) as (w2 & Hrun2 & Hm & _).
    rewrite Hrun in Hrun2. inversion Hrun2; subst w2. rewrite Hm.
    apply docs_inv_set; [exact IH | apply status_record_id, IH].
Qed.

(** X3. In every reachable world no document id is listed twice, a lookup
    by id returns a record carrying that id, and every listed record is the
    one a lookup by its id returns. *)
Theorem document_records_consistent :
  forall (w : World) (es : list entry),
    reachable w es ->
    NoDup (map DocMeta.document_id (list_documents (mem w)))
    /\ (forall d rec,
          get_document_status d (mem w) = Some rec -> DocMeta.document_id rec = d)
    /\ (forall rec,
          In rec (list_documents (mem w)) ->
          get_document_status (DocMeta.document_id rec) (mem w) = Some rec).
Proof.
  intros w es Hr. destruct (reachable_docs_inv Hr) as [Hnd Hid].
  unfold list_documents, dict_values, get_document_status.
  rewrite Forall_forall in Hid.
  assert (Hkeys : map DocMeta.document_id (map snd (document_metadata (mem w)))
                  = map fst (document_metadata (mem w))).
  { rewrite map_map. apply map_ext_in. intros kv Hkv. apply Hid, Hkv. }
  split; [rewrite Hkeys; exact Hnd |]. split.
  - intros d rec Hget. apply dict_get_in in Hget. apply (Hid _ Hget).
  - intros rec Hin. apply in_map_iff in Hin. destruct Hin as ([k v] & <- & Hin).
    pose proof (Hid _ Hin) as Hk. cbn [fst snd] in *. rewrite Hk.
    apply dict_in_get; assumption.
Qed.

(* ================================================================== *)
(** * More about [search] *)

Lemma vector_search_no_signal p query v w :
  no_dense_signal p query (mem w) ->
  vectors (mem w) = Some v ->
  fst (vector_search p query v w) = Ok [].
Proof.
  intros Hno Hv. unfold vector_search. unfold_m.
  destruct Hno as [(e & He) | (ncols & rows & emb & Hv' & He & Hlen)];
    rewrite He; simpl; [reflexivity |].
  rewrite Hv in Hv'. inversion Hv'; subst v. unfold cosine_scores.
  assert (Hl : length (if Rlt_dec 0 (norm emb)
                       then map (fun x => (x / norm emb)%R) emb else emb)
               = length emb)
    by (destruct (Rlt_dec 0 (norm emb)); [apply length_map | reflexivity]).
  rewrite Hl. destruct (ncols =? length emb) eqn:E; [| reflexivity].
  apply Nat.eqb_eq in E. congruence.
Qed.

(** X4. When the provider fails on the query, or answers with a vector of
    another width than the stored matrix, [search] still answers, from the
    sparse path alone: on a store with a matrix and chunk records the
    answer is the ranked and truncated fusion of an empty dense result with
    the sparse scores, so every hit has dense component [0] and fused score
    [(1 - alpha) * sparse]; on any other store it is empty. *)
Theorem search_without_dense_signal :
  forall (rt : Runtime) (p : Provider) (query : string) (top_k : Z)
         (document_id : option string) (alpha : R) (w : World),
    no_dense_signal p query (mem w) ->
    exists (hits : list Hit.t) (w' : World),
      search rt p query top_k document_id alpha w = (Ok hits, w')
      /\ match vectors (mem w) with
         | None => hits = []
         | Some _ =>
             match chunks_metadata (mem w) with
             | [] => hits = []
             | _ :: _ =>
                 hits = py_slice_to
                          (sort_desc Hit.score
                             (fuse rt (chunks_metadata (mem w)) document_id alpha
                                [] (bm25_search rt (mem w) query)))
                          top_k
             end
         end
      /\ forall h, In h hits ->
           Hit.vector_score h = 0%R
           /\ Hit.score h = ((1 - alpha) * Hit.bm25_score h)%R.
Proof.
  intros rt p query top_k document_id alpha w Hno.
  destruct (search_total rt p query top_k document_id alpha w)
    as (hits & w' & Hrun & _ & _).
  exists hits, w'. split; [exact Hrun |]. split.
  - destruct (vectors (mem w)) as [v |] eqn:Hv.
    + destruct (chunks_metadata (mem w)) as [| c cs] eqn:Hc.
      * rewrite search_no_chunks in Hrun by exact Hc.
        inversion Hrun. reflexivity.
      * destruct (@search_run rt p query top_k document_id alpha w v Hv)
          as (vr & w1 & Hvs & Hrun1); [rewrite Hc; discriminate |].
        rewrite Hrun in Hrun1. inversion Hrun1; subst hits w1.
        pose proof (vector_search_no_signal _ Hno Hv) as Hnone.
        rewrite Hvs in Hnone. cbn [fst] in Hnone. inversion Hnone; subst vr.
        rewrite Hc. reflexivity.
    + unfold search in Hrun. unfold bind, get_store in Hrun.
      rewrite Hv in Hrun. inversion Hrun. reflexivity.
  - intros h Hin.
    destruct (@search_hit_origin rt p query top_k document_id alpha w hits w' h
                Hrun Hin)
      as (v & vr & idx & Hv & Hvs & Hone).
    rewrite (vector_search_no_signal _ Hno Hv) in Hvs. inversion Hvs; subst vr.
    apply fuse_one_spec in Hone. destruct Hone as (_ & _ & Hvsc & _ & Hsc).
    assert (Hz : Hit.vector_score h = 0%R)
      by (rewrite Hvsc; destruct idx; reflexivity).
    split; [exact Hz |]. rewrite Hsc, Hz. lra.
Qed.

Lemma vector_search_log p query v w :
  log (snd (vector_search p query v w)) = log w ++ [EvEmbedQuery query].
Proof.
  unfold vector_search. unfold_m.
  destruct (embed_query p query) as [emb | e]; simpl; [| reflexivity].
  destruct (cosine_scores v emb); reflexivity.
Qed.

(** X5. [search] never raises and never changes the store or the disk,
    whatever the provider and the scorer do; it calls the provider at most
    once, and not at all when it returns early. *)
Theorem search_is_read_only :
  forall (rt : Runtime) (p : Provider) (query : string) (top_k : Z)
         (document_id : option string) (alpha : R) (w : World),
  exists (hits : list Hit.t) (w' : World),
    search rt p query top_k document_id alpha w = (Ok hits, w')
    /\ mem w' = mem w
    /\ disk w' = disk w
    /\ (log w' = log w
        \/ (has_documents (mem w) = true
            /\ log w' = log w ++ [EvEmbedQuery query])).
Proof.
  intros rt p query top_k document_id alpha w.
  unfold search, has_documents. unfold bind at 1. unfold get_store at 1.
  cbv beta iota.
  destruct (vectors (mem w)) as [v |].
  - destruct (chunks_metadata (mem w)) as [| c cs].
    + eexists _, _. repeat split. left. reflexivity.
    + destruct (vector_search_total p query v w) as (vr & w1 & Hvs & Hm & Hd).
      pose proof (vector_search_log p query v w) as Hl. rewrite Hvs in Hl.
      unfold bind. rewrite Hvs. unfold ret.
      eexists _, _. repeat split; eauto.
  - eexists _, _. repeat split. left. reflexivity.
Qed.

Lemma search_as_prefix rt p query top_k document_id alpha w hits w' :
  (forall l, set_iter rt l = l) ->
  search rt p query top_k document_id alpha w = (Ok hits, w') ->
  exists n,
    hits = map snd
             (firstn n
                (sort_desc (fun a => Hit.score (snd a))
                   (search_candidates rt p query document_id alpha w))).
Proof.
  intros Hiter Hrun. unfold search_candidates.
  destruct (vectors (mem w)) as [v |] eqn:Hv.
  - destruct (chunks_metadata (mem w)) as [| c cs] eqn:Hc.
    + rewrite search_no_chunks in Hrun by exact Hc.
      inversion Hrun. exists 0. reflexivity.
    + destruct (@search_run rt p query top_k document_id alpha w v Hv)
        as (vr & w1 & Hvs & Hrun1); [rewrite Hc; discriminate |].
      rewrite Hrun in Hrun1. inversion Hrun1; subst hits w1. clear Hrun1.
      rewrite Hvs. cbn [fst]. rewrite Hc.
      unfold py_slice_to.
      match goal with
      | |- context [if ?b then firstn ?n1 ?l else firstn ?n2 ?l] =>
          exists (if b then n1 else n2);
          replace (if b then firstn n1 l else firstn n2 l)
            with (firstn (if b then n1 else n2) l) by (destruct b; reflexivity)
      end.
      rewrite <- firstn_map. f_equal.
      rewrite (sort_desc_map snd Hit.score). f_equal.
      rewrite indexed_candidates_hits. unfold fuse.
      rewrite Hiter, set_union_keys. reflexivity.
  - unfold search in Hrun. unfold bind, get_store in Hrun.
    rewrite Hv in Hrun. inversion Hrun. exists 0. reflexivity.
Qed.

Lemma ascending_nodup (l : list (nat * Hit.t)) :
  StronglySorted (fun a b => fst a < fst b) l -> NoDup (map fst l).
Proof.
  induction 1 as [| a l Hs IH Ha]; simpl; constructor; [| exact IH].
  intros Hin. apply in_map_iff in Hin. destruct Hin as (b & Hb & Hin).
  rewrite Forall_forall in Ha. specialize (Ha b Hin). lia.
Qed.

Lemma firstn_nodup A (n : nat) (l : list A) : NoDup l -> NoDup (firstn n l).
Proof.
  revert l. induction n as [| n IH]; intros [| x l] H; simpl; try constructor.
  - inversion H; subst. intros Hin. apply firstn_incl in Hin. contradiction.
  - inversion H; subst. apply IH. assumption.
Qed.

Lemma search_candidates_origin rt p query document_id alpha w idx h :
  In (idx, h) (search_candidates rt p query document_id alpha w) ->
  nth_error (chunks_metadata (mem w)) idx = Some (Hit.meta h).
Proof.
  unfold search_candidates.
  destruct (vectors (mem w)) as [v |]; [| intros []].
  destruct (chunks_metadata (mem w)) as [| c cs] eqn:Hc; [intros [] |].
  unfold indexed_candidates. intros Hin. apply in_flat_map in Hin.
  destruct Hin as (i & _ & Hin). apply in_map_iff in Hin.
  destruct Hin as (h' & E & Hin). inversion E; subst i h'.
  apply fuse_one_spec in Hin. apply Hin.
Qed.

Lemma search_candidates_ascending rt p query document_id alpha w :
  StronglySorted (fun a b : nat * Hit.t => fst a < fst b)
    (search_candidates rt p query document_id alpha w).
Proof.
  unfold search_candidates.
  destruct (vectors (mem w)); [| constructor].
  destruct (chunks_metadata (mem w)); [constructor |].
  apply indexed_candidates_ascending.
Qed.

(** X6. With a [set] of chunk positions iterated in ascending order, the
    hits of a [search] answer come from pairwise distinct chunk positions,
    each carries the stored record of its position unchanged, and there are
    never more hits than stored chunk records, whatever [top_k] is. *)
Theorem search_hits_distinct :
  forall (rt : Runtime) (p : Provider) (query : string) (top_k : Z)
         (document_id : option string) (alpha : R) (w w' : World)
         (hits : list Hit.t),
    (forall l, set_iter rt l = l) ->
    search rt p query top_k document_id alpha w = (Ok hits, w') ->
    exists idxs : list nat,
      NoDup idxs
      /\ Forall2 (fun idx h =>
                    nth_error (chunks_metadata (mem w)) idx = Some (Hit.meta h))
                 idxs hits
      /\ length hits <= length (chunks_metadata (mem w)).
Proof.
  intros rt p query top_k document_id alpha w w' hits Hiter Hrun.
  destruct (@search_as_prefix rt p query top_k document_id alpha w hits w' Hiter Hrun)
    as (n & ->).
  set (ranked := sort_desc (fun a => Hit.score (snd a))
                   (search_candidates rt p query document_id alpha w)).
  assert (Hperm : Permutation ranked
                    (search_candidates rt p query document_id alpha w))
    by apply sort_desc_perm.
  assert (Hnd : NoDup (map fst (firstn n ranked))).
  { rewrite <- firstn_map. apply firstn_nodup.
    apply (Permutation_NoDup (Permutation_map fst (Permutation_sym Hperm))).
    apply ascending_nodup, search_candidates_ascending. }
  assert (Horigin : forall a, In a (firstn n ranked) ->
                      nth_error (chunks_metadata (mem w)) (fst a)
                      = Some (Hit.meta (snd a))).
  { intros [idx h] Hin. apply firstn_incl in Hin.
    apply (Permutation_in _ Hperm) in Hin.
    apply (@search_candidates_origin rt p query document_id alpha w idx h Hin). }
  exists (map fst (firstn n ranked)). split; [exact Hnd |]. split.
  - clear Hnd. induction (firstn n ranked) as [| a l IH]; simpl; constructor.
    + apply Horigin. now left.
    + apply IH. intros b Hb. apply Horigin. now right.
  - rewrite length_map, <- (length_map fst).
    apply Nat.le_trans with (length (seq 0 (length (chunks_metadata (mem w)))));
      [| rewrite length_seq; apply Nat.le_refl].
    apply NoDup_incl_length; [exact Hnd |].
    intros idx Hin. apply in_map_iff in Hin. destruct Hin as (a & <- & Ha).
    apply in_seq. specialize (Horigin a Ha).
    assert (fst a < length (chunks_metadata (mem w)))
      by (apply nth_error_Some; congruence).
    lia.
Qed.

(* ================================================================== *)
(** * More about [add_chunks] *)

(** A failing [add_chunks] leaves the store and the disk as they were,
    whichever step failed. *)
Lemma add_chunks_raise_frame p document_id chunks w e w' :
  add_chunks p document_id chunks w = (Raise e, w') ->
  mem w' = mem w /\ disk w' = disk w.
Proof.
  intros Hrun. destruct chunks as [| c cs]; [discriminate |].
  unfold add_chunks in Hrun. rewrite try_except_reraise in Hrun.
  set (texts := map Chunk.text (c :: cs)) in *. clearbody texts.
  unfold bind at 1 in Hrun.
  pose proof (embed_batches_frame p texts
                (py_range_step (length texts) batch_size) [] w) as [Hm0 Hd0].
  destruct (embed_batches p texts (py_range_step (length texts) batch_size) [] w)
    as [[embs | e0] w0] eqn:Hloop; simpl in Hm0, Hd0.
  2:{ inversion Hrun; subst. split; assumption. }
  cbv beta iota in Hrun.
  unfold bind at 1 in Hrun. unfold lift at 1 in Hrun.
  destruct (np_array embs) as [arr | e1]; cbv beta iota in Hrun.
  2:{ inversion Hrun; subst. split; assumption. }
  unfold bind at 1 in Hrun. unfold get_store at 1 in Hrun.
  cbv beta iota in Hrun. unfold bind at 1 in Hrun.
  destruct (vectors (mem w0)) as [v |].
  - unfold lift at 1 in Hrun. destruct (np_vstack v arr) as [nv | e2];
      cbv beta iota in Hrun.
    + unfold bind, modify_store in Hrun. simpl in Hrun.
      match type of Hrun with
      | _save_to_disk ?W = _ => destruct (save_disk W) as (w1 & Hs & _)
      end.
      rewrite Hs in Hrun. discriminate.
    + inversion Hrun; subst. split; assumption.
  - unfold ret at 1 in Hrun. cbv beta iota in Hrun.
    unfold bind, modify_store in Hrun. simpl in Hrun.
    match type of Hrun with
    | _save_to_disk ?W = _ => destruct (save_disk W) as (w1 & Hs & _)
    end.
    rewrite Hs in Hrun. discriminate.
Qed.

(** X7. A successful [add_chunks] appends: the old chunk records and corpus
    entries stay in place as a prefix, one record and one corpus entry per
    payload follow in payload order, and the document status records are
    not touched.  With at least one payload the store then has documents,
    an initialized matrix, and the disk holds the saved state. *)
Theorem add_chunks_appends :
  forall (p : Provider) (document_id : string) (chunks : list Chunk.t)
         (w w' : World),
    add_chunks p document_id chunks w = (Ok tt, w') ->
    chunks_metadata (mem w')
    = chunks_metadata (mem w) ++ map (new_chunk_meta document_id) (enumerate chunks)
    /\ tokenized_corpus (mem w')
       = tokenized_corpus (mem w) ++ map _tokenize (map Chunk.text chunks)
    /\ document_metadata (mem w') = document_metadata (mem w)
    /\ (chunks <> [] ->
        has_documents (mem w') = true
        /\ vectors (mem w') <> None
        /\ disk w' = saved_disk (mem w') (disk w)).
Proof.
  intros p document_id chunks w w' Hrun.
  destruct chunks as [| c cs].
  - inversion Hrun; subst w'. cbn [map enumerate length seq combine].
    rewrite !app_nil_r. do 3 (split; [reflexivity |]). intros H. congruence.
  - destruct (add_chunks_ok p document_id w (chunks := c :: cs)) with (w' := w')
      as (_ & arr & nv & _ & _ & Hmem & Hd); [discriminate | exact Hrun |].
    rewrite Hd. rewrite Hmem.
    cbn [chunks_metadata tokenized_corpus document_metadata vectors].
    do 3 (split; [reflexivity |]). intros _.
    unfold has_documents. cbn [chunks_metadata].
    split; [| split; [discriminate | reflexivity]].
    apply Nat.ltb_lt. rewrite length_app, length_map, enumerate_length.
    simpl. lia.
Qed.

Lemma string_app_inj_l (p a b : string) :
  (p ++ a)%string = (p ++ b)%string -> a = b.
Proof.
  induction p as [| c p IH]; simpl; intros H; [exact H |].
  inversion H. apply IH. assumption.
Qed.

Lemma str_of_nat_inj n m : str_of_nat n = str_of_nat m -> n = m.
Proof.
  unfold str_of_nat. intros H.
  apply (f_equal NilEmpty.uint_of_string) in H.
  rewrite !NilEmpty.usu in H. inversion H as [H'].
  apply (f_equal Nat.of_uint) in H'.
  now rewrite !DecimalNat.Unsigned.of_to in H'.
Qed.

Lemma make_chunk_id_inj document_id i j :
  make_chunk_id document_id i = make_chunk_id document_id j -> i = j.
Proof.
  unfold make_chunk_id. intros H.
  apply string_app_inj_l in H. apply string_app_inj_l in H.
  apply str_of_nat_inj, H.
Qed.

(** X8. The chunk ids [add_chunks] assigns in one call are pairwise
    distinct. *)
Theorem add_chunks_ids_distinct :
  forall (document_id : string) (chunks : list Chunk.t),
    NoDup (map ChunkMeta.chunk_id
               (map (new_chunk_meta document_id) (enumerate chunks))).
Proof.
  intros document_id chunks. rewrite map_map.
  assert (E : map (fun ic => ChunkMeta.chunk_id (new_chunk_meta document_id ic))
                  (enumerate chunks)
              = map (make_chunk_id document_id) (map fst (enumerate chunks))).
  { rewrite map_map. apply map_ext. intros [i c]. reflexivity. }
  rewrite E. unfold enumerate.
  rewrite combine_fst by (now rewrite length_seq).
  apply Finite.Injective_map_NoDup; [| apply seq_NoDup].
  intros i j. apply make_chunk_id_inj.
Qed.

(* ================================================================== *)
(** * More about [delete_document] *)

Lemma spec_delete_keeps_others document_id d' (es : list entry) :
  d' <> document_id ->
  filter (fun c => String.eqb (ChunkMeta.document_id c) d')
         (map fst (spec_delete document_id es))
  = filter (fun c => String.eqb (ChunkMeta.document_id c) d') (map fst es).
Proof.
  intros Hne. unfold spec_delete, other_document.
  induction es as [| e es IH]; simpl; [reflexivity |].
  destruct (String.eqb (ChunkMeta.document_id (fst e)) document_id) eqn:E; simpl.
  - apply String.eqb_eq in E.
    assert (E' : String.eqb (ChunkMeta.document_id (fst e)) d' = false)
      by (apply String.eqb_neq; congruence).
    rewrite E'. exact IH.
  - rewrite IH. reflexivity.
Qed.

(** X9. On a reachable store [delete_document d] leaves every other
    document alone: its status record and its chunk records, in their
    order, are the same before and after, whatever the call returns. *)
Theorem delete_document_frame_others :
  forall (w w' : World) (es : list entry) (document_id : string) (deleted : bool),
    reachable w es ->
    delete_document document_id w = (Ok deleted, w') ->
    forall d, d <> document_id ->
      get_document_status d (mem w') = get_document_status d (mem w)
      /\ chunks_of_document d (mem w') = chunks_of_document d (mem w).
Proof.
  intros w w' es document_id deleted Hr Hrun d Hd.
  pose proof (reachable_aligned Hr) as Hal.
  destruct (delete_document_aligned w document_id Hal)
    as (b & w2 & Hrun2 & Hcases).
  rewrite Hrun in Hrun2. inversion Hrun2; subst b w2. clear Hrun2.
  unfold get_document_status, chunks_of_document.
  destruct Hcases as [(_ & _ & ->) | [(_ & _ & _ & Hm & _) | (_ & _ & _ & Hm & _)]].
  - split; reflexivity.
  - rewrite Hm. cbn [document_metadata chunks_metadata set_document_metadata].
    split; [apply dict_get_del_other, Hd | reflexivity].
  - rewrite Hm. unfold deleted_store. cbn [document_metadata chunks_metadata].
    split; [apply dict_get_del_other, Hd |].
    destruct Hal as (Hc & _). rewrite Hc.
    apply spec_delete_keeps_others, Hd.
Qed.

Lemma spec_add_new_entries p document_id chunks w w' :
  one_vector_per_text p ->
  add_chunks p document_id chunks w = (Ok tt, w') ->
  length (provider_answers p (map Chunk.text chunks)) = length chunks.
Proof.
  intros Hp Hrun. destruct chunks as [| c cs]; [reflexivity |].
  destruct (add_chunks_ok p document_id w (chunks := c :: cs)) with (w' := w')
    as (Hall & _); [discriminate | exact Hrun |].
  rewrite (provider_answers_length _ Hp Hall). apply length_map.
Qed.

Lemma spec_delete_app document_id (a b : list entry) :
  spec_delete document_id (a ++ b)
  = spec_delete document_id a ++ spec_delete document_id b.
Proof. unfold spec_delete. apply filter_app. Qed.

Lemma spec_delete_new document_id (metas : list ChunkMeta.t) (vs : list (list R)) :
  Forall (fun c => ChunkMeta.document_id c = document_id) metas ->
  spec_delete document_id (combine metas vs) = [].
Proof.
  revert vs. induction metas as [| m metas IH]; intros [| v vs] H; simpl;
    try reflexivity.
  inversion H; subst. unfold other_document at 1. cbn [fst].
  rewrite String.eqb_refl. simpl. apply IH. assumption.
Qed.

Lemma spec_delete_absent document_id (es : list entry) :
  filter (fun c => String.eqb (ChunkMeta.document_id c) document_id) (map fst es) = [] ->
  spec_delete document_id es = es.
Proof.
  unfold spec_delete, other_document.
  induction es as [| e es IH]; simpl; [reflexivity |].
  destruct (String.eqb (ChunkMeta.document_id (fst e)) document_id); simpl;
    [discriminate |].
  intros H. f_equal. apply IH, H.
Qed.

Lemma new_chunk_metas_document document_id chunks :
  Forall (fun c => ChunkMeta.document_id c = document_id)
         (map (new_chunk_meta document_id) (enumerate chunks)).
Proof.
  apply Forall_forall. intros c Hc. apply in_map_iff in Hc.
  destruct Hc as ([i ch] & <- & _). reflexivity.
Qed.

Lemma aligned_dense_rows es s : aligned es s -> dense_rows s = map snd es.
Proof.
  intros (_ & _ & _ & ncols & Hv). unfold dense_rows. rewrite Hv.
  destruct es; reflexivity.
Qed.

(** X10. Indexing a document and deleting it again is a round trip on the
    index: on a reachable store without chunks of [d], after a successful
    [add_chunks] of at least one chunk for [d], a status update for [d] and
    [delete_document d], the delete returns [true], and the chunk records,
    the rows of the dense matrix and the sparse corpus are what they were
    before the document was added; [d] has no status record. *)
Theorem add_then_delete_restores :
  forall (w w1 w2 w3 : World) (es : list entry) (p : Provider)
         (document_id status : string) (chunks : list Chunk.t)
         (chunks_count : Z) (processed_at filename : option string)
         (deleted : bool),
    reachable w es ->
    one_vector_per_text p ->
    chunks_of_document document_id (mem w) = [] ->
    chunks <> [] ->
    add_chunks p document_id chunks w = (Ok tt, w1) ->
    update_document_status document_id status chunks_count processed_at filename w1
    = (Ok tt, w2) ->
    delete_document document_id w2 = (Ok deleted, w3) ->
    deleted = true
    /\ chunks_metadata (mem w3) = chunks_metadata (mem w)
    /\ dense_rows (mem w3) = dense_rows (mem w)
    /\ tokenized_corpus (mem w3) = tokenized_corpus (mem w)
    /\ get_document_status document_id (mem w3) = None.
Proof.
  intros w w1 w2 w3 es p document_id status chunks chunks_count processed_at
         filename deleted Hr Hp Hnone Hne Hadd Hupd Hdel.
  pose proof (reachable_aligned Hr) as Hal.
  assert (Hr2 : reachable w2 (spec_add p document_id chunks es)).
  { eapply reach_status; [| exact Hupd]. eapply reach_add; eauto. }
  assert (Hback : spec_delete document_id (spec_add p document_id chunks es) = es).
  { unfold spec_add. rewrite spec_delete_app.
    rewrite spec_delete_new by apply new_chunk_metas_document.
    rewrite app_nil_r. apply spec_delete_absent.
    destruct Hal as (Hc & _). rewrite <- Hc. exact Hnone. }
  assert (Hchanged : spec_delete document_id (spec_add p document_id chunks es)
                     <> spec_add p document_id chunks es).
  { rewrite Hback. unfold spec_add. intros E.
    apply (f_equal (@length _)) in E. rewrite length_app, length_combine in E.
    rewrite (spec_add_new_entries _ _ _ Hp Hadd) in E.
    rewrite length_map, enumerate_length, Nat.min_id in E.
    destruct chunks; [congruence | simpl in E; lia]. }
  assert (Hknown : get_document_status document_id (mem w2) <> None).
  { destruct (update_document_status_run document_id status chunks_count
                processed_at filename w1) as (w2' & Hrun & Hm & _).
    rewrite Hupd in Hrun. inversion Hrun; subst w2'.
    unfold get_document_status. rewrite Hm.
    cbn [document_metadata set_document_metadata].
    rewrite dict_get_set_same. discriminate. }
  destruct (delete_document_contract document_id Hr2) as [_ Hdo].
  destruct (Hdo Hknown Hchanged)
    as (w3' & Hrun & Hgone & _ & Hc3 & Hrows3 & Ht3 & _).
  rewrite Hdel in Hrun. inversion Hrun; subst deleted w3'.
  rewrite Hback in *.
  destruct Hal as (Hc & Ht & Hb & ncols & Hv).
  split; [reflexivity |]. split; [congruence |]. split.
  - rewrite Hrows3. symmetry. apply aligned_dense_rows.
    repeat split; eauto.
  - split; [congruence | exact Hgone].
Qed.

(* ================================================================== *)
(** * Restarting over a directory that still holds a matrix *)

(** X11. [_save_to_disk] never removes the matrix file.  When a fresh
    engine starts over a directory whose matrix file holds rows while no
    chunk record is loaded, the old rows are back in memory, and a
    successful [add_chunks] stacks the new rows after them: the matrix then
    has the old rows plus one per new chunk, while only the new chunks have
    records. *)
Theorem restart_keeps_saved_rows :
  forall (w w1 w2 : World) (p : Provider) (document_id : string)
         (chunks : list Chunk.t) (ncols : nat) (rows : list (list R)),
    vectors_npy (disk w) = Stored (Mat ncols rows) ->
    init w = (Ok tt, w1) ->
    chunks_metadata (mem w1) = [] ->
    one_vector_per_text p ->
    chunks <> [] ->
    add_chunks p document_id chunks w1 = (Ok tt, w2) ->
    vectors (mem w1) = Some (Mat ncols rows)
    /\ dense_rows (mem w2) = rows ++ provider_answers p (map Chunk.text chunks)
    /\ row_count (mem w2) = length rows + length chunks
    /\ length (chunks_metadata (mem w2)) = length chunks.
Proof.
  intros w w1 w2 p document_id chunks ncols rows Hfile Hinit Hc Hp Hne Hadd.
  destruct (init_spec w) as (w1' & Hrun & Hm1 & _).
  rewrite Hinit in Hrun. inversion Hrun; subst w1'. clear Hrun.
  assert (Hv1 : vectors (mem w1) = Some (Mat ncols rows)).
  { rewrite Hm1. unfold loaded_store. rewrite Hfile.
    destruct (chunks_metadata_pkl (disk w)) as [| | [| c cs]];
      destruct (document_metadata_json (disk w)); reflexivity. }
  split; [exact Hv1 |].
  pose proof (spec_add_new_entries _ _ _ Hp Hadd) as Hlen.
  destruct (add_chunks_ok p document_id w1 Hne Hadd)
    as (_ & arr & nv & Harr & Hnv & Hmem & _).
  assert (Hans : provider_answers p (map Chunk.text chunks) <> []).
  { intros E. rewrite E in Hlen. destruct chunks; [congruence | discriminate]. }
  destruct (np_array_nonempty Hans Harr) as (d & ->).
  rewrite Hv1 in Hnv. apply np_vstack_mat in Hnv. subst nv.
  unfold dense_rows, row_count. rewrite Hmem.
  cbn [vectors chunks_metadata np_rows np_len].
  split; [reflexivity |]. split.
  - rewrite length_app, Hlen. reflexivity.
  - rewrite Hc. cbn [app]. rewrite length_map. apply enumerate_length.
Qed.

(* ================================================================== *)
(** * Confidence of an answer *)

Section Confidence.
Local Open Scope R_scope.

Lemma fold_left_Rplus (xs : list R) :
  forall a, fold_left Rplus xs a = a + fold_left Rplus xs 0.
Proof.
  induction xs as [| x xs IH]; intros a; simpl; [lra |].
  rewrite (IH (a + x)), (IH (0 + x)). lra.
Qed.

Lemma py_sum_cons x xs : py_sum (x :: xs) = x + py_sum xs.
Proof. unfold py_sum. simpl. rewrite fold_left_Rplus. lra. Qed.

Lemma py_sum_lower lo (xs : list R) :
  (forall x, In x xs -> lo <= x) -> INR (length xs) * lo <= py_sum xs.
Proof.
  induction xs as [| x xs IH]; intros H.
  - unfold py_sum. simpl. lra.
  - change (length (x :: xs)) with (S (length xs)). rewrite S_INR.
    rewrite py_sum_cons.
    assert (lo <= x) by (apply H; now left).
    assert (INR (length xs) * lo <= py_sum xs) by (apply IH; intros; apply H; now right).
    lra.
Qed.

Lemma filter_all A (f : A -> bool) (l : list A) :
  (forall x, In x l -> f x = true) -> filter f l = l.
Proof.
  induction l as [| x l IH]; intros H; simpl; [reflexivity |].
  rewrite (H x) by now left. f_equal. apply IH. intros; apply H; now right.
Qed.

Lemma filter_none A (f : A -> bool) (l : list A) :
  (forall x, In x l -> f x = false) -> filter f l = [].
Proof.
  induction l as [| x l IH]; intros H; simpl; [reflexivity |].
  rewrite (H x) by now left. apply IH. intros; apply H; now right.
Qed.

(** X12. The confidence of an answer is [0] without hits, never above [1],
    and not negative when no fused score is negative.  When every score is
    above [0.7] the quality term counts in full: the confidence is
    [min(1, 0.7 * average + 0.3)], so at least [0.3].  When no score is
    above [0.7] the quality term is [0]: the confidence is
    [min(1, 0.7 * average)]. *)
Theorem calculate_confidence_bounds :
  forall (chunks : list Hit.t),
    _calculate_confidence [] = 0
    /\ _calculate_confidence chunks <= 1
    /\ ((forall h, In h chunks -> 0 <= Hit.score h) ->
        0 <= _calculate_confidence chunks)
    /\ (chunks <> [] ->
        (forall h, In h chunks -> 7 / 10 < Hit.score h) ->
        _calculate_confidence chunks
        = Rmin 1 (py_sum (map Hit.score chunks) / INR (length chunks) * (7 / 10)
                  + 3 / 10)
        /\ 3 / 10 <= _calculate_confidence chunks)
    /\ (chunks <> [] ->
        (forall h, In h chunks -> Hit.score h <= 7 / 10) ->
        _calculate_confidence chunks
        = Rmin 1 (py_sum (map Hit.score chunks) / INR (length chunks) * (7 / 10))).
Proof.
  intros chunks. split; [reflexivity |]. split.
  { unfold _calculate_confidence. destruct chunks; [lra | apply Rmin_l]. }
  assert (Hn : chunks <> [] -> 0 < INR (length chunks)).
  { intros Hne. apply lt_0_INR. destruct chunks; [congruence | simpl; lia]. }
  assert (Havg : forall lo, chunks <> [] ->
                   (forall h, In h chunks -> lo <= Hit.score h) ->
                   lo <= py_sum (map Hit.score chunks) / INR (length chunks)).
  { intros lo Hne Hlo. specialize (Hn Hne).
    assert (Hs : INR (length (map Hit.score chunks)) * lo
                 <= py_sum (map Hit.score chunks)).
    { apply py_sum_lower. intros x Hx. apply in_map_iff in Hx.
      destruct Hx as (h & <- & Hh). apply Hlo, Hh. }
    rewrite length_map in Hs.
    apply Rmult_le_reg_r with (INR (length chunks)); [exact Hn |].
    unfold Rdiv. rewrite Rmult_assoc, Rinv_l by lra. lra. }
  assert (Hratio : chunks <> [] ->
                   0 <= INR (length (filter (fun chunk =>
                                               Rltb (7 / 10) (Hit.score chunk))
                                            chunks))
                        / INR (length chunks)).
  { intros Hne. specialize (Hn Hne).
    apply Rmult_le_reg_r with (INR (length chunks)); [exact Hn |].
    unfold Rdiv. rewrite Rmult_assoc, Rinv_l by lra.
    rewrite Rmult_0_l, Rmult_1_r. apply pos_INR. }
  split; [| split].
  - intros Hpos. unfold _calculate_confidence.
    destruct chunks as [| c cs] eqn:E; [apply Rle_refl |]. rewrite <- E in *.
    assert (Hne' : chunks <> []) by (rewrite E; discriminate).
    specialize (Havg 0 Hne' Hpos). specialize (Hratio Hne').
    apply Rmin_glb; lra.
  - intros Hne Hhigh.
    assert (Heq : _calculate_confidence chunks
                  = Rmin 1 (py_sum (map Hit.score chunks) / INR (length chunks)
                            * (7 / 10) + 3 / 10)).
    { unfold _calculate_confidence.
      destruct chunks as [| c cs] eqn:E; [congruence |]. rewrite <- E in *.
      assert (Hne' : chunks <> []) by (rewrite E; discriminate).
      specialize (Hn Hne').
      rewrite (filter_all (fun chunk => Rltb (7 / 10) (Hit.score chunk)) chunks).
      2:{ intros h Hh. unfold Rltb. destruct (Rlt_dec (7 / 10) (Hit.score h));
            [reflexivity | exfalso; auto]. }
      f_equal. field. lra. }
    split; [exact Heq |]. rewrite Heq.
    assert (7 / 10 <= py_sum (map Hit.score chunks) / INR (length chunks))
      by (apply Havg; [exact Hne | intros h Hh; specialize (Hhigh h Hh); lra]).
    apply Rmin_glb; lra.
  - intros Hne Hlow. unfold _calculate_confidence.
    destruct chunks as [| c cs] eqn:E; [congruence |]. rewrite <- E in *.
    assert (Hne' : chunks <> []) by (rewrite E; discriminate).
    specialize (Hn Hne').
    rewrite (filter_none (fun chunk => Rltb (7 / 10) (Hit.score chunk)) chunks).
    2:{ intros h Hh. unfold Rltb. destruct (Rlt_dec (7 / 10) (Hit.score h));
          [exfalso; specialize (Hlow h Hh); lra | reflexivity]. }
    f_equal. cbn [length INR]. field. lra.
Qed.

End Confidence.

(* ================================================================== *)
(** * The rate limiter *)

Section RateLimit.
Local Open Scope R_scope.

Lemma timestamps_of_set_same c l s : timestamps_of c (dict_set c l s) = l.
Proof. unfold timestamps_of. now rewrite dict_get_set_same. Qed.

Lemma timestamps_of_set_other c c' l s :
  c' <> c -> timestamps_of c' (dict_set c l s) = timestamps_of c' s.
Proof. intros H. unfold timestamps_of. now rewrite dict_get_set_other. Qed.

Lemma in_window_self now : in_window now now = true.
Proof.
  unfold in_window, Rltb, RATE_LIMIT_WINDOW.
  destruct (Rlt_dec (now - now) 60); [reflexivity | exfalso; lra].
Qed.

Lemma in_window_later tc t x : tc <= t -> in_window t x = true -> in_window tc x = true.
Proof.
  unfold in_window, Rltb, RATE_LIMIT_WINDOW. intros Hle.
  destruct (Rlt_dec (t - x) 60); [| discriminate].
  destruct (Rlt_dec (tc - x) 60); [reflexivity | exfalso; lra].
Qed.

Lemma filter_window_twice tc t (l : list R) :
  tc <= t -> filter (in_window t) (filter (in_window tc) l) = filter (in_window t) l.
Proof.
  intros Hle. induction l as [| x l IH]; simpl; [reflexivity |].
  destruct (in_window tc x) eqn:E; simpl.
  - rewrite IH. reflexivity.
  - destruct (in_window t x) eqn:E'; [| exact IH].
    rewrite (@in_window_later tc t x Hle E') in E. discriminate.
Qed.

(** One call, seen from any client [c']. *)
Lemma check_rate_limit_spec now c s :
  let recent := filter (in_window now) (timestamps_of c s) in
  fst (check_rate_limit now c s) = negb (RATE_LIMIT <=? length recent)%nat
  /\ timestamps_of c (snd (check_rate_limit now c s))
     = (if fst (check_rate_limit now c s) then recent ++ [now] else recent)
  /\ forall c', c' <> c ->
       timestamps_of c' (snd (check_rate_limit now c s)) = timestamps_of c' s.
Proof.
  intros recent. unfold check_rate_limit. fold recent.
  destruct (RATE_LIMIT <=? length recent)%nat; cbn [fst snd negb].
  - split; [reflexivity |]. split; [apply timestamps_of_set_same |].
    intros c' H. now apply timestamps_of_set_other.
  - split; [reflexivity |]. split; [apply timestamps_of_set_same |].
    intros c' H. rewrite !timestamps_of_set_other by exact H. reflexivity.
Qed.

Lemma serve_app a b s :
  serve (a ++ b) s
  = (fst (serve a s) ++ fst (serve b (snd (serve a s))),
     snd (serve b (snd (serve a s)))).
Proof.
  revert s. induction a as [| [now c] a IH]; intros s; simpl.
  - destruct (serve b s); reflexivity.
  - destruct (check_rate_limit now c s) as [ok s1]. rewrite IH.
    destruct (serve a s1) as [sa s2]. simpl. reflexivity.
Qed.

Lemma accepted_app c a b : accepted c (a ++ b) = accepted c a ++ accepted c b.
Proof. unfold accepted. now rewrite filter_app, map_app. Qed.

Lemma limiter_inv_step c now ip s acc tc :
  limiter_inv c s acc tc ->
  tc <= now ->
  limiter_inv c (snd (check_rate_limit now ip s))
    (acc ++ accepted c [(now, ip, fst (check_rate_limit now ip s))])
    (if String.eqb ip c then now else tc).
Proof.
  intros [Hts Hlen] Hle.
  destruct (check_rate_limit_spec now ip s) as (Hok & Hsame & Hother).
  unfold accepted. cbn [filter map fst snd].
  destruct (String.eqb ip c) eqn:E.
  - apply String.eqb_eq in E. subst ip. unfold limiter_inv.
    rewrite Hsame, Hts, filter_window_twice by exact Hle.
    rewrite Hts, filter_window_twice in Hok by exact Hle.
    assert (Hrec : (length (filter (in_window now) acc) <= RATE_LIMIT)%nat).
    { rewrite <- (@filter_window_twice tc now acc Hle), <- Hts.
      eapply Nat.le_trans; [apply filter_length_le | exact Hlen]. }
    destruct (fst (check_rate_limit now c s)); rewrite Bool.andb_true_r || idtac;
      cbn [andb app map filter].
    + rewrite filter_app. cbn [filter]. rewrite in_window_self. split; [reflexivity |].
      rewrite length_app. simpl.
      symmetry in Hok. apply Bool.negb_true_iff, Nat.leb_gt in Hok. lia.
    + rewrite app_nil_r. split; [reflexivity | exact Hrec].
  - rewrite Bool.andb_false_r. cbn [map app]. rewrite app_nil_r.
    assert (Hne : c <> ip) by (intros ->; rewrite String.eqb_refl in E; discriminate).
    unfold limiter_inv. rewrite (Hother c Hne). split; assumption.
Qed.

(** Serving a sequence of requests with a clock that never runs backwards
    keeps the limiter's invariant for every client. *)
Lemma serve_limiter_inv c t calls :
  forall s acc tc,
    limiter_inv c s acc tc ->
    Sorted Rle (tc :: map fst calls ++ [t]) ->
    exists tc',
      limiter_inv c (snd (serve calls s)) (acc ++ accepted c (fst (serve calls s))) tc'
      /\ tc' <= t.
Proof.
  induction calls as [| [now ip] calls IH]; intros s acc tc Hinv Hs.
  - exists tc. simpl. unfold accepted. simpl. rewrite app_nil_r.
    split; [exact Hinv |].
    inversion Hs as [| a l Hs' Hhd]; subst. inversion Hhd; subst. assumption.
  - cbn [map fst app] in Hs.
    inversion Hs as [| a l Hs' Hhd]; subst. inversion Hhd as [| b l' Hle]; subst.
    pose proof (@limiter_inv_step c now ip s acc tc Hinv Hle) as Hstep.
    assert (Hs1 : Sorted Rle ((if String.eqb ip c then now else tc)
                                :: map fst calls ++ [t])).
    { destruct (String.eqb ip c); [exact Hs' |].
      inversion Hs' as [| a l Hs'' Hhd']; subst.
      constructor; [exact Hs'' |].
      destruct (map fst calls ++ [t]) as [| h rest]; constructor.
      inversion Hhd'; subst. lra. }
    destruct (IH _ _ _ Hstep Hs1) as (tc' & Hinv' & Hle').
    exists tc'. split; [| exact Hle'].
    cbn [serve]. destruct (check_rate_limit now ip s) as [ok s1].
    cbn [fst snd] in *. destruct (serve calls s1) as [served s2].
    cbn [fst snd] in *.
    change ((now, ip, ok) :: served) with ([(now, ip, ok)] ++ served).
    rewrite accepted_app, app_assoc. exact Hinv'.
Qed.

Lemma limiter_inv_empty c tc : limiter_inv c [] [] tc.
Proof. split; [reflexivity | simpl; unfold RATE_LIMIT; lia]. Qed.

(** X13. With a clock that never runs backwards, a request is let through
    exactly when fewer than [RATE_LIMIT] requests of the same client were
    let through during the [RATE_LIMIT_WINDOW] seconds before it. *)
Theorem rate_limit_decision :
  forall (calls : list (R * string)) (t : R) (client_ip : string),
    Sorted Rle (map fst calls ++ [t]) ->
    fst (check_rate_limit t client_ip (snd (serve calls [])))
    = (length (filter (in_window t) (accepted client_ip (fst (serve calls []))))
       <? RATE_LIMIT)%nat.
Proof.
  intros calls t c Hs.
  assert (Hs' : exists t0, Sorted Rle (t0 :: map fst calls ++ [t])).
  { destruct (map fst calls ++ [t]) as [| h rest] eqn:E.
    - exists t. constructor; constructor.
    - exists h. constructor; [exact Hs | constructor; lra]. }
  destruct Hs' as (t0 & Hs').
  destruct (@serve_limiter_inv c t calls [] [] t0 (limiter_inv_empty c t0) Hs')
    as (tc' & [Hts _] & Hle).
  destruct (check_rate_limit_spec t c (snd (serve calls []))) as (Hok & _).
  rewrite Hok, Hts, filter_window_twice by exact Hle.
  cbn [app]. rewrite Nat.ltb_antisym. reflexivity.
Qed.

(** X14. With a clock that never runs backwards, at most [RATE_LIMIT]
    requests of one client are let through in the [RATE_LIMIT_WINDOW]
    seconds up to and including any of its requests. *)
Theorem rate_limit_window :
  forall (calls : list (R * string)) (t : R) (client_ip : string),
    Sorted Rle (map fst calls ++ [t]) ->
    (length (filter (in_window t)
               (accepted client_ip (fst (serve (calls ++ [(t, client_ip)]) []))))
     <= RATE_LIMIT)%nat.
Proof.
  intros calls t c Hs.
  assert (Hs' : exists t0, Sorted Rle (t0 :: map fst calls ++ [t])).
  { destruct (map fst calls ++ [t]) as [| h rest] eqn:E.
    - exists t. constructor; constructor.
    - exists h. constructor; [exact Hs | constructor; lra]. }
  destruct Hs' as (t0 & Hs').
  destruct (@serve_limiter_inv c t calls [] [] t0 (limiter_inv_empty c t0) Hs')
    as (tc' & Hinv & Hle).
  pose proof (@limiter_inv_step c t c _ _ tc' Hinv Hle) as [Hts Hlen].
  rewrite String.eqb_refl in Hts.
  rewrite serve_app. cbn [fst]. rewrite accepted_app.
  cbn [serve]. destruct (check_rate_limit t c (snd (serve calls []))) as [ok s1].
  cbn [fst snd] in *. cbn [app] in *.
  rewrite <- Hts. exact Hlen.
Qed.

End RateLimit.

(* ================================================================== *)
(** * Cleaning and chunking: examples *)

Example clean_text_example :
  _clean_text "  Cats are   mammals.  Dogs, too!
Rocks   are #minerals?  "
  = String.concat paragraph_break
      ["Cats are mammals."; "Dogs, too!"; "Rocks are minerals?"]%string.
Proof. reflexivity. Qed.

Example split_paragraphs_example :
  split_paragraphs [] None
    (String.concat "" ["a"; String LF ""; " "; String LF ""; String LF "";
                       " b"; String LF ""; "c"; String LF ""; String LF ""])%string
  = ["a"; " b" ++ String LF "" ++ "c"; ""]%string.
Proof. reflexivity. Qed.

Example split_sentences_example :
  split_sentences [] false false "One. Two!   Three?x four. "
  = ["One."; "Two!"; "Three?x four."; ""]%string.
Proof. reflexivity. Qed.

Example chunk_text_example :
  map Chunk.text (chunk_text "Cats are mammals. Dogs are mammals." "a.txt")
  = [String.concat paragraph_break ["Cats are mammals."; "Dogs are mammals."]]%string.
Proof. reflexivity. Qed.

(* ================================================================== *)
(** * Chunking *)

Lemma nonempty_true s : nonempty s = true <-> s <> EmptyString.
Proof. destruct s; simpl; split; congruence. Qed.

Lemma numbered_snoc filename chunks text :
  numbered filename chunks ->
  text <> EmptyString ->
  numbered filename (chunks ++ [_create_chunk_dict text (length chunks) filename]).
Proof.
  intros Hn Ht i c Hi.
  destruct (Nat.lt_ge_cases i (length chunks)) as [Hlt | Hge].
  - rewrite nth_error_app1 in Hi by exact Hlt. apply Hn, Hi.
  - rewrite nth_error_app2 in Hi by exact Hge.
    destruct (i - length chunks) as [| k] eqn:E; simpl in Hi.
    + inversion Hi; subst c. cbn [Chunk.text].
      replace i with (length chunks) by lia. split; [reflexivity | exact Ht].
    + destruct k; discriminate.
Qed.

Lemma str_length_app (a b : string) :
  String.length (a ++ b) = String.length a + String.length b.
Proof. induction a as [| c a IH]; simpl; [reflexivity | now rewrite IH]. Qed.

Lemma str_app_assoc (a b c : string) : ((a ++ b) ++ c = a ++ (b ++ c))%string.
Proof. induction a as [| x a IH]; simpl; [reflexivity | now rewrite IH]. Qed.

Lemma str_app_nonempty (a b : string) :
  a <> EmptyString -> (a ++ b)%string <> EmptyString.
Proof. destruct a; simpl; congruence. Qed.

(** An invariant of a loop body holds after the loop. *)
Lemma fold_left_inv A B (f : A -> B -> A) (P : A -> Prop) (l : list B) :
  (forall a b, In b l -> P a -> P (f a b)) ->
  forall a, P a -> P (fold_left f l a).
Proof.
  induction l as [| b l IH]; intros Hstep a Ha; simpl; [exact Ha |].
  apply IH.
  - intros a' b' Hb'. apply Hstep. now right.
  - apply Hstep; [now left | exact Ha].
Qed.

(** The same, for an invariant that speaks about the elements seen so far. *)
Lemma fold_left_inv_seen A B (f : A -> B -> A) (P : list B -> A -> Prop)
    (l : list B) :
  (forall seen a b, In b l -> P seen a -> P (seen ++ [b]) (f a b)) ->
  forall seen a, P seen a -> P (seen ++ l) (fold_left f l a).
Proof.
  induction l as [| b l IH]; intros Hstep seen a Ha; simpl.
  - rewrite app_nil_r. exact Ha.
  - replace (seen ++ b :: l) with ((seen ++ [b]) ++ l)
      by (rewrite <- app_assoc; reflexivity).
    apply IH.
    + intros seen' a' b' Hb'. apply Hstep. now right.
    + apply Hstep; [now left | exact Ha].
Qed.

Lemma joined_tokens_gap (a b : string) :
  approx_token_count (a ++ sentence_gap ++ b)
  <= approx_token_count a + approx_token_count b + 1.
Proof.
  unfold approx_token_count. rewrite !str_length_app.
  change (String.length sentence_gap) with 1.
  generalize (String.length a) as la. generalize (String.length b) as lb.
  intros lb la.
  pose proof (Nat.div_mod_eq la 4). pose proof (Nat.div_mod_eq lb 4).
  pose proof (Nat.div_mod_eq (la + (1 + lb)) 4).
  pose proof (Nat.mod_upper_bound la 4).
  pose proof (Nat.mod_upper_bound lb 4).
  pose proof (Nat.mod_upper_bound (la + (1 + lb)) 4).
  lia.
Qed.

Lemma joined_tokens_break (a b : string) :
  approx_token_count (a ++ paragraph_break ++ b)
  <= approx_token_count a + approx_token_count b + 2.
Proof.
  unfold approx_token_count. rewrite !str_length_app.
  change (String.length paragraph_break) with 2.
  generalize (String.length a) as la. generalize (String.length b) as lb.
  intros lb la.
  pose proof (Nat.div_mod_eq la 4). pose proof (Nat.div_mod_eq lb 4).
  pose proof (Nat.div_mod_eq (la + (2 + lb)) 4).
  pose proof (Nat.mod_upper_bound la 4).
  pose proof (Nat.mod_upper_bound lb 4).
  pose proof (Nat.mod_upper_bound (la + (2 + lb)) 4).
  lia.
Qed.

Lemma sentence_step_ok sentences st sentence :
  In sentence sentences ->
  Forall (sentence_group_ok sentences) (fst st)
  /\ (snd st = EmptyString \/ sentence_group_ok sentences (snd st)) ->
  Forall (sentence_group_ok sentences) (fst (sentence_step st sentence))
  /\ (snd (sentence_step st sentence) = EmptyString
      \/ sentence_group_ok sentences (snd (sentence_step st sentence))).
Proof.
  destruct st as [chunks cur]. cbn [fst snd]. intros Hin [Hchunks Hcur].
  assert (Hs : sentence = EmptyString \/ sentence_group_ok sentences sentence).
  { destruct sentence as [| c s]; [now left | right].
    split; [discriminate | right; exact Hin]. }
  unfold sentence_step.
  destruct (approx_token_count cur + approx_token_count sentence <=? CHUNK_SIZE)
    eqn:Hfit; destruct (nonempty cur) eqn:Hne; cbn [fst snd].
  - split; [exact Hchunks | right]. apply nonempty_true in Hne.
    split; [apply str_app_nonempty, Hne | left].
    apply Nat.leb_le in Hfit.
    pose proof (joined_tokens_gap cur sentence). lia.
  - split; assumption.
  - split; [| exact Hs]. apply Forall_app. split; [exact Hchunks |].
    constructor; [| constructor]. apply nonempty_true in Hne.
    destruct Hcur as [-> | Hok]; [congruence | exact Hok].
  - split; assumption.
Qed.

Lemma group_sentences_ok sentences :
  Forall (sentence_group_ok sentences) (group_sentences sentences).
Proof.
  unfold group_sentences.
  pose proof (fold_left_inv sentence_step
                (fun st => Forall (sentence_group_ok sentences) (fst st)
                           /\ (snd st = EmptyString
                               \/ sentence_group_ok sentences (snd st)))
                sentences) as Hinv.
  specialize (Hinv (fun a b Hb Ha => @sentence_step_ok sentences a b Hb Ha)
                   ([], EmptyString)).
  destruct (fold_left sentence_step sentences ([], EmptyString)) as [chunks cur].
  cbn [fst snd] in Hinv. destruct Hinv as [Hchunks Hcur].
  { split; [constructor | now left]. }
  destruct (nonempty cur) eqn:Hne; [| exact Hchunks].
  apply Forall_app. split; [exact Hchunks |]. constructor; [| constructor].
  apply nonempty_true in Hne. destruct Hcur as [-> | Hok]; [congruence | exact Hok].
Qed.

Lemma group_sentences_nonempty_ok text :
  Forall (fun s => s <> EmptyString) (_split_by_sentences text).
Proof.
  unfold _split_by_sentences.
  eapply Forall_impl; [| apply group_sentences_ok].
  intros s [Hne _]. exact Hne.
Qed.

Lemma append_sentence_chunks_spec filename sentence_chunks :
  forall chunks chunk_index,
    chunk_index = length chunks ->
    numbered filename chunks ->
    Forall (fun s => s <> EmptyString) sentence_chunks ->
    let r := append_sentence_chunks filename chunks chunk_index sentence_chunks in
    snd r = length (fst r)
    /\ numbered filename (fst r)
    /\ map Chunk.text (fst r) = map Chunk.text chunks ++ sentence_chunks.
Proof.
  induction sentence_chunks as [| s l IH]; intros chunks idx Hidx Hn Hne; simpl.
  - split; [exact Hidx |]. split; [exact Hn | now rewrite app_nil_r].
  - inversion Hne as [| x l' Hs Hl]; subst.
    destruct (IH (chunks ++ [_create_chunk_dict s (length chunks) filename])
                 (S (length chunks))) as (H1 & H2 & H3).
    + rewrite length_app. simpl. lia.
    + apply numbered_snoc; assumption.
    + exact Hl.
    + split; [exact H1 |]. split; [exact H2 |].
      rewrite H3, map_app, <- app_assoc. reflexivity.
Qed.

Lemma chunk_text_is_numbered text filename :
  numbered filename (chunk_text text filename).
Proof.
  unfold chunk_text, group_paragraphs.
  pose proof (fold_left_inv (paragraph_step filename)
                (fun st => snd st = length (fst (fst st))
                           /\ numbered filename (fst (fst st)))
                (paragraphs_of (_clean_text text))) as Hinv.
  assert (Hstep : forall a b,
             In b (paragraphs_of (_clean_text text)) ->
             snd a = length (fst (fst a)) /\ numbered filename (fst (fst a)) ->
             snd (paragraph_step filename a b)
             = length (fst (fst (paragraph_step filename a b)))
             /\ numbered filename (fst (fst (paragraph_step filename a b)))).
  { intros [[chunks cur] idx] p _ [Hidx Hnum]. cbn [fst snd] in Hidx, Hnum.
    unfold paragraph_step.
    destruct (_ <=? CHUNK_SIZE).
    - destruct (nonempty cur); cbn [fst snd]; split; assumption.
    - assert (Hpush : let r := if nonempty cur
                               then (chunks ++ [_create_chunk_dict cur idx filename],
                                     S idx)
                               else (chunks, idx) in
                      snd r = length (fst r) /\ numbered filename (fst r)).
      { destruct (nonempty cur) eqn:Hne; cbn [fst snd].
        - split; [rewrite length_app; simpl; lia |].
          rewrite Hidx. apply numbered_snoc; [exact Hnum |].
          apply nonempty_true, Hne.
        - split; assumption. }
      destruct (if nonempty cur
                then (chunks ++ [_create_chunk_dict cur idx filename], S idx)
                else (chunks, idx)) as [chunks1 idx1].
      cbn [fst snd] in Hpush. destruct Hpush as [Hidx1 Hnum1].
      destruct (CHUNK_SIZE <? approx_token_count p); [| split; assumption].
      pose proof (@append_sentence_chunks_spec filename (_split_by_sentences p)
                    chunks1 idx1 Hidx1 Hnum1
                    (group_sentences_nonempty_ok p)) as Hs.
      destruct (append_sentence_chunks filename chunks1 idx1
                  (_split_by_sentences p)) as [chunks2 idx2].
      cbn [fst snd] in *. destruct Hs as (H1 & H2 & _). split; assumption. }
  specialize (Hinv Hstep ([], EmptyString, 0)).
  destruct (fold_left (paragraph_step filename)
              (paragraphs_of (_clean_text text)) ([], EmptyString, 0))
    as [[chunks cur] idx].
  cbn [fst snd] in Hinv. destruct Hinv as [Hidx Hnum].
  { split; [reflexivity |]. intros k x Hk. destruct k; discriminate. }
  destruct (nonempty cur) eqn:Hne; [| exact Hnum].
  rewrite Hidx. apply numbered_snoc; [exact Hnum | apply nonempty_true, Hne].
Qed.

(** X15. [chunk_text] numbers its chunks: the chunk at position [i] has
    [chunk_index = i], the given filename, a non-empty text, and
    [char_count] and [approx_tokens] equal to the length of its text and a
    quarter of it. *)
Theorem chunk_text_numbered :
  forall (text filename : string) (i : nat) (c : Chunk.t),
    nth_error (chunk_text text filename) i = Some c ->
    Chunk.chunk_index c = Z.of_nat i
    /\ Chunk.filename c = filename
    /\ Chunk.text c <> EmptyString
    /\ Chunk.char_count c = Z.of_nat (String.length (Chunk.text c))
    /\ Chunk.approx_tokens c = Z.of_nat (String.length (Chunk.text c) / 4).
Proof.
  intros text filename i c Hi.
  destruct (@chunk_text_is_numbered text filename i c Hi) as [Hc Hne].
  rewrite Hc. cbn. repeat split. exact Hne.
Qed.

Lemma append_sentence_chunks_texts filename sentence_chunks :
  forall chunks chunk_index,
    map Chunk.text
        (fst (append_sentence_chunks filename chunks chunk_index sentence_chunks))
    = map Chunk.text chunks ++ sentence_chunks.
Proof.
  induction sentence_chunks as [| s l IH]; intros chunks idx; simpl.
  - now rewrite app_nil_r.
  - rewrite IH, map_app, <- app_assoc. reflexivity.
Qed.

(** X16. Every chunk of [chunk_text] has at most [CHUNK_SIZE + 2]
    approximate tokens, unless it is a single sentence of a paragraph that
    is itself over [CHUNK_SIZE]: such a sentence is never cut. *)
Theorem chunk_text_sizes :
  forall (text filename : string) (c : Chunk.t),
    In c (chunk_text text filename) ->
    chunk_size_ok (paragraphs_of (_clean_text text)) c.
Proof.
  intros text filename c Hc.
  set (paragraphs := paragraphs_of (_clean_text text)) in *.
  set (ok := fun t : string =>
               approx_token_count t <= CHUNK_SIZE + 2
               \/ exists p, In p paragraphs
                            /\ CHUNK_SIZE < approx_token_count p
                            /\ In t (split_sentences [] false false p)).
  assert (Hall : Forall ok (map Chunk.text (chunk_text text filename))).
  { unfold chunk_text, group_paragraphs. fold paragraphs.
    pose proof (fold_left_inv (paragraph_step filename)
                  (fun st => Forall ok (map Chunk.text (fst (fst st)))
                             /\ approx_token_count (snd (fst st)) <= CHUNK_SIZE + 2)
                  paragraphs) as Hinv.
    assert (Hstep : forall a b,
               In b paragraphs ->
               Forall ok (map Chunk.text (fst (fst a)))
               /\ approx_token_count (snd (fst a)) <= CHUNK_SIZE + 2 ->
               Forall ok (map Chunk.text (fst (fst (paragraph_step filename a b))))
               /\ approx_token_count (snd (fst (paragraph_step filename a b)))
                  <= CHUNK_SIZE + 2).
    { intros [[chunks cur] idx] p Hp [Hchunks Hcur]. cbn [fst snd] in Hchunks, Hcur.
      unfold paragraph_step.
      destruct (approx_token_count cur + approx_token_count p <=? CHUNK_SIZE)
        eqn:Hfit.
      - apply Nat.leb_le in Hfit.
        destruct (nonempty cur); cbn [fst snd]; (split; [exact Hchunks |]).
        + pose proof (joined_tokens_break cur p). lia.
        + lia.
      - assert (Hpush : Forall ok
                          (map Chunk.text
                             (fst (if nonempty cur
                                   then (chunks ++ [_create_chunk_dict cur idx filename],
                                         S idx)
                                   else (chunks, idx))))).
        { destruct (nonempty cur); cbn [fst]; [| exact Hchunks].
          rewrite map_app. apply Forall_app. split; [exact Hchunks |].
          constructor; [| constructor]. left. exact Hcur. }
        destruct (if nonempty cur
                  then (chunks ++ [_create_chunk_dict cur idx filename], S idx)
                  else (chunks, idx)) as [chunks1 idx1].
        cbn [fst] in Hpush.
        destruct (CHUNK_SIZE <? approx_token_count p) eqn:Hbig.
        + apply Nat.ltb_lt in Hbig.
          pose proof (append_sentence_chunks_texts filename
                        (_split_by_sentences p) chunks1 idx1) as Ht.
          destruct (append_sentence_chunks filename chunks1 idx1
                      (_split_by_sentences p)) as [chunks2 idx2].
          cbn [fst snd] in *. split; [| unfold approx_token_count; simpl; lia].
          rewrite Ht. apply Forall_app. split; [exact Hpush |].
          eapply Forall_impl; [| apply group_sentences_ok].
          intros s [_ [Hs | Hs]]; [left; lia | right].
          exists p. repeat split; assumption.
        + apply Nat.ltb_ge in Hbig. cbn [fst snd]. split; [exact Hpush | lia]. }
    specialize (Hinv Hstep ([], EmptyString, 0)).
    destruct (fold_left (paragraph_step filename) paragraphs ([], EmptyString, 0))
      as [[chunks cur] idx].
    cbn [fst snd] in Hinv. destruct Hinv as [Hchunks Hcur].
    { split; [constructor | unfold approx_token_count; simpl; lia]. }
    destruct (nonempty cur); [| exact Hchunks].
    rewrite map_app. apply Forall_app. split; [exact Hchunks |].
    constructor; [| constructor]. left. exact Hcur. }
  rewrite Forall_forall in Hall. apply (Hall (Chunk.text c)).
  apply in_map, Hc.
Qed.

(* ------------------------------------------------------------------ *)
(** ** Nothing is lost *)

Lemma concat_snoc sep (l : list string) (x : string) :
  l <> [] ->
  String.concat sep (l ++ [x]) = (String.concat sep l ++ sep ++ x)%string.
Proof.
  induction l as [| y l IH]; intros Hne; [congruence |].
  destruct l as [| z l'].
  - reflexivity.
  - change (String.concat sep ((y :: z :: l') ++ [x]))
      with (y ++ sep ++ String.concat sep ((z :: l') ++ [x]))%string.
    rewrite IH by discriminate.
    change (String.concat sep (y :: z :: l'))
      with (y ++ sep ++ String.concat sep (z :: l'))%string.
    now rewrite !str_app_assoc.
Qed.

Lemma same_joined_refl sep l : same_joined sep l l.
Proof. split; [reflexivity | tauto]. Qed.

Lemma same_joined_snoc sep a b x :
  same_joined sep a b -> same_joined sep (a ++ [x]) (b ++ [x]).
Proof.
  intros [Hc He]. split.
  - destruct a as [| a0 a'].
    + assert (b = []) by (apply He; reflexivity). subst b. reflexivity.
    + assert (b <> []) by (intros E; apply He in E; discriminate).
      rewrite !concat_snoc by (assumption || discriminate). now rewrite Hc.
  - split; intros E; apply app_eq_nil in E; destruct E; discriminate.
Qed.

Lemma same_joined_app sep l :
  forall a b, same_joined sep a b -> same_joined sep (a ++ l) (b ++ l).
Proof.
  induction l as [| x l IH]; intros a b H.
  - now rewrite !app_nil_r.
  - replace (a ++ x :: l) with ((a ++ [x]) ++ l) by now rewrite <- app_assoc.
    replace (b ++ x :: l) with ((b ++ [x]) ++ l) by now rewrite <- app_assoc.
    apply IH, same_joined_snoc, H.
Qed.

(** Joining the last element with the next one reads the same. *)
Lemma same_joined_join sep a x b y :
  same_joined sep (a ++ [x]) b ->
  same_joined sep (a ++ [(x ++ sep ++ y)%string]) (b ++ [y]).
Proof.
  intros [Hc He].
  assert (Hb : b <> []).
  { intros E. apply He in E. apply app_eq_nil in E. destruct E; discriminate. }
  split.
  - rewrite (concat_snoc sep y Hb), <- Hc.
    destruct a as [| a0 a'].
    + reflexivity.
    + rewrite !concat_snoc by discriminate. now rewrite !str_app_assoc.
  - split; intros E; apply app_eq_nil in E; destruct E; discriminate.
Qed.

Lemma pending_nonempty s : s <> EmptyString -> pending s = [s].
Proof. unfold pending. destruct s; [congruence | reflexivity]. Qed.

Lemma paragraphs_of_nonempty text p :
  In p (paragraphs_of text) -> p <> EmptyString.
Proof.
  unfold paragraphs_of. intros H. apply in_map_iff in H.
  destruct H as (x & <- & Hx). apply filter_In in Hx. destruct Hx as [_ Hx].
  apply nonempty_true, Hx.
Qed.

(** X17. [chunk_text] loses no text: joined by blank lines, the chunk texts
    read the same as the paragraphs of the cleaned text joined by blank
    lines, where each paragraph over [CHUNK_SIZE] is replaced by its
    sentence groups. *)
Theorem chunk_text_keeps_text :
  forall (text filename : string),
    String.concat paragraph_break (map Chunk.text (chunk_text text filename))
    = String.concat paragraph_break
        (flat_map expand_paragraph (paragraphs_of (_clean_text text))).
Proof.
  intros text filename.
  set (paragraphs := paragraphs_of (_clean_text text)).
  assert (Hne : forall p, In p paragraphs -> p <> EmptyString)
    by (intros p; apply paragraphs_of_nonempty).
  unfold chunk_text, group_paragraphs. fold paragraphs.
  pose proof (fold_left_inv_seen (paragraph_step filename)
                (fun seen st =>
                   same_joined paragraph_break
                     (map Chunk.text (fst (fst st)) ++ pending (snd (fst st)))
                     (flat_map expand_paragraph seen))
                paragraphs) as Hinv.
  assert (Hstep : forall seen a b,
             In b paragraphs ->
             same_joined paragraph_break
               (map Chunk.text (fst (fst a)) ++ pending (snd (fst a)))
               (flat_map expand_paragraph seen) ->
             same_joined paragraph_break
               (map Chunk.text (fst (fst (paragraph_step filename a b)))
                  ++ pending (snd (fst (paragraph_step filename a b))))
               (flat_map expand_paragraph (seen ++ [b]))).
  { intros seen [[chunks cur] idx] p Hp Hsj. cbn [fst snd] in Hsj.
    specialize (Hne p Hp).
    rewrite flat_map_app. cbn [flat_map]. rewrite app_nil_r.
    unfold paragraph_step, expand_paragraph.
    destruct (approx_token_count cur + approx_token_count p <=? CHUNK_SIZE)
      eqn:Hfit.
    - apply Nat.leb_le in Hfit.
      assert (Hsmall : (CHUNK_SIZE <? approx_token_count p) = false)
        by (apply Nat.ltb_ge; lia).
      rewrite Hsmall.
      destruct (nonempty cur) eqn:Hcur; cbn [fst snd].
      + apply nonempty_true in Hcur. rewrite (pending_nonempty Hcur) in Hsj.
        rewrite pending_nonempty by (apply str_app_nonempty, Hcur).
        apply same_joined_join, Hsj.
      + unfold pending in Hsj. rewrite Hcur, app_nil_r in Hsj.
        rewrite (pending_nonempty Hne). apply same_joined_app, Hsj.
    - assert (Hpush : map Chunk.text
                        (fst (if nonempty cur
                              then (chunks ++ [_create_chunk_dict cur idx filename],
                                    S idx)
                              else (chunks, idx)))
                      = map Chunk.text chunks ++ pending cur).
      { unfold pending. destruct (nonempty cur); cbn [fst].
        - rewrite map_app. reflexivity.
        - now rewrite app_nil_r. }
      destruct (if nonempty cur
                then (chunks ++ [_create_chunk_dict cur idx filename], S idx)
                else (chunks, idx)) as [chunks1 idx1].
      cbn [fst] in Hpush. rewrite <- Hpush in Hsj.
      destruct (CHUNK_SIZE <? approx_token_count p).
      + pose proof (append_sentence_chunks_texts filename
                      (_split_by_sentences p) chunks1 idx1) as Ht.
        destruct (append_sentence_chunks filename chunks1 idx1
                    (_split_by_sentences p)) as [chunks2 idx2].
        cbn [fst snd] in *. rewrite Ht. unfold pending at 1. cbn [nonempty].
        rewrite app_nil_r. apply same_joined_app, Hsj.
      + cbn [fst snd]. rewrite (pending_nonempty Hne).
        apply same_joined_app, Hsj. }
  specialize (Hinv Hstep [] ([], EmptyString, 0)).
  cbn [app] in Hinv.
  destruct (fold_left (paragraph_step filename) paragraphs ([], EmptyString, 0))
    as [[chunks cur] idx].
  cbn [fst snd] in Hinv. destruct Hinv as [Hc _].
  { apply same_joined_refl. }
  rewrite <- Hc. f_equal. unfold pending.
  destruct (nonempty cur); [rewrite map_app; reflexivity | now rewrite app_nil_r].
Qed.

(* ------------------------------------------------------------------ *)
(** ** Sentences *)

Lemma piece_nonempty (cur : list ascii) : cur <> [] -> piece cur <> EmptyString.
Proof.
  unfold piece. intros Hne.
  destruct (rev cur) as [| c l] eqn:E.
  - apply (f_equal (@rev ascii)) in E. rewrite rev_involutive in E.
    simpl in E. congruence.
  - simpl. discriminate.
Qed.

Lemma ends_in_text_cons c s :
  ends_in_text (String c s) ->
  (s = EmptyString /\ is_space c = false) \/ ends_in_text s.
Proof.
  intros (x & Hl & Hx). destruct s as [| c' s'].
  - left. simpl in Hl. inversion Hl; subst. now split.
  - right. exists x. split; [exact Hl | exact Hx].
Qed.

(** On a text that does not end in whitespace no sentence is empty. *)
Lemma split_sentences_nonempty :
  forall s cur after_end in_gap,
    (after_end = true -> cur <> []) ->
    ends_in_text s \/ (s = EmptyString /\ cur <> []) ->
    Forall (fun x => x <> EmptyString) (split_sentences cur after_end in_gap s).
Proof.
  induction s as [| c s IH]; intros cur ae ig Hae Hs.
  - destruct Hs as [(x & Hl & _) | [_ Hcur]]; [discriminate |].
    constructor; [apply piece_nonempty, Hcur | constructor].
  - destruct Hs as [Hs | [Hs _]]; [| discriminate].
    apply ends_in_text_cons in Hs.
    cbn [split_sentences]. destruct ig.
    + destruct (is_space c) eqn:Hc.
      * apply IH; [discriminate |].
        destruct Hs as [[_ Hs] | Hs]; [congruence | now left].
      * apply IH; [discriminate |].
        destruct Hs as [[Hs _] | Hs]; [right | now left].
        split; [exact Hs | discriminate].
    + destruct (is_space c && ae) eqn:Hc.
      * apply andb_prop in Hc. destruct Hc as [Hc Hae'].
        constructor; [apply piece_nonempty, Hae, Hae' |].
        apply IH; [discriminate |].
        destruct Hs as [[_ Hs] | Hs]; [congruence | now left].
      * apply IH; [discriminate |].
        destruct Hs as [[Hs _] | Hs]; [right | now left].
        split; [exact Hs | discriminate].
Qed.

(** The grouping loop loses nothing when no sentence is empty. *)
Lemma group_sentences_keeps_text sentences :
  Forall (fun s => s <> EmptyString) sentences ->
  String.concat sentence_gap (group_sentences sentences)
  = String.concat sentence_gap sentences.
Proof.
  intros Hne. rewrite Forall_forall in Hne.
  unfold group_sentences.
  pose proof (fold_left_inv_seen sentence_step
                (fun seen st =>
                   same_joined sentence_gap (fst st ++ pending (snd st)) seen)
                sentences) as Hinv.
  assert (Hstep : forall seen a b,
             In b sentences ->
             same_joined sentence_gap (fst a ++ pending (snd a)) seen ->
             same_joined sentence_gap
               (fst (sentence_step a b) ++ pending (snd (sentence_step a b)))
               (seen ++ [b])).
  { intros seen [chunks cur] b Hb Hsj. cbn [fst snd] in Hsj.
    specialize (Hne b Hb). unfold sentence_step.
    destruct (approx_token_count cur + approx_token_count b <=? CHUNK_SIZE);
      destruct (nonempty cur) eqn:Hcur; cbn [fst snd].
    - apply nonempty_true in Hcur. rewrite (pending_nonempty Hcur) in Hsj.
      rewrite pending_nonempty by (apply str_app_nonempty, Hcur).
      apply same_joined_join, Hsj.
    - unfold pending in Hsj. rewrite Hcur, app_nil_r in Hsj.
      rewrite (pending_nonempty Hne). apply same_joined_app, Hsj.
    - apply nonempty_true in Hcur. rewrite (pending_nonempty Hcur) in Hsj.
      rewrite (pending_nonempty Hne). apply same_joined_app, Hsj.
    - unfold pending in Hsj. rewrite Hcur, app_nil_r in Hsj.
      rewrite (pending_nonempty Hne). apply same_joined_app, Hsj. }
  specialize (Hinv Hstep [] ([], EmptyString)). cbn [app] in Hinv.
  destruct (fold_left sentence_step sentences ([], EmptyString)) as [chunks cur].
  cbn [fst snd] in Hinv. destruct Hinv as [Hc _].
  { apply same_joined_refl. }
  rewrite <- Hc. f_equal. unfold pending.
  destruct (nonempty cur); [reflexivity | now rewrite app_nil_r].
Qed.

(** X18. On a text that does not end in whitespace, [_split_by_sentences]
    only regroups: joined by single spaces, its groups read the same as the
    sentences joined by single spaces, and a group over [CHUNK_SIZE + 1]
    approximate tokens is one whole sentence. *)
Theorem split_by_sentences_regroups :
  forall text : string,
    ends_in_text text ->
    String.concat sentence_gap (_split_by_sentences text)
    = String.concat sentence_gap (split_sentences [] false false text)
    /\ Forall (sentence_group_ok (split_sentences [] false false text))
              (_split_by_sentences text).
Proof.
  intros text Htext. split.
  - apply group_sentences_keeps_text.
    apply split_sentences_nonempty; [discriminate | now left].
  - apply group_sentences_ok.
Qed.

(* ------------------------------------------------------------------ *)
(** ** Cleaning *)

Lemma lstrip_head s :
  lstrip s = EmptyString
  \/ exists c s', lstrip s = String c s' /\ is_space c = false.
Proof.
  induction s as [| c s IH]; simpl; [now left |].
  destruct (is_space c) eqn:Hc; [exact IH |].
  right. exists c, s. now split.
Qed.

Lemma rstrip_idem s : rstrip (rstrip s) = rstrip s.
Proof.
  induction s as [| c s IH]; [reflexivity |].
  cbn [rstrip]. destruct (rstrip s) as [| r0 r] eqn:Hr.
  - destruct (is_space c) eqn:Hc; [reflexivity |].
    cbn [rstrip]. now rewrite Hc.
  - cbn [rstrip] in *. now rewrite IH.
Qed.

Lemma rstrip_head c s :
  is_space c = false -> exists r, rstrip (String c s) = String c r.
Proof.
  intros Hc. cbn [rstrip]. destruct (rstrip s) as [| r0 r].
  - rewrite Hc. now exists EmptyString.
  - now exists (String r0 r).
Qed.

Lemma strip_idem s : strip (strip s) = strip s.
Proof.
  unfold strip.
  destruct (lstrip_head s) as [H | (c & s' & H & Hc)]; rewrite H.
  - reflexivity.
  - destruct (@rstrip_head c s' Hc) as [r Hr]. rewrite Hr.
    cbn [lstrip]. rewrite Hc, <- Hr. apply rstrip_idem.
Qed.

Lemma all_chars_lstrip f s : all_chars f s = true -> all_chars f (lstrip s) = true.
Proof.
  induction s as [| c s IH]; simpl; [trivial |].
  intros H. apply andb_prop in H. destruct H as [Hc Hs].
  destruct (is_space c); [now apply IH | simpl; now rewrite Hc, Hs].
Qed.

Lemma all_chars_rstrip f s : all_chars f s = true -> all_chars f (rstrip s) = true.
Proof.
  induction s as [| c s IH]; [trivial |].
  cbn [all_chars rstrip]. intros H. apply andb_prop in H. destruct H as [Hc Hs].
  specialize (IH Hs). destruct (rstrip s) as [| r0 r].
  - destruct (is_space c); [reflexivity | simpl; now rewrite Hc].
  - cbn [all_chars] in *. now rewrite Hc, IH.
Qed.

Lemma all_chars_drop_special s : all_chars is_kept (drop_special s) = true.
Proof.
  induction s as [| c s IH]; [reflexivity |].
  cbn [drop_special]. destruct (is_kept c) eqn:Hc; [| exact IH].
  cbn [all_chars]. now rewrite Hc, IH.
Qed.

Lemma rstrip_last s : rstrip s = EmptyString \/ ends_in_text (rstrip s).
Proof.
  induction s as [| c s IH]; [now left |].
  cbn [rstrip]. destruct (rstrip s) as [| r0 r] eqn:Hr.
  - destruct (is_space c) eqn:Hc; [now left | right].
    exists c. now split.
  - right. destruct IH as [IH | (x & Hl & Hx)]; [discriminate |].
    exists x. split; [exact Hl | exact Hx].
Qed.

Lemma all_chars_collapse f s :
  f " "%char = true ->
  forall in_run, all_chars f s = true ->
                 all_chars f (collapse_whitespace in_run s) = true.
Proof.
  intros Hsp. induction s as [| c s IH]; intros in_run H; [reflexivity |].
  cbn [all_chars collapse_whitespace] in *.
  apply andb_prop in H. destruct H as [Hc Hs].
  destruct (is_space c).
  - destruct in_run; [now apply IH |].
    cbn [all_chars]. rewrite Hsp. now apply IH.
  - cbn [all_chars]. rewrite Hc. now apply IH.
Qed.

Lemma all_chars_break f s :
  f LF = true ->
  forall st, all_chars f s = true -> all_chars f (break_sentences st s) = true.
Proof.
  intros Hlf. induction s as [| c s IH]; intros st H; [reflexivity |].
  cbn [all_chars break_sentences] in *.
  apply andb_prop in H. destruct H as [Hc Hs].
  destruct (is_space c).
  - destruct st.
    + cbn [all_chars]. rewrite Hc. now apply IH.
    + cbn [paragraph_break String.append all_chars]. rewrite Hlf. now apply IH.
    + now apply IH.
  - cbn [all_chars]. rewrite Hc. now apply IH.
Qed.

Lemma all_chars_drop f s :
  all_chars f s = true -> all_chars f (drop_special s) = true.
Proof.
  induction s as [| c s IH]; intros H; [reflexivity |].
  cbn [all_chars drop_special] in *.
  apply andb_prop in H. destruct H as [Hc Hs].
  destruct (is_kept c); [cbn [all_chars]; rewrite Hc |]; now apply IH.
Qed.

(** X19. For a text of ASCII characters, the text [_clean_text] returns is
    ASCII and holds only characters of the kept class, stripping it again
    changes nothing, and unless it is empty it ends in a character that is
    not whitespace. *)
Theorem clean_text_shape :
  forall text : string,
    all_chars is_ascii text = true ->
    all_chars is_ascii (_clean_text text) = true
    /\ all_chars is_kept (_clean_text text) = true
    /\ strip (_clean_text text) = _clean_text text
    /\ (_clean_text text = EmptyString \/ ends_in_text (_clean_text text)).
Proof.
  intros text Hascii. unfold _clean_text. split; [| split; [| split]].
  - unfold strip. apply all_chars_rstrip, all_chars_lstrip, all_chars_drop.
    apply all_chars_break; [reflexivity |].
    apply all_chars_collapse; [reflexivity | exact Hascii].
  - unfold strip. apply all_chars_rstrip, all_chars_lstrip, all_chars_drop_special.
  - apply strip_idem.
  - unfold strip. apply rstrip_last.
Qed.

Lemma collapse_blank_run s :
  all_chars is_space s = true -> collapse_whitespace true s = EmptyString.
Proof.
  induction s as [| c s IH]; [reflexivity |].
  cbn [all_chars collapse_whitespace]. intros H.
  apply andb_prop in H. destruct H as [Hc Hs]. rewrite Hc. now apply IH.
Qed.

Lemma collapse_blank s :
  all_chars is_space s = true ->
  collapse_whitespace false s = EmptyString
  \/ collapse_whitespace false s = " "%string.
Proof.
  destruct s as [| c s]; [now left |].
  cbn [all_chars collapse_whitespace]. intros H.
  apply andb_prop in H. destruct H as [Hc Hs]. rewrite Hc.
  right. now rewrite collapse_blank_run.
Qed.

Lemma chunk_text_blank_eq text filename :
  all_chars is_space text = true -> chunk_text text filename = [].
Proof.
  intros Hblank. unfold chunk_text, _clean_text.
  destruct (collapse_blank text Hblank) as [H | H]; rewrite H; reflexivity.
Qed.

(** X20. A text of whitespace only, the empty text included, gives no
    chunks at all. *)
Theorem chunk_text_blank :
  forall text filename : string,
    all_chars is_space text = true ->
    chunk_text text filename = [].
Proof.
  intros text filename Hblank. apply chunk_text_blank_eq, Hblank.
Qed.

(* ================================================================== *)
(** * Background processing *)

Lemma remove_upload_gone file_path files : ~ In file_path (remove_upload file_path files).
Proof.
  unfold remove_upload. intros H. apply filter_In in H. destruct H as [_ H].
  rewrite String.eqb_refl in H. discriminate.
Qed.

Lemma status_record_fields document_id status chunks_count processed_at filename s :
  let r := status_record document_id status chunks_count processed_at filename s in
  DocMeta.status r = status
  /\ DocMeta.chunks_count r = chunks_count
  /\ DocMeta.processed_at r = processed_at.
Proof.
  unfold status_record.
  destruct (dict_get document_id (document_metadata s)); repeat split; reflexivity.
Qed.

(** The two ways through [process_document_background]. *)
Lemma process_document_background_run rd p now document_id file_path filename a :
  exists w1 w2 status chunks_count processed_at,
    process_document_background rd p now document_id file_path filename a
    = (Ok tt, {| vector_store := w2;
                 uploads := remove_upload file_path (uploads a) |})
    /\ update_document_status document_id status chunks_count processed_at None w1
       = (Ok tt, w2)
    /\ ((exists text,
            extract_text rd file_path = Ok text
            /\ add_chunks p document_id (chunk_text text filename) (vector_store a)
               = (Ok tt, w1)
            /\ status = "completed"%string
            /\ chunks_count = Z.of_nat (length (chunk_text text filename))
            /\ processed_at = Some now)
        \/ (mem w1 = mem (vector_store a)
            /\ disk w1 = disk (vector_store a)
            /\ status = "failed"%string
            /\ chunks_count = 0%Z
            /\ processed_at = None)).
Proof.
  unfold process_document_background, try_except.
  unfold bind at 1. unfold lift at 1.
  destruct (extract_text rd file_path) as [text | e] eqn:Hx.
  - unfold bind at 1.
    destruct (add_chunks p document_id (chunk_text text filename) (vector_store a))
      as [[[] | e] w1] eqn:Hadd.
    + destruct (update_document_status_run document_id "completed"
                  (Z.of_nat (length (chunk_text text filename))) (Some now) None w1)
        as (w2 & Hrun & _).
      rewrite Hrun. exists w1, w2. do 3 eexists.
      split; [reflexivity |]. split; [exact Hrun |].
      left. exists text. repeat split; reflexivity || assumption.
    + destruct (update_document_status_run document_id "failed" 0%Z None None w1)
        as (w2 & Hrun & _).
      rewrite Hrun. exists w1, w2. do 3 eexists.
      split; [reflexivity |]. split; [exact Hrun |].
      right. destruct (add_chunks_raise_frame _ _ _ _ Hadd) as [Hm Hd].
      repeat split; reflexivity || assumption.
  - destruct (update_document_status_run document_id "failed" 0%Z None None
                (vector_store a)) as (w2 & Hrun & _).
    rewrite Hrun. exists (vector_store a), w2. do 3 eexists.
    split; [reflexivity |]. split; [exact Hrun |].
    right. repeat split; reflexivity.
Qed.

Lemma add_chunks_metadata p document_id chunks w w' :
  add_chunks p document_id chunks w = (Ok tt, w') ->
  chunks_metadata (mem w')
  = chunks_metadata (mem w) ++ map (new_chunk_meta document_id) (enumerate chunks).
Proof.
  intros Hrun. destruct chunks as [| c cs].
  - inversion Hrun. simpl. now rewrite app_nil_r.
  - destruct (add_chunks_ok p document_id w (chunks := c :: cs)) with (w' := w')
      as (_ & arr & nv & _ & _ & Hmem & _); [discriminate | exact Hrun |].
    rewrite Hmem. reflexivity.
Qed.

(** X21. [process_document_background] never raises.  It always removes
    the uploaded file and always leaves a status record for the document:
    either [completed], with the number of chunks of the extracted text,
    the time of completion, and those chunks appended to the chunk
    records; or [failed], with no chunks, no time, and the index as it
    was. *)
Theorem process_document_background_settles :
  forall (rd : Reader) (p : Provider) (now document_id file_path filename : string)
         (a : App),
  exists (a' : App) (record : DocMeta.t),
    process_document_background rd p now document_id file_path filename a
    = (Ok tt, a')
    /\ ~ In file_path (uploads a')
    /\ get_document_status document_id (mem (vector_store a')) = Some record
    /\ processed rd now document_id file_path filename
         (mem (vector_store a)) (mem (vector_store a')) record.
Proof.
  intros rd p now document_id file_path filename a.
  destruct (process_document_background_run rd p now document_id file_path
              filename a)
    as (w1 & w2 & status & n & at_ & Hrun & Hupd & Hcases).
  destruct (update_document_status_run document_id status n at_ None w1)
    as (w2' & Hupd' & Hmem & _).
  rewrite Hupd in Hupd'. inversion Hupd'; subst w2'. clear Hupd'.
  destruct (update_document_status_frame document_id status n at_ None w1)
    as (w2' & Hupd' & Hv & Hc & Hb & Ht & _).
  rewrite Hupd in Hupd'. inversion Hupd'; subst w2'. clear Hupd'.
  destruct (status_record_fields document_id status n at_ None (mem w1))
    as (Hs1 & Hs2 & Hs3).
  eexists. exists (status_record document_id status n at_ None (mem w1)).
  split; [exact Hrun |]. cbn [uploads vector_store].
  split; [apply remove_upload_gone |].
  split.
  { unfold get_document_status. rewrite Hmem. cbn [document_metadata set_document_metadata].
    apply dict_get_set_same. }
  destruct Hcases as [(text & Hx & Hadd & -> & -> & ->)
                     | (Hm & Hd & -> & -> & ->)].
  - apply Completed with (text := text); try assumption.
    rewrite Hc. apply (add_chunks_metadata _ _ _ _ Hadd).
  - apply Failed; try assumption; rewrite <- Hm; assumption.
Qed.

Lemma new_chunk_metas_own document_id (l : list (nat * Chunk.t)) :
  filter (fun c => String.eqb (ChunkMeta.document_id c) document_id)
         (map (new_chunk_meta document_id) l)
  = map (new_chunk_meta document_id) l.
Proof.
  induction l as [| [i c] l IH]; [reflexivity |].
  cbn [map filter new_chunk_meta ChunkMeta.document_id].
  rewrite String.eqb_refl. f_equal. exact IH.
Qed.

(** X22. For a document id no chunk record carries yet, background
    processing leaves a status record whose [chunks_count] is the number of
    chunk records of that document in the store, whichever way it ends. *)
Theorem process_document_background_count :
  forall (rd : Reader) (p : Provider) (now document_id file_path filename : string)
         (a : App),
    chunks_of_document document_id (mem (vector_store a)) = [] ->
    exists (a' : App) (record : DocMeta.t),
      process_document_background rd p now document_id file_path filename a
      = (Ok tt, a')
      /\ get_document_status document_id (mem (vector_store a')) = Some record
      /\ DocMeta.chunks_count record
         = Z.of_nat (length (chunks_of_document document_id
                               (mem (vector_store a')))).
Proof.
  intros rd p now document_id file_path filename a Hfresh.
  destruct (process_document_background_run rd p now document_id file_path
              filename a)
    as (w1 & w2 & status & n & at_ & Hrun & Hupd & Hcases).
  destruct (update_document_status_run document_id status n at_ None w1)
    as (w2' & Hupd' & Hmem & _).
  rewrite Hupd in Hupd'. inversion Hupd'; subst w2'. clear Hupd'.
  destruct (status_record_fields document_id status n at_ None (mem w1))
    as (_ & Hs2 & _).
  eexists. exists (status_record document_id status n at_ None (mem w1)).
  split; [exact Hrun |]. cbn [vector_store].
  split.
  { unfold get_document_status. rewrite Hmem.
    cbn [document_metadata set_document_metadata]. apply dict_get_set_same. }
  rewrite Hs2. unfold chunks_of_document in *. rewrite Hmem.
  cbn [chunks_metadata set_document_metadata].
  destruct Hcases as [(text & Hx & Hadd & _ & -> & _) | (Hm & _ & _ & -> & _)].
  - rewrite (add_chunks_metadata _ _ _ _ Hadd), filter_app, Hfresh.
    cbn [app]. rewrite new_chunk_metas_own, length_map, enumerate_length.
    reflexivity.
  - rewrite Hm, Hfresh. reflexivity.
Qed.

(** X23. Background processing keeps what [upload_document] registered:
    the record of the document keeps its id and its file name, and the
    records of all other documents stay as they were. *)
Theorem process_document_background_keeps_registration :
  forall (rd : Reader) (p : Provider) (now document_id file_path filename : string)
         (a : App) (registered : DocMeta.t),
    get_document_status document_id (mem (vector_store a)) = Some registered ->
    exists (a' : App) (record : DocMeta.t),
      process_document_background rd p now document_id file_path filename a
      = (Ok tt, a')
      /\ get_document_status document_id (mem (vector_store a')) = Some record
      /\ DocMeta.document_id record = DocMeta.document_id registered
      /\ DocMeta.filename record = DocMeta.filename registered
      /\ forall other,
           other <> document_id ->
           get_document_status other (mem (vector_store a'))
           = get_document_status other (mem (vector_store a)).
Proof.
  intros rd p now document_id file_path filename a registered Hreg.
  destruct (process_document_background_run rd p now document_id file_path
              filename a)
    as (w1 & w2 & status & n & at_ & Hrun & Hupd & Hcases).
  destruct (update_document_status_run document_id status n at_ None w1)
    as (w2' & Hupd' & Hmem & _).
  rewrite Hupd in Hupd'. inversion Hupd'; subst w2'. clear Hupd'.
  assert (Hdocs : document_metadata (mem w1) = document_metadata (mem (vector_store a))).
  { destruct Hcases as [(text & _ & Hadd & _) | (Hm & _)].
    - apply (add_chunks_keeps_documents _ _ _ _ Hadd).
    - now rewrite Hm. }
  unfold get_document_status in *.
  eexists. exists (status_record document_id status n at_ None (mem w1)).
  split; [exact Hrun |]. cbn [vector_store]. rewrite Hmem.
  cbn [document_metadata set_document_metadata].
  split; [apply dict_get_set_same |].
  unfold status_record. rewrite Hdocs, Hreg. cbn [truthy].
  split; [reflexivity |]. split; [reflexivity |].
  intros other Hother. now rewrite dict_get_set_other.
Qed.

Lemma save_to_disk_calls w :
  provider_calls (log (snd (_save_to_disk w))) = provider_calls (log w).
Proof.
  unfold _save_to_disk, provider_calls. unfold_m.
  destruct (vectors (mem w)); cbn [snd log];
    rewrite ?filter_app; cbn [filter]; rewrite ?app_nil_r; reflexivity.
Qed.

Lemma update_document_status_calls document_id status chunks_count processed_at
    filename w :
  provider_calls
    (log (snd (update_document_status document_id status chunks_count
                 processed_at filename w)))
  = provider_calls (log w).
Proof.
  unfold update_document_status. unfold bind at 1. unfold get_store at 1.
  cbv beta iota. unfold bind at 1.
  destruct (dict_get document_id (document_metadata (mem w)));
    unfold modify_store at 1; cbv beta iota; rewrite save_to_disk_calls;
    reflexivity.
Qed.

(** X24. A file whose text is blank is processed without a call to the
    embedding provider: the document is marked [completed] with zero chunks
    and the index is not touched. *)
Theorem process_document_background_blank :
  forall (rd : Reader) (p : Provider) (now document_id file_path filename text : string)
         (a : App),
    extract_text rd file_path = Ok text ->
    all_chars is_space text = true ->
    exists (a' : App) (record : DocMeta.t),
      process_document_background rd p now document_id file_path filename a
      = (Ok tt, a')
      /\ get_document_status document_id (mem (vector_store a')) = Some record
      /\ DocMeta.status record = "completed"%string
      /\ DocMeta.chunks_count record = 0%Z
      /\ chunks_metadata (mem (vector_store a'))
         = chunks_metadata (mem (vector_store a))
      /\ vectors (mem (vector_store a')) = vectors (mem (vector_store a))
      /\ provider_calls (log (vector_store a'))
         = provider_calls (log (vector_store a)).
Proof.
  intros rd p now document_id file_path filename text a Hx Hblank.
  unfold process_document_background, try_except.
  unfold bind at 1. unfold lift at 1. rewrite Hx.
  rewrite (chunk_text_blank_eq text filename Hblank).
  unfold bind at 1. cbn [add_chunks ret length Z.of_nat].
  pose proof (update_document_status_calls document_id "completed" 0 (Some now)
                None (vector_store a)) as Hlog.
  destruct (update_document_status_run document_id "completed" 0 (Some now) None
              (vector_store a)) as (w2 & Hrun & Hmem & _).
  rewrite Hrun in *. cbn [snd] in Hlog.
  destruct (status_record_fields document_id "completed" 0 (Some now) None
              (mem (vector_store a))) as (Hs1 & Hs2 & _).
  eexists. exists (status_record document_id "completed" 0 (Some now) None
                     (mem (vector_store a))).
  split; [reflexivity |]. cbn [vector_store]. rewrite Hmem.
  split; [apply dict_get_set_same |].
  repeat split; assumption || reflexivity.
Qed.

(* ================================================================== *)
(** * Metrics *)

Lemma substring_length_le (s : string) :
  forall i n, String.length (substring i n s) <= n.
Proof.
  induction s as [| c s IH]; intros i n.
  - destruct i, n; simpl; lia.
  - destruct i as [| i].
    + destruct n as [| n]; simpl; [lia |].
      specialize (IH 0 n). lia.
    + simpl. apply IH.
Qed.

Lemma log_query_queries round now saved_at question latency_ms retrieval_time_ms
    llm_time_ms chunks_retrieved confidence avg_similarity m :
  exists entry,
    queries (log_query round now saved_at question latency_ms retrieval_time_ms
               llm_time_ms chunks_retrieved confidence avg_similarity m)
    = queries m ++ [entry]
    /\ String.length (QueryEntry.question entry) <= 100.
Proof.
  unfold log_query. eexists. split.
  - match goal with |- context [if ?b then _ else _] => destruct b end;
      reflexivity.
  - cbn [QueryEntry.question]. apply substring_length_le.
Qed.

(** X25. [log_query] appends one entry whose question has at most 100
    characters, and writes the file exactly when the number of queries
    reaches a multiple of ten; the file then holds all queries. *)
Theorem log_query_saves_every_tenth :
  forall (round : R -> nat -> R) (now saved_at question : string)
         (latency_ms retrieval_time_ms llm_time_ms : R) (chunks_retrieved : Z)
         (confidence avg_similarity : R) (m : Metrics),
    let m' := log_query round now saved_at question latency_ms retrieval_time_ms
                llm_time_ms chunks_retrieved confidence avg_similarity m in
    (exists entry,
        queries m' = queries m ++ [entry]
        /\ String.length (QueryEntry.question entry) <= 100)
    /\ (if length (queries m') mod 10 =? 0
        then metrics_file m'
             = Stored {| MetricsDump.queries := queries m';
                         MetricsDump.last_updated := saved_at |}
        else metrics_file m' = metrics_file m).
Proof.
  intros round now saved_at question latency_ms retrieval_time_ms llm_time_ms
         chunks_retrieved confidence avg_similarity m m'.
  split; [apply log_query_queries |].
  subst m'. unfold log_query. cbn [queries].
  destruct (length (queries m ++ _) mod 10 =? 0) eqn:E.
  - unfold _save_metrics. cbn [queries metrics_file]. rewrite E. reflexivity.
  - cbn [queries metrics_file]. rewrite E. reflexivity.
Qed.

Lemma tracking_unsaved m :
  tracking m ->
  exists unsaved,
    queries m = _load_metrics (metrics_file m) ++ unsaved
    /\ length unsaved <= length (queries m) mod 10.
Proof.
  induction 1 as [file | round now saved_at question l r t n c a m Hm IH].
  - exists []. cbn [metrics_init queries metrics_file].
    rewrite app_nil_r. split; [reflexivity | simpl; lia].
  - destruct IH as (unsaved & Hq & Hlen).
    unfold log_query. cbn [queries].
    set (entry := QueryEntry.mk _ _ _ _ _ _ _ _).
    destruct (length (queries m ++ [entry]) mod 10 =? 0) eqn:E.
    + exists []. unfold _save_metrics. cbn [queries metrics_file _load_metrics
                                             MetricsDump.queries].
      rewrite app_nil_r. split; [reflexivity | simpl; lia].
    + exists (unsaved ++ [entry]). cbn [queries metrics_file].
      split; [rewrite Hq at 1; now rewrite app_assoc |].
      apply Nat.eqb_neq in E.
      rewrite !length_app in *. cbn [length] in *.
      pose proof (Nat.div_mod_eq (length (queries m)) 10).
      pose proof (Nat.div_mod_eq (length (queries m) + 1) 10).
      pose proof (Nat.mod_upper_bound (length (queries m)) 10).
      pose proof (Nat.mod_upper_bound (length (queries m) + 1) 10).
      lia.
Qed.

(** X26. A tracker never holds ten or more queries that are not in its
    file: what a restart reads back is the logged queries without fewer
    than ten of the newest. *)
Theorem tracking_restart_loses_less_than_ten :
  forall m : Metrics,
    tracking m ->
    exists unsaved,
      queries m = queries (metrics_init (metrics_file m)) ++ unsaved
      /\ length unsaved < 10.
Proof.
  intros m Hm. destruct (tracking_unsaved Hm) as (unsaved & Hq & Hlen).
  exists unsaved. split; [exact Hq |].
  pose proof (Nat.mod_upper_bound (length (queries m)) 10). lia.
Qed.

(* ------------------------------------------------------------------ *)
(** ** Percentiles *)

Lemma insert_asc_perm x l : Permutation (insert_asc x l) (x :: l).
Proof.
  induction l as [| y l IH]; simpl; [apply Permutation_refl |].
  destruct (Rlt_dec x y); [apply Permutation_refl |].
  eapply perm_trans; [apply perm_skip, IH | apply perm_swap].
Qed.

Lemma sorted_perm data : Permutation (sorted data) data.
Proof.
  unfold sorted.
  assert (H : forall acc,
             Permutation (fold_left (fun acc x => insert_asc x acc) data acc)
                         (acc ++ data)).
  { induction data as [| x data IH]; intros acc; simpl.
    - rewrite app_nil_r. apply Permutation_refl.
    - eapply perm_trans; [apply IH |].
      eapply perm_trans; [apply Permutation_app_tail, insert_asc_perm |].
      simpl. apply Permutation_middle. }
  apply (H []).
Qed.

Lemma insert_asc_sorted x l :
  StronglySorted Rle l -> StronglySorted Rle (insert_asc x l).
Proof.
  induction l as [| y l IH]; intros Hs; simpl.
  - constructor; constructor.
  - inversion Hs as [| y' l' Hs' Hy]; subst.
    destruct (Rlt_dec x y) as [Hlt | Hge].
    + constructor; [exact Hs |].
      constructor; [lra |].
      eapply Forall_impl; [| exact Hy]. intros z Hz. simpl in Hz. lra.
    + constructor; [apply IH, Hs' |].
      eapply Permutation_Forall; [apply Permutation_sym, insert_asc_perm |].
      constructor; [lra | exact Hy].
Qed.

Lemma sorted_sorted data : StronglySorted Rle (sorted data).
Proof.
  unfold sorted.
  assert (H : forall acc,
             StronglySorted Rle acc ->
             StronglySorted Rle (fold_left (fun acc x => insert_asc x acc) data acc)).
  { induction data as [| x data IH]; intros acc Hacc; simpl; [exact Hacc |].
    apply IH, insert_asc_sorted, Hacc. }
  apply H. constructor.
Qed.

Lemma count_perm f l l' : Permutation l l' -> count f l = count f l'.
Proof.
  unfold count. induction 1 as [| x l l' _ IH | x y l | l l' l'' _ IH1 _ IH2];
    simpl.
  - reflexivity.
  - destruct (f x); simpl; now rewrite IH.
  - destruct (f x), (f y); reflexivity.
  - now rewrite IH1.
Qed.

Lemma Rleb_refl x : Rleb x x = true.
Proof. unfold Rleb. destruct (Rle_dec x x); [reflexivity | lra]. Qed.

Lemma Rleb_true x y : (x <= y)%R -> Rleb x y = true.
Proof. unfold Rleb. intros H. destruct (Rle_dec x y); [reflexivity | lra]. Qed.

(** In an ascending list the element at position [k] has at least [k + 1]
    elements below or equal to it, and all but [k] above or equal to it. *)
Lemma sorted_rank l :
  StronglySorted Rle l ->
  forall k x,
    nth_error l k = Some x ->
    k < count (fun y => Rleb y x) l
    /\ length l - k <= count (fun y => Rleb x y) l.
Proof.
  unfold count.
  induction 1 as [| a l Hs IH Ha]; intros k x Hk.
  - destruct k; discriminate.
  - destruct k as [| k]; cbn [nth_error] in Hk.
    + inversion Hk; subst a. cbn [filter]. rewrite Rleb_refl. split.
      * simpl. lia.
      * cbn [length]. rewrite Nat.sub_0_r. apply le_n_S.
        clear IH Hs Hk. induction Ha as [| b l Hb Hl IHl]; simpl; [lia |].
        rewrite (Rleb_true Hb). simpl. lia.
    + destruct (IH k x Hk) as [H1 H2].
      rewrite Forall_forall in Ha.
      assert (Hax : (a <= x)%R) by (apply Ha; eapply nth_error_In; exact Hk).
      cbn [filter]. rewrite (Rleb_true Hax). split.
      * simpl. lia.
      * cbn [length]. destruct (Rleb x a); simpl; lia.
Qed.

(** X27. For non-empty data and a scaled position that is not negative,
    [_percentile] does not raise.  It returns a value of the data that has,
    with [k] the position capped at the last one, more than [k] values
    below or equal to it and all but [k] values above or equal to it. *)
Theorem percentile_rank :
  forall (scale : nat -> Z -> Z) (data : list R) (percentile : Z),
    data <> [] ->
    (0 <= scale (length data) percentile)%Z ->
    let k := Z.to_nat (Z.min (scale (length data) percentile)
                             (Z.of_nat (length data) - 1)) in
    exists r,
      _percentile scale data percentile = Ok r
      /\ In r data
      /\ k < count (fun y => Rleb y r) data
      /\ length data - k <= count (fun y => Rleb r y) data.
Proof.
  intros scale data percentile Hne Hpos k.
  pose proof (sorted_perm data) as Hperm.
  pose proof (Permutation_length Hperm) as Hlen.
  unfold _percentile. destruct data as [| d0 data']; [congruence |].
  set (data := d0 :: data') in *. clearbody data.
  cbv zeta. rewrite Hlen. fold k.
  assert (Hn : 0 < length data).
  { destruct data; [apply Permutation_nil in Hperm |]; simpl in *;
      [| lia]. unfold sorted in Hperm. congruence. }
  set (i := Z.min (scale (length data) percentile) (Z.of_nat (length data) - 1)) in *.
  assert (Hi : (0 <= i < Z.of_nat (length data))%Z) by (subst i; lia).
  unfold py_index.
  destruct (i <? 0)%Z eqn:E; [apply Z.ltb_lt in E; lia |]. rewrite E.
  destruct (nth_error (sorted data) (Z.to_nat i)) as [r |] eqn:Hnth.
  - exists r. split; [reflexivity |].
    split; [eapply Permutation_in; [exact Hperm | eapply nth_error_In; exact Hnth] |].
    destruct (sorted_rank (sorted_sorted data) _ Hnth) as [H1 H2].
    rewrite (count_perm _ Hperm) in H1. rewrite (count_perm _ Hperm), Hlen in H2.
    split; assumption.
  - apply nth_error_None in Hnth. lia.
Qed.

(* ================================================================== *)
(** * Tokens *)

Lemma lower_ascii_idem c : lower_ascii (lower_ascii c) = lower_ascii c.
Proof. destruct c as [[] [] [] [] [] [] [] []]; reflexivity. Qed.

Lemma all_chars_of_list f (l : list ascii) :
  all_chars f (string_of_list_ascii l) = forallb f l.
Proof. induction l as [| c l IH]; simpl; [reflexivity | now rewrite IH]. Qed.

Lemma string_of_list_nonempty (l : list ascii) :
  l <> [] -> string_of_list_ascii l <> EmptyString.
Proof. destruct l; [congruence | discriminate]. Qed.

Lemma split_ws_tokens (g : ascii -> bool) :
  forall s cur,
    forallb g cur = true ->
    all_chars (fun c => is_space c || g c) s = true ->
    Forall (fun t => t <> EmptyString /\ all_chars g t = true) (split_ws cur s).
Proof.
  assert (Hflush : forall cur,
             forallb g cur = true ->
             Forall (fun t => t <> EmptyString /\ all_chars g t = true)
                    match cur with
                    | [] => []
                    | _ => [string_of_list_ascii (rev cur)]
                    end).
  { intros [| c cur] Hcur; constructor; [| constructor].
    split.
    - apply string_of_list_nonempty. intros E.
      apply (f_equal (@rev ascii)) in E. rewrite rev_involutive in E.
      discriminate.
    - rewrite all_chars_of_list. apply forallb_forall. intros x Hx.
      apply in_rev in Hx. rewrite forallb_forall in Hcur. now apply Hcur. }
  induction s as [| c s IH]; intros cur Hcur Hs; cbn [split_ws].
  - apply Hflush, Hcur.
  - cbn [all_chars] in Hs. apply andb_prop in Hs. destruct Hs as [Hc Hs].
    destruct (is_space c) eqn:Hsp.
    + apply Forall_app. split; [apply Hflush, Hcur | apply IH; [reflexivity | exact Hs]].
    + apply IH; [| exact Hs]. cbn [forallb]. cbn [orb] in Hc. now rewrite Hc.
Qed.

Lemma lower_chars text :
  all_chars (fun c => is_space c
                      || (negb (is_space c) && Ascii.eqb (lower_ascii c) c))
            (lower text) = true.
Proof.
  induction text as [| c s IH]; [reflexivity |].
  cbn [lower all_chars]. rewrite IH, andb_true_r.
  destruct (is_space (lower_ascii c)); [reflexivity |].
  cbn [orb negb andb]. rewrite lower_ascii_idem. apply Ascii.eqb_refl.
Qed.

(** X28. Every token of [_tokenize] is non-empty, holds no whitespace, and
    is in lower case. *)
Theorem tokenize_tokens :
  forall text : string,
    Forall (fun token =>
              token <> EmptyString
              /\ all_chars (fun c => negb (is_space c)) token = true
              /\ lower token = token)
           (_tokenize text).
Proof.
  intros text. unfold _tokenize.
  eapply Forall_impl;
    [| apply (split_ws_tokens
                (fun c => negb (is_space c) && Ascii.eqb (lower_ascii c) c)
                (lower text) []); [reflexivity | apply lower_chars]].
  intros t [Hne Hall]. split; [exact Hne |].
  clear Hne. induction t as [| c t IH]; [split; reflexivity |].
  cbn [all_chars] in Hall. apply andb_prop in Hall. destruct Hall as [Hc Ht].
  apply andb_prop in Hc. destruct Hc as [Hsp Hlow].
  destruct (IH Ht) as [IH1 IH2]. apply Ascii.eqb_eq in Hlow.
  cbn [all_chars lower]. rewrite Hsp, IH1, Hlow, IH2. split; reflexivity.
Qed.

(* ================================================================== *)
(** * From the upload to the chunk records *)

Lemma process_document_background_unread rd p now document_id file_path filename
    a e :
  extract_text rd file_path = Raise e ->
  process_document_background rd p now document_id file_path filename a
  = (fst (update_document_status document_id "failed" 0 None None (vector_store a)),
     {| vector_store :=
          snd (update_document_status document_id "failed" 0 None None
                 (vector_store a));
        uploads := remove_upload file_path (uploads a) |}).
Proof.
  intros Hx. unfold process_document_background, try_except.
  unfold bind at 1. unfold lift at 1. rewrite Hx. cbv beta iota.
  destruct (update_document_status document_id "failed" 0 None None (vector_store a));
    reflexivity.
Qed.

(** X29. A path that ends in neither [.pdf] nor [.txt] is never read:
    whatever the readers would answer, the run is the same, the document
    is marked [failed] with no chunks, and the embedding provider is not
    called. *)
Theorem process_document_background_unsupported :
  forall (rd rd' : Reader) (p : Provider)
         (now document_id file_path filename : string) (a : App),
    endswith file_path ".pdf" = false ->
    endswith file_path ".txt" = false ->
    process_document_background rd p now document_id file_path filename a
    = process_document_background rd' p now document_id file_path filename a
    /\ exists (a' : App) (record : DocMeta.t),
        process_document_background rd p now document_id file_path filename a
        = (Ok tt, a')
        /\ get_document_status document_id (mem (vector_store a')) = Some record
        /\ DocMeta.status record = "failed"%string
        /\ DocMeta.chunks_count record = 0%Z
        /\ provider_calls (log (vector_store a'))
           = provider_calls (log (vector_store a)).
Proof.
  intros rd rd' p now document_id file_path filename a Hpdf Htxt.
  assert (Hx : forall r, extract_text r file_path = Raise ValueError).
  { intros r. unfold extract_text. now rewrite Hpdf, Htxt. }
  rewrite (@process_document_background_unread rd p now document_id file_path
             filename a ValueError (Hx rd)).
  rewrite (@process_document_background_unread rd' p now document_id file_path
             filename a ValueError (Hx rd')).
  split; [reflexivity |].
  pose proof (update_document_status_calls document_id "failed" 0 None None
                (vector_store a)) as Hlog.
  destruct (update_document_status_run document_id "failed" 0 None None
              (vector_store a)) as (w2 & Hrun & Hmem & _).
  rewrite Hrun in *. cbn [fst snd] in *.
  destruct (status_record_fields document_id "failed" 0 None None
              (mem (vector_store a))) as (Hs1 & Hs2 & _).
  eexists. exists (status_record document_id "failed" 0 None None
                     (mem (vector_store a))).
  split; [reflexivity |]. cbn [vector_store]. rewrite Hmem.
  split; [apply dict_get_set_same |].
  repeat split; assumption.
Qed.

Lemma enumerate_nth A (l : list A) i j (x : A) :
  nth_error (enumerate l) i = Some (j, x) -> j = i /\ nth_error l i = Some x.
Proof.
  unfold enumerate.
  assert (H : forall start i,
             nth_error (combine (seq start (length l)) l) i = Some (j, x) ->
             j = start + i /\ nth_error l i = Some x).
  { induction l as [| y l IH]; intros start k Hk.
    - destruct k; discriminate.
    - destruct k as [| k]; cbn in Hk.
      + inversion Hk; subst. split; [lia | reflexivity].
      + destruct (IH (S start) k Hk) as [-> Hx]. split; [lia | exact Hx]. }
  intros Hi. destruct (H 0 i Hi) as [-> Hx]. split; [reflexivity | exact Hx].
Qed.

(** X30. The chunk records made from the chunks of [chunk_text] are
    numbered consistently: the record at position [i] of a document has the
    chunk id [<document_id>_chunk_<i>], chunk index [i], the file name
    given to [chunk_text] and a non-empty text. *)
Theorem chunk_records_numbered :
  forall (text filename document_id : string) (i : nat) (record : ChunkMeta.t),
    nth_error (map (new_chunk_meta document_id)
                   (enumerate (chunk_text text filename))) i
    = Some record ->
    ChunkMeta.document_id record = document_id
    /\ ChunkMeta.chunk_id record = make_chunk_id document_id i
    /\ ChunkMeta.chunk_index record = Z.of_nat i
    /\ ChunkMeta.filename record = filename
    /\ ChunkMeta.text record <> EmptyString.
Proof.
  intros text filename document_id i record Hi.
  rewrite nth_error_map in Hi.
  destruct (nth_error (enumerate (chunk_text text filename)) i) as [[j c] |] eqn:E;
    [| discriminate].
  inversion Hi; subst record. clear Hi.
  destruct (enumerate_nth _ _ E) as [-> Hc].
  destruct (@chunk_text_is_numbered text filename i c Hc) as [Hcd Hne].
  cbn [new_chunk_meta ChunkMeta.document_id ChunkMeta.chunk_id
       ChunkMeta.chunk_index ChunkMeta.filename ChunkMeta.text].
  rewrite Hcd. cbn [_create_chunk_dict Chunk.chunk_index Chunk.filename Chunk.text].
  repeat split. exact Hne.
Qed.

(* ================================================================== *)
(** * Sample runs of the further properties *)

Lemma demo_completed_run :
  update_document_status "doc1" "completed" 1
    (Some "2024-01-01T00:00:00"%string) None Demo.one_chunk
  = (Ok tt, Demo.completed).
Proof. vm_compute. reflexivity. Qed.

Lemma demo_completed_reachable :
  reachable Demo.completed
    (spec_add (Demo.provider [1%R]) "doc1" [Demo.chunk "cats are mammals" 0] []).
Proof.
  apply (@reach_status Demo.one_chunk _ "doc1"%string "completed"%string 1%Z
           (Some "2024-01-01T00:00:00"%string) None Demo.completed).
  - apply demo_one_chunk_reachable.
  - apply demo_completed_run.
Qed.

Lemma demo_emptied_run :
  delete_document "doc1" Demo.completed = (Ok true, Demo.emptied).
Proof. vm_compute. reflexivity. Qed.

Lemma demo_failed_upload_run :
  update_document_status "doc2" "failed" 0 None (Some "b.txt"%string)
    Demo.one_chunk
  = (Ok tt, Demo.failed_upload).
Proof. vm_compute. reflexivity. Qed.

Lemma update_document_status_frame_others_witness :
  update_document_status "doc2" "failed" 0 None (Some "b.txt"%string)
    Demo.one_chunk
  = (Ok tt, Demo.failed_upload)
  /\ ((forall d, d <> "doc2"%string ->
                 get_document_status d (mem Demo.failed_upload)
                 = get_document_status d (mem Demo.one_chunk))
      /\ chunks_metadata (mem Demo.failed_upload)
         = chunks_metadata (mem Demo.one_chunk)
      /\ vectors (mem Demo.failed_upload) = vectors (mem Demo.one_chunk)
      /\ tokenized_corpus (mem Demo.failed_upload)
         = tokenized_corpus (mem Demo.one_chunk)
      /\ length (list_documents (mem Demo.failed_upload))
         = match get_document_status "doc2" (mem Demo.one_chunk) with
           | Some _ => length (list_documents (mem Demo.one_chunk))
           | None => S (length (list_documents (mem Demo.one_chunk)))
           end).
Proof.
  split; [apply demo_failed_upload_run |].
  apply (@update_document_status_frame_others "doc2" "failed" 0 None
           (Some "b.txt"%string) Demo.one_chunk Demo.failed_upload).
  apply demo_failed_upload_run.
Defined.

Lemma document_records_consistent_witness :
  reachable Demo.failed_upload
    (spec_add (Demo.provider [1%R]) "doc1" [Demo.chunk "cats are mammals" 0] [])
  /\ (NoDup (map DocMeta.document_id (list_documents (mem Demo.failed_upload)))
      /\ (forall d rec,
            get_document_status d (mem Demo.failed_upload) = Some rec ->
            DocMeta.document_id rec = d)
      /\ (forall rec,
            In rec (list_documents (mem Demo.failed_upload)) ->
            get_document_status (DocMeta.document_id rec) (mem Demo.failed_upload)
            = Some rec)).
Proof.
  split; [apply demo_failed_upload_reachable |].
  apply (@document_records_consistent Demo.failed_upload _
           demo_failed_upload_reachable).
Defined.

(** The provider is down: the three chunks are still returned, ranked by
    their sparse scores [1], [1/2] and [0]. *)
Lemma search_without_dense_signal_witness :
  no_dense_signal Demo.failing_provider "cats mammals" (mem Sample.two_docs)
  /\ fst (search Demo.rt Demo.failing_provider "cats mammals" 5 None (7 / 10)
            Sample.two_docs)
     = Ok [Sample.hit_of "doc2" 0 Sample.cats 0 1;
           Sample.hit_of "doc2" 1 Sample.dogs 0 (1 / 2);
           Sample.hit_of "doc1" 0 Sample.rocks 0 0]
  /\ exists (hits : list Hit.t) (w' : World),
      search Demo.rt Demo.failing_provider "cats mammals" 5 None (7 / 10)
             Sample.two_docs
      = (Ok hits, w')
      /\ match vectors (mem Sample.two_docs) with
         | None => hits = []
         | Some _ =>
             match chunks_metadata (mem Sample.two_docs) with
             | [] => hits = []
             | _ :: _ =>
                 hits = py_slice_to
                          (sort_desc Hit.score
                             (fuse Demo.rt (chunks_metadata (mem Sample.two_docs))
                                None (7 / 10) []
                                (bm25_search Demo.rt (mem Sample.two_docs)
                                   "cats mammals")))
                          5
             end
         end
      /\ forall h, In h hits ->
           Hit.vector_score h = 0%R
           /\ Hit.score h = ((1 - 7 / 10) * Hit.bm25_score h)%R.
Proof.
  assert (H : no_dense_signal Demo.failing_provider "cats mammals"
                (mem Sample.two_docs)).
  { left. exists (ProviderError "unavailable"). reflexivity. }
  split; [exact H |].
  split; [apply sample_search_sparse_only |].
  apply (@search_without_dense_signal Demo.rt Demo.failing_provider "cats mammals"
           5 None (7 / 10)%R Sample.two_docs H).
Defined.

Lemma search_hits_distinct_witness :
  (forall l, set_iter Demo.rt l = l)
  /\ search Demo.rt (Demo.provider [(-1)%R]) "dogs" 5 None (7 / 10) Demo.one_chunk
     = (Ok [Demo.hit], Demo.queried)
  /\ exists idxs : list nat,
      NoDup idxs
      /\ Forall2 (fun idx h =>
                    nth_error (chunks_metadata (mem Demo.one_chunk)) idx
                    = Some (Hit.meta h))
                 idxs [Demo.hit]
      /\ length [Demo.hit] <= length (chunks_metadata (mem Demo.one_chunk)).
Proof.
  split; [reflexivity |].
  split; [apply demo_search; reflexivity |].
  apply (@search_hits_distinct Demo.rt (Demo.provider [(-1)%R]) "dogs" 5 None
           (7 / 10)%R Demo.one_chunk Demo.queried [Demo.hit]).
  - reflexivity.
  - apply demo_search. reflexivity.
Defined.

Lemma add_chunks_appends_witness :
  add_chunks (Demo.provider [1%R]) "doc1" [Demo.chunk "cats are mammals" 0]
             Demo.fresh
  = (Ok tt, Demo.one_chunk)
  /\ (chunks_metadata (mem Demo.one_chunk)
      = chunks_metadata (mem Demo.fresh)
          ++ map (new_chunk_meta "doc1")
                 (enumerate [Demo.chunk "cats are mammals" 0])
      /\ tokenized_corpus (mem Demo.one_chunk)
         = tokenized_corpus (mem Demo.fresh)
             ++ map _tokenize (map Chunk.text [Demo.chunk "cats are mammals" 0])
      /\ document_metadata (mem Demo.one_chunk) = document_metadata (mem Demo.fresh)
      /\ ([Demo.chunk "cats are mammals" 0] <> [] ->
          has_documents (mem Demo.one_chunk) = true
          /\ vectors (mem Demo.one_chunk) <> None
          /\ disk Demo.one_chunk = saved_disk (mem Demo.one_chunk) (disk Demo.fresh))).
Proof.
  split; [apply demo_one_chunk_run |].
  apply (@add_chunks_appends (Demo.provider [1%R]) "doc1"
           [Demo.chunk "cats are mammals" 0] Demo.fresh Demo.one_chunk).
  apply demo_one_chunk_run.
Defined.

Lemma sample_one_listed_run :
  update_document_status "doc1" "completed" 1
    (Some "2024-01-01T00:00:00"%string) (Some "a.txt"%string) Sample.two_docs
  = (Ok tt, Sample.one_listed).
Proof. vm_compute. reflexivity. Qed.

Lemma sample_two_listed_run :
  update_document_status "doc2" "completed" 2
    (Some "2024-01-01T00:00:01"%string) (Some "a.txt"%string) Sample.one_listed
  = (Ok tt, Sample.two_listed).
Proof. vm_compute. reflexivity. Qed.

Lemma sample_two_listed_reachable :
  reachable Sample.two_listed Sample.two_docs_entries.
Proof.
  eapply reach_status; [| apply sample_two_listed_run].
  eapply reach_status; [| apply sample_one_listed_run].
  apply sample_two_docs_reachable.
Qed.

Lemma sample_doc1_deleted_run :
  delete_document "doc1" Sample.two_listed = (Ok true, Sample.doc1_deleted).
Proof. vm_compute. reflexivity. Qed.

(** Two listed documents with chunks; deleting ["doc1"] leaves the record
    and the two chunks of ["doc2"] as they were. *)
Lemma delete_document_frame_others_witness :
  reachable Sample.two_listed Sample.two_docs_entries
  /\ delete_document "doc1" Sample.two_listed = (Ok true, Sample.doc1_deleted)
  /\ "doc2"%string <> "doc1"%string
  /\ get_document_status "doc2" (mem Sample.two_listed)
     = Some {| DocMeta.document_id := "doc2";
               DocMeta.filename := "a.txt";
               DocMeta.status := "completed";
               DocMeta.chunks_count := 2;
               DocMeta.processed_at := Some "2024-01-01T00:00:01"%string |}
  /\ chunks_of_document "doc2" (mem Sample.two_listed)
     = [new_chunk_meta "doc2" (0, Sample.cats);
        new_chunk_meta "doc2" (1, Sample.dogs)]
  /\ chunks_of_document "doc1" (mem Sample.doc1_deleted) = []
  /\ (get_document_status "doc2" (mem Sample.doc1_deleted)
      = get_document_status "doc2" (mem Sample.two_listed)
      /\ chunks_of_document "doc2" (mem Sample.doc1_deleted)
         = chunks_of_document "doc2" (mem Sample.two_listed)).
Proof.
  split; [apply sample_two_listed_reachable |].
  split; [apply sample_doc1_deleted_run |].
  split; [discriminate |].
  split; [vm_compute; reflexivity |].
  split; [vm_compute; reflexivity |].
  split; [vm_compute; reflexivity |].
  apply (@delete_document_frame_others Sample.two_listed Sample.doc1_deleted _
           "doc1" true sample_two_listed_reachable sample_doc1_deleted_run "doc2").
  discriminate.
Defined.

Lemma add_then_delete_restores_witness :
  reachable Demo.fresh []
  /\ one_vector_per_text (Demo.provider [1%R])
  /\ chunks_of_document "doc1" (mem Demo.fresh) = []
  /\ [Demo.chunk "cats are mammals" 0] <> []
  /\ add_chunks (Demo.provider [1%R]) "doc1" [Demo.chunk "cats are mammals" 0]
                Demo.fresh
     = (Ok tt, Demo.one_chunk)
  /\ update_document_status "doc1" "completed" 1
       (Some "2024-01-01T00:00:00"%string) None Demo.one_chunk
     = (Ok tt, Demo.completed)
  /\ delete_document "doc1" Demo.completed = (Ok true, Demo.emptied)
  /\ (true = true
      /\ chunks_metadata (mem Demo.emptied) = chunks_metadata (mem Demo.fresh)
      /\ dense_rows (mem Demo.emptied) = dense_rows (mem Demo.fresh)
      /\ tokenized_corpus (mem Demo.emptied) = tokenized_corpus (mem Demo.fresh)
      /\ get_document_status "doc1" (mem Demo.emptied) = None).
Proof.
  split; [apply (reach_empty empty_disk []) |].
  split; [apply demo_provider_contract |].
  split; [reflexivity |].
  split; [discriminate |].
  split; [apply demo_one_chunk_run |].
  split; [apply demo_completed_run |].
  split; [apply demo_emptied_run |].
  apply (@add_then_delete_restores Demo.fresh Demo.one_chunk Demo.completed
           Demo.emptied [] (Demo.provider [1%R]) "doc1" "completed"
           [Demo.chunk "cats are mammals" 0] 1
           (Some "2024-01-01T00:00:00"%string) None true).
  - apply (reach_empty empty_disk []).
  - apply demo_provider_contract.
  - reflexivity.
  - discriminate.
  - apply demo_one_chunk_run.
  - apply demo_completed_run.
  - apply demo_emptied_run.
Defined.

Lemma sample_restarted_run : init Demo.emptied = (Ok tt, Sample.restarted).
Proof. vm_compute. reflexivity. Qed.

Lemma sample_reindexed_run :
  add_chunks (Demo.provider [1%R]) "doc2" [Demo.chunk "dogs bark" 0]
             Sample.restarted
  = (Ok tt, Sample.reindexed).
Proof. vm_compute. reflexivity. Qed.

Lemma restart_keeps_saved_rows_witness :
  vectors_npy (disk Demo.emptied) = Stored (Mat 1 [[1%R]])
  /\ init Demo.emptied = (Ok tt, Sample.restarted)
  /\ chunks_metadata (mem Sample.restarted) = []
  /\ one_vector_per_text (Demo.provider [1%R])
  /\ [Demo.chunk "dogs bark" 0] <> []
  /\ add_chunks (Demo.provider [1%R]) "doc2" [Demo.chunk "dogs bark" 0]
                Sample.restarted
     = (Ok tt, Sample.reindexed)
  /\ (vectors (mem Sample.restarted) = Some (Mat 1 [[1%R]])
      /\ dense_rows (mem Sample.reindexed)
         = [[1%R]] ++ provider_answers (Demo.provider [1%R])
                        (map Chunk.text [Demo.chunk "dogs bark" 0])
      /\ row_count (mem Sample.reindexed)
         = length [[1%R]] + length [Demo.chunk "dogs bark" 0]
      /\ length (chunks_metadata (mem Sample.reindexed))
         = length [Demo.chunk "dogs bark" 0]).
Proof.
  split; [vm_compute; reflexivity |].
  split; [apply sample_restarted_run |].
  split; [vm_compute; reflexivity |].
  split; [apply demo_provider_contract |].
  split; [discriminate |].
  split; [apply sample_reindexed_run |].
  apply (@restart_keeps_saved_rows Demo.emptied Sample.restarted Sample.reindexed
           (Demo.provider [1%R]) "doc2" [Demo.chunk "dogs bark" 0] 1 [[1%R]]).
  - vm_compute. reflexivity.
  - apply sample_restarted_run.
  - vm_compute. reflexivity.
  - apply demo_provider_contract.
  - discriminate.
  - apply sample_reindexed_run.
Defined.

Lemma calculate_confidence_bounds_witness :
  ([Sample.strong_hit] <> []
   /\ (forall h, In h [Sample.strong_hit] -> (7 / 10 < Hit.score h)%R))
  /\ (_calculate_confidence [Sample.strong_hit]
      = Rmin 1 (py_sum (map Hit.score [Sample.strong_hit])
                / INR (length [Sample.strong_hit]) * (7 / 10) + 3 / 10)
      /\ 3 / 10 <= _calculate_confidence [Sample.strong_hit])%R.
Proof.
  assert (H : forall h, In h [Sample.strong_hit] -> (7 / 10 < Hit.score h)%R).
  { intros h [<- | []]. simpl. lra. }
  split; [split; [discriminate | exact H] |].
  apply (proj1 (proj2 (proj2 (proj2
           (@calculate_confidence_bounds [Sample.strong_hit]))))).
  - discriminate.
  - exact H.
Defined.

Lemma sample_calls_sorted : Sorted Rle (map fst Sample.calls ++ [2%R]).
Proof.
  simpl. repeat (constructor; try lra).
Qed.

Lemma rate_limit_decision_witness :
  Sorted Rle (map fst Sample.calls ++ [2%R])
  /\ fst (check_rate_limit 2 "10.0.0.1" (snd (serve Sample.calls [])))
     = (length (filter (in_window 2)
                  (accepted "10.0.0.1" (fst (serve Sample.calls []))))
        <? RATE_LIMIT).
Proof.
  split; [apply sample_calls_sorted |].
  apply (@rate_limit_decision Sample.calls 2%R "10.0.0.1" sample_calls_sorted).
Defined.

Lemma rate_limit_window_witness :
  Sorted Rle (map fst Sample.calls ++ [2%R])
  /\ length (filter (in_window 2)
               (accepted "10.0.0.1"
                  (fst (serve (Sample.calls ++ [(2%R, "10.0.0.1"%string)]) []))))
     <= RATE_LIMIT.
Proof.
  split; [apply sample_calls_sorted |].
  apply (@rate_limit_window Sample.calls 2%R "10.0.0.1" sample_calls_sorted).
Defined.

Lemma sample_chunk_text : chunk_text Sample.text "a.txt" = [Sample.chunk0].
Proof. reflexivity. Qed.

Lemma chunk_text_numbered_witness :
  nth_error (chunk_text Sample.text "a.txt") 0 = Some Sample.chunk0
  /\ (Chunk.chunk_index Sample.chunk0 = Z.of_nat 0
      /\ Chunk.filename Sample.chunk0 = "a.txt"%string
      /\ Chunk.text Sample.chunk0 <> EmptyString
      /\ Chunk.char_count Sample.chunk0
         = Z.of_nat (String.length (Chunk.text Sample.chunk0))
      /\ Chunk.approx_tokens Sample.chunk0
         = Z.of_nat (String.length (Chunk.text Sample.chunk0) / 4)).
Proof.
  assert (H : nth_error (chunk_text Sample.text "a.txt") 0 = Some Sample.chunk0)
    by (rewrite sample_chunk_text; reflexivity).
  split; [exact H |].
  apply (@chunk_text_numbered Sample.text "a.txt" 0 Sample.chunk0 H).
Defined.

Lemma chunk_text_sizes_witness :
  In Sample.chunk0 (chunk_text Sample.text "a.txt")
  /\ chunk_size_ok (paragraphs_of (_clean_text Sample.text)) Sample.chunk0.
Proof.
  assert (H : In Sample.chunk0 (chunk_text Sample.text "a.txt"))
    by (rewrite sample_chunk_text; left; reflexivity).
  split; [exact H |].
  apply (@chunk_text_sizes Sample.text "a.txt" Sample.chunk0 H).
Defined.

Lemma split_by_sentences_regroups_witness :
  ends_in_text Sample.text
  /\ (String.concat sentence_gap (_split_by_sentences Sample.text)
      = String.concat sentence_gap (split_sentences [] false false Sample.text)
      /\ Forall (sentence_group_ok (split_sentences [] false false Sample.text))
                (_split_by_sentences Sample.text)).
Proof.
  assert (H : ends_in_text Sample.text).
  { exists "."%char. split; reflexivity. }
  split; [exact H |].
  apply (@split_by_sentences_regroups Sample.text H).
Defined.

Lemma chunk_text_blank_witness :
  all_chars is_space (String " " (String LF " ")) = true
  /\ chunk_text (String " " (String LF " ")) "a.txt" = [].
Proof.
  split; [reflexivity |].
  apply (@chunk_text_blank (String " " (String LF " ")) "a.txt").
  reflexivity.
Defined.

Lemma process_document_background_count_witness :
  chunks_of_document "doc1" (mem (vector_store Sample.uploaded)) = []
  /\ exists (a' : App) (record : DocMeta.t),
      process_document_background (Sample.reader Sample.text) (Demo.provider [1%R])
        "2024-01-01T00:00:00" "doc1" "uploads/doc1.txt" "a.txt" Sample.uploaded
      = (Ok tt, a')
      /\ get_document_status "doc1" (mem (vector_store a')) = Some record
      /\ DocMeta.chunks_count record
         = Z.of_nat (length (chunks_of_document "doc1" (mem (vector_store a')))).
Proof.
  split; [reflexivity |].
  apply (@process_document_background_count (Sample.reader Sample.text)
           (Demo.provider [1%R]) "2024-01-01T00:00:00" "doc1" "uploads/doc1.txt"
           "a.txt" Sample.uploaded).
  reflexivity.
Defined.

Lemma process_document_background_keeps_registration_witness :
  get_document_status "doc1" (mem (vector_store Sample.uploaded))
  = Some Sample.registered
  /\ exists (a' : App) (record : DocMeta.t),
      process_document_background (Sample.reader Sample.text) Demo.failing_provider
        "2024-01-01T00:00:00" "doc1" "uploads/doc1.txt" "a.txt" Sample.uploaded
      = (Ok tt, a')
      /\ get_document_status "doc1" (mem (vector_store a')) = Some record
      /\ DocMeta.document_id record = DocMeta.document_id Sample.registered
      /\ DocMeta.filename record = DocMeta.filename Sample.registered
      /\ forall other,
           other <> "doc1"%string ->
           get_document_status other (mem (vector_store a'))
           = get_document_status other (mem (vector_store Sample.uploaded)).
Proof.
  split; [reflexivity |].
  apply (@process_document_background_keeps_registration
           (Sample.reader Sample.text) Demo.failing_provider
           "2024-01-01T00:00:00" "doc1" "uploads/doc1.txt" "a.txt"
           Sample.uploaded Sample.registered).
  reflexivity.
Defined.

Lemma process_document_background_blank_witness :
  extract_text (Sample.reader " ") "uploads/doc1.txt" = Ok " "%string
  /\ all_chars is_space " " = true
  /\ exists (a' : App) (record : DocMeta.t),
      process_document_background (Sample.reader " ") (Demo.provider [1%R])
        "2024-01-01T00:00:00" "doc1" "uploads/doc1.txt" "a.txt" Sample.uploaded
      = (Ok tt, a')
      /\ get_document_status "doc1" (mem (vector_store a')) = Some record
      /\ DocMeta.status record = "completed"%string
      /\ DocMeta.chunks_count record = 0%Z
      /\ chunks_metadata (mem (vector_store a'))
         = chunks_metadata (mem (vector_store Sample.uploaded))
      /\ vectors (mem (vector_store a')) = vectors (mem (vector_store Sample.uploaded))
      /\ provider_calls (log (vector_store a'))
         = provider_calls (log (vector_store Sample.uploaded)).
Proof.
  split; [reflexivity |]. split; [reflexivity |].
  apply (@process_document_background_blank (Sample.reader " ")
           (Demo.provider [1%R]) "2024-01-01T00:00:00" "doc1" "uploads/doc1.txt"
           "a.txt" " " Sample.uploaded).
  - reflexivity.
  - reflexivity.
Defined.

Lemma sample_one_query_tracking : tracking Sample.one_query.
Proof. apply TrackLog, TrackInit. Qed.

Lemma tracking_restart_loses_less_than_ten_witness :
  tracking Sample.one_query
  /\ exists unsaved,
      queries Sample.one_query
      = queries (metrics_init (metrics_file Sample.one_query)) ++ unsaved
      /\ length unsaved < 10.
Proof.
  split; [apply sample_one_query_tracking |].
  apply (@tracking_restart_loses_less_than_ten Sample.one_query
           sample_one_query_tracking).
Defined.

Lemma percentile_rank_witness :
  [3; 1; 2]%R <> []
  /\ (0 <= Sample.scale (length [3; 1; 2]%R) 95)%Z
  /\ exists r,
      _percentile Sample.scale [3; 1; 2]%R 95 = Ok r
      /\ In r [3; 1; 2]%R
      /\ Z.to_nat (Z.min (Sample.scale (length [3; 1; 2]%R) 95)
                         (Z.of_nat (length [3; 1; 2]%R) - 1))
         < count (fun y => Rleb y r) [3; 1; 2]%R
      /\ length [3; 1; 2]%R
         - Z.to_nat (Z.min (Sample.scale (length [3; 1; 2]%R) 95)
                           (Z.of_nat (length [3; 1; 2]%R) - 1))
         <= count (fun y => Rleb r y) [3; 1; 2]%R.
Proof.
  split; [discriminate |].
  split; [vm_compute; discriminate |].
  apply (@percentile_rank Sample.scale [3; 1; 2]%R 95).
  - discriminate.
  - vm_compute. discriminate.
Defined.

Lemma process_document_background_unsupported_witness :
  endswith "uploads/doc1.docx" ".pdf" = false
  /\ endswith "uploads/doc1.docx" ".txt" = false
  /\ (process_document_background (Sample.reader Sample.text) (Demo.provider [1%R])
        "2024-01-01T00:00:00" "doc1" "uploads/doc1.docx" "a.docx" Sample.uploaded
      = process_document_background (Sample.reader " ") (Demo.provider [1%R])
          "2024-01-01T00:00:00" "doc1" "uploads/doc1.docx" "a.docx" Sample.uploaded
      /\ exists (a' : App) (record : DocMeta.t),
          process_document_background (Sample.reader Sample.text)
            (Demo.provider [1%R]) "2024-01-01T00:00:00" "doc1" "uploads/doc1.docx"
            "a.docx" Sample.uploaded
          = (Ok tt, a')
          /\ get_document_status "doc1" (mem (vector_store a')) = Some record
          /\ DocMeta.status record = "failed"%string
          /\ DocMeta.chunks_count record = 0%Z
          /\ provider_calls (log (vector_store a'))
             = provider_calls (log (vector_store Sample.uploaded))).
Proof.
  split; [reflexivity |]. split; [reflexivity |].
  apply (@process_document_background_unsupported (Sample.reader Sample.text)
           (Sample.reader " ") (Demo.provider [1%R]) "2024-01-01T00:00:00" "doc1"
           "uploads/doc1.docx" "a.docx" Sample.uploaded).
  - reflexivity.
  - reflexivity.
Defined.

Lemma chunk_records_numbered_witness :
  nth_error (map (new_chunk_meta "doc1") (enumerate (chunk_text Sample.text "a.txt")))
            0
  = Some (new_chunk_meta "doc1" (0, Sample.chunk0))
  /\ (ChunkMeta.document_id (new_chunk_meta "doc1" (0, Sample.chunk0))
      = "doc1"%string
      /\ ChunkMeta.chunk_id (new_chunk_meta "doc1" (0, Sample.chunk0))
         = make_chunk_id "doc1" 0
      /\ ChunkMeta.chunk_index (new_chunk_meta "doc1" (0, Sample.chunk0))
         = Z.of_nat 0
      /\ ChunkMeta.filename (new_chunk_meta "doc1" (0, Sample.chunk0))
         = "a.txt"%string
      /\ ChunkMeta.text (new_chunk_meta "doc1" (0, Sample.chunk0)) <> EmptyString).
Proof.
  assert (H : nth_error (map (new_chunk_meta "doc1")
                             (enumerate (chunk_text Sample.text "a.txt"))) 0
              = Some (new_chunk_meta "doc1" (0, Sample.chunk0)))
    by (rewrite sample_chunk_text; reflexivity).
  split; [exact H |].
  apply (@chunk_records_numbered Sample.text "a.txt" "doc1" 0 _ H).
Defined.

Lemma clean_text_shape_witness :
  all_chars is_ascii "  Cats are   mammals.  Dogs, too! Rocks are #minerals?  "
  = true
  /\ (all_chars is_ascii
        (_clean_text "  Cats are   mammals.  Dogs, too! Rocks are #minerals?  ")
      = true
      /\ all_chars is_kept
           (_clean_text "  Cats are   mammals.  Dogs, too! Rocks are #minerals?  ")
         = true
      /\ strip (_clean_text
                  "  Cats are   mammals.  Dogs, too! Rocks are #minerals?  ")
         = _clean_text "  Cats are   mammals.  Dogs, too! Rocks are #minerals?  "
      /\ (_clean_text "  Cats are   mammals.  Dogs, too! Rocks are #minerals?  "
          = EmptyString
          \/ ends_in_text
               (_clean_text
                  "  Cats are   mammals.  Dogs, too! Rocks are #minerals?  "))).
Proof.
  split; [reflexivity |].
  apply (@clean_text_shape
           "  Cats are   mammals.  Dogs, too! Rocks are #minerals?  ").
  reflexivity.
Defined.
